(** * SAIL: codec discovery, registry and context life cycle

    A shallow embedding of [src/libsail/context_private.c] and of
    [compression_level::is_valid] from the C++ bindings, with the
    properties of the specification stated over it.

    - C strings are [string]; a [char *] result of [strstr] is the offset
      of the match in the haystack.
    - [struct sail_context] and [struct sail_codec_info_node] live in two
      typed heaps ([gmap] from addresses); the registry is the chain of
      [next] pointers in the node heap, exactly as in the source.
    - Everything outside the file (file system, dynamic loader, allocator,
      metadata parser, compile-time configuration) is a field of [world].
    - [double] is Rocq's primitive binary64 [float]. *)

From stdpp Require Import gmap strings list fin_maps.
From Stdlib Require Import Floats.PrimFloat Floats.SpecFloat Floats.FloatAxioms ZArith Ascii.

Local Open Scope string_scope.

(** ** C string helpers *)

Definition strlen (s : string) : nat := String.length s.

(** [s + n] for a [char *]: the string that starts [n] characters in. *)
Fixpoint str_drop (n : nat) (s : string) : string :=
  match n, s with
  | 0, _ => s
  | S n', String _ s' => str_drop n' s'
  | S _, EmptyString => EmptyString
  end.

(** The first [n] characters of [s] (what [memcpy (dst, s, n)] copies). *)
Fixpoint str_take (n : nat) (s : string) : string :=
  match n, s with
  | 0, _ => EmptyString
  | S n', String c s' => String c (str_take n' s')
  | S _, EmptyString => EmptyString
  end.

(** [strstr (haystack, needle)]: offset of the first occurrence, [None]
    for a NULL result. *)
Fixpoint strstr (haystack needle : string) : option nat :=
  if String.prefix needle haystack then Some 0
  else match haystack with
       | EmptyString => None
       | String _ rest => S <$> strstr rest needle
       end.

(** [strcpy (dst + off, src)] seen as the resulting C string in [dst]:
    the characters before [off] are kept, [src] and its terminator
    follow. *)
Definition strcpy_at (dst : string) (off : nat) (src : string) : string :=
  str_take off dst +:+ src.

(** ** Compression level (C++ binding) *)

Record sail_compression_level := {
  level_min : float;
  level_max : float;
  level_default : float;
  level_step : float
}.

Module compression_level.

Definition is_valid (d : sail_compression_level) : bool :=
  PrimFloat.ltb (level_min d) (level_max d) &&
  PrimFloat.leb (level_min d) (level_default d) &&
  PrimFloat.leb (level_default d) (level_max d).

End compression_level.

(** ** Data model of the context *)

(** Heap addresses; [option addr] is a nullable pointer. *)
Definition addr := nat.

(** The platform the file is compiled for ([SAIL_WIN32] defined or not). *)
Inductive platform_t := POSIX | WIN32.

(** The status codes this file produces; [SAIL_OK] is the [Ok] of
    [result]. [SAIL_ERROR_OTHER] stands for the codes of callees. *)
Inductive sail_error :=
  | SAIL_ERROR_MEMORY_ALLOCATION
  | SAIL_ERROR_ENV_UPDATE
  | SAIL_ERROR_LIST_DIR
  | SAIL_ERROR_CONTEXT_NULL_PTR
  | SAIL_ERROR_OTHER (code : nat).

Inductive result (A : Type) :=
  | Ok (a : A)
  | Err (e : sail_error).
Arguments Ok {A} a.
Arguments Err {A} e.

(** Handle of a loaded codec module. *)
Definition sail_codec := nat.

(** [struct sail_codec_info]: the parsed metadata. [ci_path] is the
    module path, NULL until [build_codec_from_codec_info] fills it. *)
Record sail_codec_info := {
  ci_path : option string;
  ci_version : string;
  ci_name : string;
  ci_description : string
}.

Definition set_ci_path (p : option string) (i : sail_codec_info) :=
  {| ci_path := p; ci_version := ci_version i; ci_name := ci_name i;
     ci_description := ci_description i |}.

(** [struct sail_codec_info_node]. *)
Record sail_codec_info_node := {
  codec_info : option sail_codec_info;
  codec : option sail_codec;
  next : option addr
}.

(** [struct sail_context]. *)
Record sail_context := {
  initialized : bool;
  codec_info_node : option addr
}.

(** [enum SailContextAction]. *)
Inductive SailContextAction :=
  | SAIL_CONTEXT_ALLOCATE
  | SAIL_CONTEXT_FETCH
  | SAIL_CONTEXT_DESTROY.

(** ** Logging *)

Inductive log_level := LOG_ERROR | LOG_INFO | LOG_DEBUG.

(** An argument of a log call; [ArgSys] is a value of the operating
    system ([strerror (errno)], [GetLastError ()], a clock difference). *)
Inductive log_arg :=
  | ArgStr (s : string)
  | ArgInt (n : nat)
  | ArgPtr (p : option addr)
  | ArgSys.

Record log_record := {
  log_lvl : log_level;
  log_fmt : string;
  log_args : list log_arg
}.

(** ** The world outside the file *)

(** What [GetModuleHandleEx] followed by [GetModuleFileName] gives. *)
Inductive module_file_name :=
  | ModuleHandleFailed
  | ModuleFileNameFailed
  | ModuleFileName (path : string).

Record world := {
  platform : platform_t;
  SAIL_VCPKG_PORT : bool;
  SAIL_CODECS_PATH : string;
  SAIL_VERSION_STRING : string;
  SAIL_FLAG_PRELOAD_CODECS : Z;
  (** does the k-th call of [sail_malloc] succeed *)
  malloc_ok : nat -> bool;
  sail_is_dir : string -> bool;
  sail_is_file : string -> bool;
  (** [opendir] and the names [readdir] then yields; [None]: [opendir]
      returns NULL *)
  opendir : string -> option (list string);
  (** [FindFirstFile] on a mask and the names [FindNextFile] then
      yields; [None]: INVALID_HANDLE_VALUE *)
  FindFirstFile : string -> option (string * list string);
  (** is [GetLastError ()] ERROR_NO_MORE_FILES once the walk ends *)
  no_more_files : string -> bool;
  codec_read_info : string -> result sail_codec_info;
  (** does [setenv (name, value, true)] return 0 *)
  setenv_ok : string -> string -> bool;
  AddDllDirectory : string -> bool;
  GetModuleFileName : module_file_name;
  (** the platform loader on a module path *)
  load_module : string -> option sail_codec
}.

(** ** Program state *)

(** The two thread-local statics of [sail_codecs_path] and of
    [client_codecs_path]. *)
Record path_static := {
  codecs_path_called : bool;
  env : option string
}.

Record state := {
  environ : gmap string string;
  sail_codecs_path_static : path_static;
  client_codecs_path_static : path_static;
  tls_context : option addr;
  contexts : gmap addr sail_context;
  nodes : gmap addr sail_codec_info_node;
  dll_directories : list string;
  mallocs : nat;
  log : list log_record
}.

Definition set_environ (f : gmap string string -> gmap string string) (s : state) :=
  {| environ := f (environ s);
     sail_codecs_path_static := sail_codecs_path_static s;
     client_codecs_path_static := client_codecs_path_static s;
     tls_context := tls_context s; contexts := contexts s; nodes := nodes s;
     dll_directories := dll_directories s; mallocs := mallocs s; log := log s |}.

Definition set_sail_codecs_path_static (v : path_static) (s : state) :=
  {| environ := environ s;
     sail_codecs_path_static := v;
     client_codecs_path_static := client_codecs_path_static s;
     tls_context := tls_context s; contexts := contexts s; nodes := nodes s;
     dll_directories := dll_directories s; mallocs := mallocs s; log := log s |}.

Definition set_client_codecs_path_static (v : path_static) (s : state) :=
  {| environ := environ s;
     sail_codecs_path_static := sail_codecs_path_static s;
     client_codecs_path_static := v;
     tls_context := tls_context s; contexts := contexts s; nodes := nodes s;
     dll_directories := dll_directories s; mallocs := mallocs s; log := log s |}.

Definition set_tls_context (v : option addr) (s : state) :=
  {| environ := environ s;
     sail_codecs_path_static := sail_codecs_path_static s;
     client_codecs_path_static := client_codecs_path_static s;
     tls_context := v; contexts := contexts s; nodes := nodes s;
     dll_directories := dll_directories s; mallocs := mallocs s; log := log s |}.

Definition set_contexts (f : gmap addr sail_context -> gmap addr sail_context) (s : state) :=
  {| environ := environ s;
     sail_codecs_path_static := sail_codecs_path_static s;
     client_codecs_path_static := client_codecs_path_static s;
     tls_context := tls_context s; contexts := f (contexts s); nodes := nodes s;
     dll_directories := dll_directories s; mallocs := mallocs s; log := log s |}.

Definition set_nodes
    (f : gmap addr sail_codec_info_node -> gmap addr sail_codec_info_node) (s : state) :=
  {| environ := environ s;
     sail_codecs_path_static := sail_codecs_path_static s;
     client_codecs_path_static := client_codecs_path_static s;
     tls_context := tls_context s; contexts := contexts s; nodes := f (nodes s);
     dll_directories := dll_directories s; mallocs := mallocs s; log := log s |}.

Definition set_dll_directories (f : list string -> list string) (s : state) :=
  {| environ := environ s;
     sail_codecs_path_static := sail_codecs_path_static s;
     client_codecs_path_static := client_codecs_path_static s;
     tls_context := tls_context s; contexts := contexts s; nodes := nodes s;
     dll_directories := f (dll_directories s); mallocs := mallocs s; log := log s |}.

Definition set_mallocs (f : nat -> nat) (s : state) :=
  {| environ := environ s;
     sail_codecs_path_static := sail_codecs_path_static s;
     client_codecs_path_static := client_codecs_path_static s;
     tls_context := tls_context s; contexts := contexts s; nodes := nodes s;
     dll_directories := dll_directories s; mallocs := f (mallocs s); log := log s |}.

Definition set_log (f : list log_record -> list log_record) (s : state) :=
  {| environ := environ s;
     sail_codecs_path_static := sail_codecs_path_static s;
     client_codecs_path_static := client_codecs_path_static s;
     tls_context := tls_context s; contexts := contexts s; nodes := nodes s;
     dll_directories := dll_directories s; mallocs := mallocs s; log := f (log s) |}.

(** ** The monad of the embedding

    A C function that returns [sail_status_t] is a state transformer with
    three outcomes: it returns [SAIL_OK] with its results, it returns an
    error code, or it is [Stuck]: the C program has no defined behaviour
    there (a NULL or dangling pointer is dereferenced, a chain walk does
    not reach NULL). An error keeps the state reached so far. *)

Inductive outcome (A : Type) :=
  | Done (r : result A) (s : state)
  | Stuck.
Arguments Done {A} r s.
Arguments Stuck {A}.

Definition M (A : Type) := state -> outcome A.

Definition ret {A} (a : A) : M A := fun s => Done (Ok a) s.
Definition fail {A} (e : sail_error) : M A := fun s => Done (Err e) s.
Definition stuck {A} : M A := fun _ => Stuck.

Definition bind {A B} (m : M A) (f : A -> M B) : M B :=
  fun s => match m s with
           | Done (Ok a) s' => f a s'
           | Done (Err e) s' => Done (Err e) s'
           | Stuck => Stuck
           end.

(** Run [m] and hand its status to the caller instead of returning on an
    error: the [SAIL_TRY_OR_EXECUTE] and [if (f (..) == SAIL_OK)]
    patterns. *)
Definition try {A} (m : M A) : M (result A) :=
  fun s => match m s with
           | Done r s' => Done (Ok r) s'
           | Stuck => Stuck
           end.

Definition get : M state := fun s => Done (Ok s) s.
Definition modify (f : state -> state) : M unit := fun s => Done (Ok tt) (f s).

Declare Scope sail_scope.
Delimit Scope sail_scope with sail.
Notation "x <- m ;; k" := (bind m (fun x => k))
  (at level 100, m at next level, k at level 200, right associativity) : sail_scope.
Notation "m ;; k" := (bind m (fun _ => k))
  (at level 100, k at level 200, right associativity) : sail_scope.
Local Open Scope sail_scope.

(** Dereference of a nullable pointer. *)
Definition deref {A} (p : option A) : M A :=
  match p with Some a => ret a | None => stuck end.

Fixpoint foldM {A B} (f : A -> B -> M B) (l : list A) (b : B) : M B :=
  match l with
  | [] => ret b
  | a :: l' => b' <- f a b ;; foldM f l' b'
  end.

(** [strrchr (s, c)]: offset of the last occurrence of [c]. *)
Fixpoint strrchr (s : string) (c : ascii) : option nat :=
  match s with
  | EmptyString => None
  | String a rest =>
      match strrchr rest c with
      | Some i => Some (S i)
      | None => if decide (a = c) then Some 0 else None
      end
  end.

Definition status_name (e : sail_error) : string :=
  match e with
  | SAIL_ERROR_MEMORY_ALLOCATION => "SAIL_ERROR_MEMORY_ALLOCATION"
  | SAIL_ERROR_ENV_UPDATE => "SAIL_ERROR_ENV_UPDATE"
  | SAIL_ERROR_LIST_DIR => "SAIL_ERROR_LIST_DIR"
  | SAIL_ERROR_CONTEXT_NULL_PTR => "SAIL_ERROR_CONTEXT_NULL_PTR"
  | SAIL_ERROR_OTHER _ => "SAIL_ERROR"
  end.

Definition sail_log (lvl : log_level) (fmt : string) (args : list log_arg) : M unit :=
  modify (set_log (fun l => (l ++ [ {| log_lvl := lvl; log_fmt := fmt; log_args := args |} ])%list)).

Definition SAIL_LOG_ERROR := sail_log LOG_ERROR.
Definition SAIL_LOG_INFO := sail_log LOG_INFO.
Definition SAIL_LOG_DEBUG := sail_log LOG_DEBUG.

Definition SAIL_LOG_AND_RETURN {A} (code : sail_error) : M A :=
  SAIL_LOG_ERROR "%s" [ArgStr (status_name code)] ;; fail code.

Definition SAIL_CHECK_CONTEXT_PTR {A} (context : option A) : M A :=
  match context with
  | None => SAIL_LOG_AND_RETURN SAIL_ERROR_CONTEXT_NULL_PTR
  | Some c => ret c
  end.

Definition getenv (name : string) : M (option string) :=
  s <- get ;; ret (environ s !! name).

(** Registry slots: the value of [last_codec_info_node], a pointer to the
    pointer that the next descriptor is stored through. *)
Inductive slot :=
  | SlotHead            (* &context->codec_info_node *)
  | SlotNext (a : addr) (* &node->next *).

Section Context_private.

Variable w : world.

(** *** Helpers declared outside these files

    The allocator and the string helpers of sail-common are used here
    by what their call sites rely on: each is one allocation request
    and, when it succeeds, the C string its name says. *)

(** [sail_malloc]: whether the request succeeds is the world's; the
    request is counted. *)
Definition sail_malloc : M unit :=
  s <- get ;;
  modify (set_mallocs S) ;;
  if malloc_ok w (mallocs s) then ret tt else fail SAIL_ERROR_MEMORY_ALLOCATION.

(** [sail_concat (&out, n, s1, .., sn)]: one allocation holding the
    concatenation. *)
Definition sail_concat (parts : list string) : M string :=
  sail_malloc ;; ret (foldr String.append EmptyString parts).

Definition sail_strdup (input : string) : M string :=
  sail_malloc ;; ret input.

(** [sail_strdup_length (input, length, &out)]: one allocation holding
    the first [length] characters of [input] and a terminator. *)
Definition sail_strdup_length (input : string) (length : nat) : M string :=
  sail_malloc ;; ret (str_take length input).

(** [sail_to_wchar]: one allocation; the wide copy names the same path. *)
Definition sail_to_wchar (input : string) : M string :=
  sail_malloc ;; ret input.

Definition load_node (a : addr) : M sail_codec_info_node :=
  s <- get ;; deref (nodes s !! a).

Definition store_node (a : addr) (n : sail_codec_info_node) : M unit :=
  load_node a ;; modify (set_nodes (insert a n)).

Definition load_context (c : addr) : M sail_context :=
  s <- get ;; deref (contexts s !! c).

Definition store_context (c : addr) (x : sail_context) : M unit :=
  load_context c ;; modify (set_contexts (insert c x)).

(** Modelled from the spec: [alloc_codec_info_node] is not part of these
    files; a CodecDescriptorNode has a "descriptor", a cached
    "loaded_module: optional" handle that is "absent until first load",
    and a "next: owning reference to next node | none". A new node is a
    fresh address with all three NULL. *)
Definition alloc_codec_info_node : M addr :=
  sail_malloc ;;
  s <- get ;;
  let a := fresh (dom (nodes s)) in
  modify (set_nodes (insert a {| codec_info := None; codec := None; next := None |})) ;;
  ret a.

(** Modelled from the spec: [destroy_codec_info_node] is not part of
    these files; it frees one "CodecDescriptorNode and any loaded module
    handle it owns". *)
Definition destroy_codec_info_node (a : addr) : M unit :=
  load_node a ;; modify (set_nodes (delete a)).

(** Modelled from the spec: [destroy_codec_info_node_chain] is not part
    of these files; "releases the entire registry chain (recursively
    freeing every CodecDescriptorNode and any loaded module handle it
    owns)". Each round frees one node, so the number of live nodes
    bounds the walk; a walk that needs more does not end. *)
Fixpoint destroy_chain_from (fuel : nat) (p : option addr) : M unit :=
  match p with
  | None => ret tt
  | Some a =>
      match fuel with
      | 0 => stuck
      | S fuel' =>
          n <- load_node a ;;
          destroy_codec_info_node a ;;
          destroy_chain_from fuel' (next n)
      end
  end.

Definition destroy_codec_info_node_chain (p : option addr) : M unit :=
  s <- get ;; destroy_chain_from (size (nodes s)) p.

(** Modelled from the spec: [load_codec_by_codec_info] is not part of
    these files; "if descriptor.loaded_module is already populated,
    returns the cached handle (no reload). Otherwise invokes the
    platform dynamic-module loader on descriptor.module_path, caches
    the resulting handle into the descriptor on success". The
    descriptor is named by the node that holds it. *)
Definition load_codec_by_codec_info (a : addr) : M sail_codec :=
  n <- load_node a ;;
  match codec n with
  | Some h => ret h
  | None =>
      match codec_info n ≫= ci_path with
      | None => fail (SAIL_ERROR_OTHER 0)
      | Some p =>
          match load_module w p with
          | None => fail (SAIL_ERROR_OTHER 1)
          | Some h =>
              store_node a {| codec_info := codec_info n; codec := Some h; next := next n |} ;;
              ret h
          end
      end
  end.

(** *** Private functions *)

Definition set_sail_env (v : option string) : M unit :=
  modify (fun s => set_sail_codecs_path_static
    {| codecs_path_called := codecs_path_called (sail_codecs_path_static s); env := v |} s).

Definition set_client_env (v : option string) : M unit :=
  modify (fun s => set_client_codecs_path_static
    {| codecs_path_called := codecs_path_called (client_codecs_path_static s); env := v |} s).

Definition CODECS_RELATIVE_PATH : string :=
  if SAIL_VCPKG_PORT w then "\sail\codecs" else "\..\lib\sail\codecs".

Definition sail_codecs_path : M (option string) :=
  s <- get ;;
  if codecs_path_called (sail_codecs_path_static s) then ret (env (sail_codecs_path_static s))
  else
    modify (set_sail_codecs_path_static
              {| codecs_path_called := true; env := env (sail_codecs_path_static s) |}) ;;
    match platform w with
    | WIN32 =>
        e <- getenv "SAIL_CODECS_PATH" ;;
        set_sail_env e ;;
        match e with
        | None =>
            match GetModuleFileName w with
            | ModuleHandleFailed =>
                SAIL_LOG_ERROR "GetModuleHandleEx() failed with an error code %d. Falling back to loading codecs from '%s'"
                  [ArgSys; ArgStr (SAIL_CODECS_PATH w)] ;;
                set_sail_env (Some (SAIL_CODECS_PATH w))
            | ModuleFileNameFailed =>
                SAIL_LOG_ERROR "GetModuleFileName() failed with an error code %d. Falling back to loading codecs from '%s'"
                  [ArgSys; ArgStr (SAIL_CODECS_PATH w)] ;;
                set_sail_env (Some (SAIL_CODECS_PATH w))
            | ModuleFileName path =>
                match strrchr path "\"%char with
                | None =>
                    SAIL_LOG_ERROR "Failed to find a path separator in '%s'. Falling back to loading codecs from '%s'"
                      [ArgStr path; ArgStr (SAIL_CODECS_PATH w)] ;;
                    set_sail_env (Some (SAIL_CODECS_PATH w))
                | Some last_sep =>
                    let path := str_take last_sep path in
                    r <- try (sail_concat [path; CODECS_RELATIVE_PATH]) ;;
                    match r with
                    | Err _ =>
                        SAIL_LOG_ERROR "Failed to concat strings. Falling back to loading codecs from '%s'"
                          [ArgStr (SAIL_CODECS_PATH w)] ;;
                        set_sail_env (Some (SAIL_CODECS_PATH w)) ;;
                        (* env = lib_sail_codecs_path, which was never written *)
                        stuck
                    | Ok lib_sail_codecs_path =>
                        set_sail_env (Some lib_sail_codecs_path) ;;
                        SAIL_LOG_DEBUG "SAIL_CODECS_PATH environment variable is not set. Loading codecs from '%s'"
                          [ArgStr lib_sail_codecs_path]
                    end
                end
            end
        | Some v =>
            SAIL_LOG_DEBUG "SAIL_CODECS_PATH environment variable is set. Loading codecs from '%s'"
              [ArgStr v]
        end
    | POSIX =>
        e <- getenv "SAIL_CODECS_PATH" ;;
        set_sail_env e ;;
        match e with
        | None =>
            SAIL_LOG_DEBUG "SAIL_CODECS_PATH environment variable is not set. Loading codecs from '%s'"
              [ArgStr (SAIL_CODECS_PATH w)] ;;
            set_sail_env (Some (SAIL_CODECS_PATH w))
        | Some v =>
            SAIL_LOG_DEBUG "SAIL_CODECS_PATH environment variable is set. Loading codecs from '%s'"
              [ArgStr v]
        end
    end ;;
    s' <- get ;;
    ret (env (sail_codecs_path_static s')).

Definition client_codecs_path : M (option string) :=
  s <- get ;;
  if codecs_path_called (client_codecs_path_static s) then ret (env (client_codecs_path_static s))
  else
    modify (set_client_codecs_path_static
              {| codecs_path_called := true; env := env (client_codecs_path_static s) |}) ;;
    e <- getenv "SAIL_MY_CODECS_PATH" ;;
    set_client_env e ;;
    match e with
    | None =>
        SAIL_LOG_DEBUG "SAIL_MY_CODECS_PATH environment variable is not set. Not loading codecs from it" []
    | Some v =>
        SAIL_LOG_DEBUG "SAIL_MY_CODECS_PATH environment variable is set. Loading codecs from '%s'"
          [ArgStr v]
    end ;;
    ret e.

Definition setenv (name value : string) : M bool :=
  if setenv_ok w name value
  then modify (set_environ (insert name value)) ;; ret true
  else ret false.

(** Add "sail/codecs/lib" to the DLL/SO search path. [sail_concat]
    takes the length of each argument, so a NULL [codecs_path] has no
    defined behaviour. *)
Definition update_lib_path (codecs_path : option string) : M unit :=
  codecs_path <- deref codecs_path ;;
  match platform w with
  | WIN32 =>
      full_path_to_lib <- sail_concat [codecs_path; "\lib"] ;;
      if negb (sail_is_dir w full_path_to_lib) then
        SAIL_LOG_DEBUG "Optional DLL directory '%s' doesn't exist, so not loading DLLs from it"
          [ArgStr full_path_to_lib]
      else
        SAIL_LOG_DEBUG "Append '%s' to the DLL search paths" [ArgStr full_path_to_lib] ;;
        full_path_to_lib_w <- sail_to_wchar full_path_to_lib ;;
        if negb (AddDllDirectory w full_path_to_lib_w) then
          SAIL_LOG_ERROR "Failed to update library search path with '%s'. Error: %d"
            [ArgStr full_path_to_lib; ArgSys] ;;
          SAIL_LOG_AND_RETURN SAIL_ERROR_ENV_UPDATE
        else
          modify (set_dll_directories (fun l => (l ++ [full_path_to_lib_w])%list))
  | POSIX =>
      full_path_to_lib <- sail_concat [codecs_path; "/lib"] ;;
      if negb (sail_is_dir w full_path_to_lib) then
        SAIL_LOG_DEBUG "Optional LIB directory '%s' doesn't exist, so not updating LD_LIBRARY_PATH with it"
          [ArgStr full_path_to_lib]
      else
        env <- getenv "LD_LIBRARY_PATH" ;;
        combined_ld_library_path <-
          match env with
          | None => sail_strdup full_path_to_lib
          | Some env => sail_concat [env; ":"; full_path_to_lib]
          end ;;
        SAIL_LOG_DEBUG "Set LD_LIBRARY_PATH to '%s'" [ArgStr combined_ld_library_path] ;;
        ok <- setenv "LD_LIBRARY_PATH" combined_ld_library_path ;;
        if negb ok then
          SAIL_LOG_ERROR "Failed to update library search path: %s" [ArgSys] ;;
          SAIL_LOG_AND_RETURN SAIL_ERROR_ENV_UPDATE
        else ret tt
  end.

(** [alloc_context (&p)]: the new context is the result. *)
Definition alloc_context : M addr :=
  sail_malloc ;;
  s <- get ;;
  let c := fresh (dom (contexts s)) in
  modify (set_contexts (insert c {| initialized := false; codec_info_node := None |})) ;;
  ret c.

Definition build_full_path (sail_codecs_path name : string) : M string :=
  match platform w with
  | WIN32 => sail_concat [sail_codecs_path; "\"; name]
  | POSIX => sail_concat [sail_codecs_path; "/"; name]
  end.

Definition LIB_SUFFIX : string :=
  match platform w with
  | WIN32 => "dll"
  | POSIX => "so"
  end.

(** The two pointer checks at the top of the C function cannot fire:
    the path is a string and the result pointer is the caller's
    local. The new node is the result. *)
Definition build_codec_from_codec_info (codec_info_full_path : string) : M addr :=
  (* Build "/path/jpeg.so" from "/path/jpeg.codec.info". *)
  match strstr codec_info_full_path ".codec.info" with
  | None => SAIL_LOG_AND_RETURN SAIL_ERROR_MEMORY_ALLOCATION
  | Some off =>
      let codec_info_part := str_drop off codec_info_full_path in
      (* The length of "/path/jpeg". *)
      let codec_full_path_length := strlen codec_info_full_path - strlen codec_info_part in
      codec_full_path <-
        sail_strdup_length codec_info_full_path
          (codec_full_path_length + strlen LIB_SUFFIX + 1) ;;
      (* Overwrite the end of the path with the suffix. *)
      let codec_full_path :=
        strcpy_at codec_full_path (codec_full_path_length + 1) LIB_SUFFIX in
      (* Parse codec info. *)
      node <- alloc_codec_info_node ;;
      match codec_read_info w codec_info_full_path with
      | Err e => destroy_codec_info_node node ;; fail e
      | Ok codec_info =>
          (* Save the parsed codec info into the SAIL context. *)
          n <- load_node node ;;
          store_node node
            {| codec_info := Some (set_ci_path (Some codec_full_path) codec_info);
               codec := codec n; next := next n |} ;;
          ret node
      end
  end.

Definition destroy_context (context : option addr) : M unit :=
  match context with
  | None => ret tt
  | Some c =>
      x <- load_context c ;;
      destroy_codec_info_node_chain (codec_info_node x) ;;
      modify (set_contexts (delete c))
  end.

(** [*last_codec_info_node = node]. *)
Definition store_slot (c : addr) (last : slot) (node : option addr) : M unit :=
  match last with
  | SlotHead =>
      x <- load_context c ;;
      store_context c {| initialized := initialized x; codec_info_node := node |}
  | SlotNext a =>
      n <- load_node a ;;
      store_node a {| codec_info := codec_info n; codec := codec n; next := node |}
  end.

(** One round of the [readdir] loop; the result is the value of
    [last_codec_info_node] after it. *)
Definition scan_entry_posix (c : addr) (codecs_path name : string) (last : slot) : M slot :=
  r <- try (build_full_path codecs_path name) ;;
  match r with
  | Err _ => ret last (* continue *)
  | Ok full_path =>
      (* Handle files only. *)
      if sail_is_file w full_path then
        let is_codec_info := bool_decide (strstr full_path ".codec.info" ≠ None) in
        if is_codec_info then
          SAIL_LOG_DEBUG "Found codec info '%s'" [ArgStr name] ;;
          r <- try (build_codec_from_codec_info full_path) ;;
          match r with
          | Ok node => store_slot c last (Some node) ;; ret (SlotNext node)
          | Err _ => ret last
          end
        else ret last
      else ret last
  end.

(** One round of the [FindNextFile] loop. *)
Definition scan_entry_win32 (c : addr) (codecs_path name : string) (last : slot) : M slot :=
  r <- try (build_full_path codecs_path name) ;;
  match r with
  | Err _ => ret last (* continue *)
  | Ok full_path =>
      SAIL_LOG_DEBUG "Found codec info '%s'" [ArgStr name] ;;
      r <- try (build_codec_from_codec_info full_path) ;;
      match r with
      | Ok node => store_slot c last (Some node) ;; ret (SlotNext node)
      | Err _ => ret last
      end
  end.

(** One round of the loop over [codec_search_paths]. *)
Definition scan_path (c : addr) (codecs_path : option string) (last : slot) : M slot :=
  match codecs_path with
  | None => ret last (* continue *)
  | Some codecs_path =>
      match platform w with
      | WIN32 =>
          let plugs_info_mask := "\*.codec.info" in
          sail_malloc ;;
          let codecs_path_with_mask := codecs_path +:+ plugs_info_mask in
          match FindFirstFile w codecs_path_with_mask with
          | None =>
              SAIL_LOG_ERROR "Failed to list files in '%s'. Error: %d"
                [ArgStr codecs_path; ArgSys] ;;
              SAIL_LOG_AND_RETURN SAIL_ERROR_LIST_DIR
          | Some (first, others) =>
              last <- foldM (scan_entry_win32 c codecs_path) (first :: others) last ;;
              (if no_more_files w codecs_path_with_mask then ret tt
               else SAIL_LOG_ERROR "Failed to list files in '%s'. Error: %d. Some codecs may be ignored"
                      [ArgStr codecs_path; ArgSys]) ;;
              ret last
          end
      | POSIX =>
          match opendir w codecs_path with
          | None =>
              SAIL_LOG_ERROR "Failed to list files in '%s': %s" [ArgStr codecs_path; ArgSys] ;;
              ret last (* continue *)
          | Some entries => foldM (scan_entry_posix c codecs_path) entries last
          end
      end
  end.

(** The preload walk; load errors are ignored on purpose. *)
Fixpoint preload_from (fuel : nat) (p : option addr) : M unit :=
  match p with
  | None => ret tt
  | Some a =>
      match fuel with
      | 0 => stuck
      | S fuel' =>
          try (load_codec_by_codec_info a) ;;
          n <- load_node a ;;
          preload_from fuel' (next n)
      end
  end.

(** Print the found codec infos. *)
Fixpoint print_from (fuel : nat) (p : option addr) (counter : nat) : M unit :=
  match p with
  | None => ret tt
  | Some a =>
      match fuel with
      | 0 => stuck
      | S fuel' =>
          n <- load_node a ;;
          i <- deref (codec_info n) ;;
          SAIL_LOG_DEBUG "%d. %s [%s] %s"
            [ArgInt counter; ArgStr (ci_name i); ArgStr (ci_description i);
             ArgStr (ci_version i)] ;;
          print_from fuel' (next n) (S counter)
      end
  end.

(** Initializes the context and loads all the codec info files if the
    context is not initialized. *)
Definition init_context (context : option addr) (flags : Z) : M unit :=
  c <- SAIL_CHECK_CONTEXT_PTR context ;;
  x <- load_context c ;;
  if initialized x then ret tt
  else
    store_context c {| initialized := true; codec_info_node := codec_info_node x |} ;;
    SAIL_LOG_INFO "Version %s" [ArgStr (SAIL_VERSION_STRING w)] ;;
    (* Our own codecs. *)
    our_codecs_path <- sail_codecs_path ;;
    update_lib_path our_codecs_path ;;
    (* Client codecs. *)
    their_codecs_path <- client_codecs_path ;;
    (if their_codecs_path is Some _ then update_lib_path their_codecs_path else ret tt) ;;
    (* Used to load and store codec info objects. *)
    foldM (scan_path c) [our_codecs_path; their_codecs_path] SlotHead ;;
    (if negb (Z.land flags (SAIL_FLAG_PRELOAD_CODECS w) =? 0)%Z then
       SAIL_LOG_DEBUG "Preloading codecs" [] ;;
       x <- load_context c ;;
       s <- get ;;
       preload_from (size (nodes s)) (codec_info_node x)
     else ret tt) ;;
    SAIL_LOG_DEBUG "Enumerated codecs:" [] ;;
    x <- load_context c ;;
    s <- get ;;
    print_from (size (nodes s)) (codec_info_node x) 1 ;;
    SAIL_LOG_DEBUG "Initialized in %lu ms." [ArgSys].

(** *** Public functions *)

(** [context] is the [struct sail_context **] argument: [None] for a
    NULL pointer, [Some v] for a pointer to a cell that holds [v]. The
    result is the cell after the call. *)
Definition control_tls_context (context : option (option addr)) (action : SailContextAction)
    : M (option (option addr)) :=
  match action with
  | SAIL_CONTEXT_ALLOCATE =>
      SAIL_CHECK_CONTEXT_PTR context ;;
      s <- get ;;
      (if tls_context s is None then
         c <- alloc_context ;;
         modify (set_tls_context (Some c)) ;;
         SAIL_LOG_DEBUG "Allocated a new thread-local context %p" [ArgPtr (Some c)]
       else ret tt) ;;
      s' <- get ;;
      ret (Some (tls_context s'))
  | SAIL_CONTEXT_FETCH =>
      deref context ;;
      s <- get ;;
      ret (Some (tls_context s))
  | SAIL_CONTEXT_DESTROY =>
      s <- get ;;
      SAIL_LOG_DEBUG "Destroyed the thread-local context %p" [ArgPtr (tls_context s)] ;;
      destroy_context (tls_context s) ;;
      modify (set_tls_context None) ;;
      ret context
  end.

Definition current_tls_context_with_flags (context : option (option addr)) (flags : Z)
    : M (option (option addr)) :=
  SAIL_CHECK_CONTEXT_PTR context ;;
  context <- control_tls_context context SAIL_CONTEXT_ALLOCATE ;;
  cell <- deref context ;;
  init_context cell flags ;;
  ret context.

Definition current_tls_context (context : option (option addr)) : M (option (option addr)) :=
  current_tls_context_with_flags context 0.

End Context_private.


(** * Specification vocabulary *)

Local Open Scope nat_scope.
Local Open Scope list_scope.

(** ** Frames: what a call leaves alone *)

(** The two heaps and the singleton slot are the same. *)
Definition heap_same (s s' : state) : Prop :=
  contexts s' = contexts s ∧ nodes s' = nodes s ∧ tls_context s' = tls_context s.

(** The memoized search paths are the same. *)
Definition paths_same (s s' : state) : Prop :=
  sail_codecs_path_static s' = sail_codecs_path_static s ∧
  client_codecs_path_static s' = client_codecs_path_static s.

(** The log only grows. *)
Definition log_grows (s s' : state) : Prop := log s `prefix_of` log s'.


(** [chain h p l]: following [next] from [p] in the node heap [h] visits
    exactly the nodes at the addresses of [l], each holding the
    descriptor paired with it, and then reaches NULL. *)
Fixpoint chain (h : gmap addr sail_codec_info_node) (p : option addr)
    (l : list (addr * sail_codec_info)) : Prop :=
  match l with
  | [] => p = None
  | (a, i) :: l' =>
      p = Some a ∧
      ∃ n, h !! a = Some n ∧ codec_info n = Some i ∧ chain h (next n) l'
  end.

(** The registry of context [c]: the context is marked initialized and
    its chain reads [l]. *)
Definition registry (s : state) (c : addr) (l : list (addr * sail_codec_info)) : Prop :=
  ∃ x, contexts s !! c = Some x ∧ initialized x = true ∧
       chain (nodes s) (codec_info_node x) l.

(** The slot that the next descriptor goes through. *)
Definition last_slot (l : list (addr * sail_codec_info)) : slot :=
  match last l with
  | None => SlotHead
  | Some (a, _) => SlotNext a
  end.


(** Unfolds the monad and the primitive operations. *)
Ltac munfold :=
  unfold SAIL_LOG_AND_RETURN, SAIL_LOG_ERROR, SAIL_LOG_INFO, SAIL_LOG_DEBUG, sail_log,
    SAIL_CHECK_CONTEXT_PTR, getenv, setenv, sail_concat, sail_strdup, sail_strdup_length,
    sail_to_wchar, sail_malloc, set_sail_env, set_client_env,
    store_node, store_context, load_node, load_context,
    deref, bind, ret, fail, stuck, try, get, modify in *.


(** ** Directory entries and their descriptors *)

Definition path_separator (w : world) : string :=
  match platform w with
  | WIN32 => "\"
  | POSIX => "/"
  end.

(** The path [build_full_path] builds for an entry. *)
Definition full_path_of (w : world) (dir name : string) : string :=
  dir +:+ path_separator w +:+ name.

(** The module path of a metadata file: the text before the first
    ".codec.info", a dot and the platform's module suffix. *)
Definition module_path_of (w : world) (full : string) : option string :=
  off ← strstr full ".codec.info";
  Some (str_take off full +:+ "." +:+ LIB_SUFFIX w).

(** The descriptor registered for a metadata file: what the parser reads
    from it, with the module path filled in. *)
Definition descriptor_of (w : world) (full : string) : option sail_codec_info :=
  match module_path_of w full, codec_read_info w full with
  | Some p, Ok i => Some (set_ci_path (Some p) i)
  | _, _ => None
  end.

(** What can happen to one directory entry during the walk. *)
Inductive entry_class :=
  | Valid (d : sail_codec_info)   (* a descriptor is appended *)
  | PathBuildFailed               (* the full path or the module path could not be built *)
  | NotRegularFile
  | WrongSuffix                   (* no ".codec.info" in the path *)
  | NodeAllocFailed
  | ParseFailed (e : sail_error).

(** The causes a class can have. This relation does not say which
    allocation request failed; the verdict on an entry in a given walk
    is [entry_outcome], further down. *)
Inductive classifies (w : world) (dir name : string) : entry_class → Prop :=
  | class_valid d :
      (platform w = POSIX → sail_is_file w (full_path_of w dir name) = true) →
      descriptor_of w (full_path_of w dir name) = Some d →
      classifies w dir name (Valid d)
  | class_path_build k :
      malloc_ok w k = false →
      classifies w dir name PathBuildFailed
  | class_not_file :
      platform w = POSIX →
      sail_is_file w (full_path_of w dir name) = false →
      classifies w dir name NotRegularFile
  | class_wrong_suffix :
      strstr (full_path_of w dir name) ".codec.info" = None →
      classifies w dir name WrongSuffix
  | class_node_alloc k :
      malloc_ok w k = false →
      classifies w dir name NodeAllocFailed
  | class_parse e :
      strstr (full_path_of w dir name) ".codec.info" ≠ None →
      codec_read_info w (full_path_of w dir name) = Err e →
      classifies w dir name (ParseFailed e).

(** The descriptor the walk registers for an entry when no allocation
    fails: on POSIX the entry must be a regular file; the path must carry
    the suffix and the metadata must parse. *)
Definition registered_descriptor (w : world) (dir name : string) : option sail_codec_info :=
  match platform w with
  | POSIX =>
      if sail_is_file w (full_path_of w dir name)
      then descriptor_of w (full_path_of w dir name)
      else None
  | WIN32 => descriptor_of w (full_path_of w dir name)
  end.

Definition valid_descriptor (cl : entry_class) : option sail_codec_info :=
  match cl with
  | Valid d => Some d
  | _ => None
  end.

(** The descriptors of the valid entries, in order. *)
Definition descriptors (cls : list entry_class) : list sail_codec_info :=
  omap valid_descriptor cls.

Definition is_malformed (cl : entry_class) : bool :=
  match cl with
  | Valid _ => false
  | _ => true
  end.

(** The entries the walk of a search path visits: none for a path that
    is not configured or cannot be listed. *)
Definition dir_entries (w : world) (codecs_path : option string) : list string :=
  match codecs_path with
  | None => []
  | Some dir =>
      match platform w with
      | POSIX => default [] (opendir w dir)
      | WIN32 =>
          match FindFirstFile w (dir +:+ "\*.codec.info") with
          | Some (first, others) => first :: others
          | None => []
          end
      end
  end.

(** The node [build_codec_from_codec_info] leaves in the heap. *)
Definition descriptor_node (d : sail_codec_info) : sail_codec_info_node :=
  {| codec_info := Some d; codec := None; next := None |}.

(** The context is there and marked initialized. *)
Definition marked (s : state) (c : addr) : Prop :=
  ∃ x, contexts s !! c = Some x ∧ initialized x = true.

(** What a walk over the entries [names] of [dir] has done when it
    returns [r] in [s'], started in [s] with the registry [l]: every
    entry has a class, and the registry grew at its end by exactly the
    descriptors of the valid ones, in order. *)
Definition walk_post (w : world) (c : addr) (dir : string) (names : list string)
    (l : list (addr * sail_codec_info)) (s : state) (r : result slot) (s' : state) : Prop :=
  tls_context s' = tls_context s ∧ paths_same s s' ∧ log_grows s s' ∧
  ∃ cls new,
    r = Ok (last_slot (l ++ new)) ∧
    Forall2 (classifies w dir) names cls ∧
    registry s' c (l ++ new) ∧
    new.*2 = descriptors cls.

(** What the walk of one search path has done when it returns [Ok]. *)
Definition scan_post (w : world) (c : addr) (codecs_path : option string)
    (l : list (addr * sail_codec_info)) (s : state) (r : result slot) (s' : state) : Prop :=
  walk_post w c (default "" codecs_path) (dir_entries w codecs_path) l s r s'.

(** The record of a directory that could not be listed (POSIX). *)
Definition list_dir_error_record (codecs_path : string) : log_record :=
  {| log_lvl := LOG_ERROR; log_fmt := "Failed to list files in '%s': %s";
     log_args := [ArgStr codecs_path; ArgSys] |}.

(** The primary search path, once resolved, is never NULL. *)
Definition paths_ok (s : state) : Prop :=
  codecs_path_called (sail_codecs_path_static s) = true →
  env (sail_codecs_path_static s) ≠ None.

(** Every node is still there with the same descriptor and the same
    successor (its loaded module may differ). *)
Definition nodes_similar (h h' : gmap addr sail_codec_info_node) : Prop :=
  ∀ a n, h !! a = Some n →
         ∃ n', h' !! a = Some n' ∧ codec_info n' = codec_info n ∧ next n' = next n.

(** Every context is still there with the same [initialized] flag. *)
Definition flags_kept (s s' : state) : Prop :=
  ∀ c x, contexts s !! c = Some x →
         ∃ x', contexts s' !! c = Some x' ∧ initialized x' = initialized x.

(** [m] keeps the state property [P] whenever it returns. *)
Definition preserves {A} (P : state → Prop) (m : M A) : Prop :=
  ∀ s, P s → match m s with Done _ s' => P s' | Stuck => True end.

(** A state property that only looks at the context heap. *)
Definition on_contexts (P : state → Prop) : Prop :=
  ∀ s s', contexts s' = contexts s → P s → P s'.

(** The tail of [init_context] that follows the walk of the search
    paths: the optional preload, the listing, the timing line. *)
Definition init_finish (w : world) (c : addr) (flags : Z) : M unit :=
  (if negb (Z.land flags (SAIL_FLAG_PRELOAD_CODECS w) =? 0)%Z then
     SAIL_LOG_DEBUG "Preloading codecs" [] ;;
     x <- load_context c ;;
     s <- get ;;
     preload_from w (size (nodes s)) (codec_info_node x)
   else ret tt) ;;
  SAIL_LOG_DEBUG "Enumerated codecs:" [] ;;
  x <- load_context c ;;
  s <- get ;;
  print_from (size (nodes s)) (codec_info_node x) 1 ;;
  SAIL_LOG_DEBUG "Initialized in %lu ms." [ArgSys].

(** The state once [init_context] has set the flag and logged the
    version, before any path is resolved. *)
Definition init_mark (w : world) (c : addr) (s : state) : state :=
  set_log (λ l, l ++ [ {| log_lvl := LOG_INFO; log_fmt := "Version %s";
                          log_args := [ArgStr (SAIL_VERSION_STRING w)] |} ])
    (set_contexts (insert c {| initialized := true; codec_info_node := None |}) s).

(** A context as [alloc_context] leaves it. *)
Definition fresh_context : sail_context :=
  {| initialized := false; codec_info_node := None |}.

(** ** Failures of the loader path extension during [init_context] *)

(** [update_lib_path] fails with [e] on the primary path, in state [s']. *)
Definition primary_update_fails (w : world) (c : addr) (s : state)
    (e : sail_error) (s' : state) : Prop :=
  ∃ our s1,
    sail_codecs_path w (init_mark w c s) = Done (Ok our) s1 ∧
    update_lib_path w our s1 = Done (Err e) s'.

(** [update_lib_path] succeeds on the primary path and fails with [e] on
    the secondary path [p], in state [s']. *)
Definition secondary_update_fails (w : world) (c : addr) (s : state)
    (p : string) (e : sail_error) (s' : state) : Prop :=
  ∃ our s1 s2 s3,
    sail_codecs_path w (init_mark w c s) = Done (Ok our) s1 ∧
    update_lib_path w our s1 = Done (Ok tt) s2 ∧
    client_codecs_path s2 = Done (Ok (Some p)) s3 ∧
    update_lib_path w (Some p) s3 = Done (Err e) s'.

(** The behaviour of the specification for a failure on the secondary
    path: initialization goes on and returns [SAIL_OK], the registry
    holding what the primary path gave. *)
Definition secondary_failure_tolerated (w : world) (c : addr) (flags : Z) (s : state) : Prop :=
  ∀ p e s4,
    secondary_update_fails w c s p e s4 →
    ∃ s' our cls l,
      init_context w (Some c) flags s = Done (Ok tt) s' ∧
      env (sail_codecs_path_static s') = Some our ∧
      Forall2 (classifies w our) (dir_entries w (Some our)) cls ∧
      registry s' c l ∧ l.*2 = descriptors cls.

(** The singleton, if there is one, is an allocated context whose chain
    reaches NULL. *)
Definition singleton_ok (s : state) : Prop :=
  ∀ c, tls_context s = Some c →
       ∃ x l, contexts s !! c = Some x ∧ chain (nodes s) (codec_info_node x) l.

(** ** Reading a registry back *)

(** The chain from [p], as the list [chain] describes; [None] when a
    node is missing, has no descriptor, or the fuel runs out. *)
Fixpoint read_chain (fuel : nat) (h : gmap addr sail_codec_info_node) (p : option addr)
    : option (list (addr * sail_codec_info)) :=
  match p with
  | None => Some []
  | Some a =>
      match fuel with
      | 0 => None
      | S fuel' =>
          n ← h !! a;
          i ← codec_info n;
          l ← read_chain fuel' h (next n);
          Some ((a, i) :: l)
      end
  end.

Definition read_registry (s : state) (c : addr) : option (list (addr * sail_codec_info)) :=
  x ← contexts s !! c;
  if initialized x then read_chain (size (nodes s)) (nodes s) (codec_info_node x) else None.

(** The state a run ends in ([d] if it does not end). *)
Definition final_state {A} (o : outcome A) (d : state) : state :=
  match o with
  | Done _ s => s
  | Stuck => d
  end.

(** ** Example worlds *)

(** Metadata that parses, named after its file. *)
Definition example_info (full : string) : sail_codec_info :=
  {| ci_path := None; ci_version := "1.0.0"; ci_name := full; ci_description := "" |}.

(** A POSIX installation: "/x" holds two parsable metadata files (one
    with a ".bak" behind the suffix), a subdirectory, a file without the
    suffix and a metadata file that does not parse. *)
Definition posix_world : world :=
  {| platform := POSIX;
     SAIL_VCPKG_PORT := false;
     SAIL_CODECS_PATH := "/x";
     SAIL_VERSION_STRING := "0.9.0";
     SAIL_FLAG_PRELOAD_CODECS := 1;
     malloc_ok := λ _, true;
     sail_is_dir := λ _, false;
     sail_is_file := λ p, negb (bool_decide (p ∈ ["/x/."; "/x/.."; "/x/sub"]));
     opendir := λ p,
       if bool_decide (p = "/x")
       then Some ["."; ".."; "jpeg.codec.info"; "sub"; "readme.txt";
                  "bad.codec.info"; "jpeg.codec.info.bak"]
       else None;
     FindFirstFile := λ _, None;
     no_more_files := λ _, true;
     codec_read_info := λ p,
       if bool_decide (p = "/x/bad.codec.info") then Err (SAIL_ERROR_OTHER 7)
       else Ok (example_info p);
     setenv_ok := λ _ _, true;
     AddDllDirectory := λ _, true;
     GetModuleFileName := ModuleHandleFailed;
     load_module := λ _, Some 5 |}.

(** Nothing resolved, nothing allocated. *)
Definition initial_state : state :=
  {| environ := ∅;
     sail_codecs_path_static := {| codecs_path_called := false; env := None |};
     client_codecs_path_static := {| codecs_path_called := false; env := None |};
     tls_context := None; contexts := ∅; nodes := ∅;
     dll_directories := []; mallocs := 0; log := [] |}.

(** The singleton has been allocated at address 0 and not initialized. *)
Definition ready_state (environment : gmap string string) : state :=
  {| environ := environment;
     sail_codecs_path_static := {| codecs_path_called := false; env := None |};
     client_codecs_path_static := {| codecs_path_called := false; env := None |};
     tls_context := Some 0; contexts := {[ 0 := fresh_context ]}; nodes := ∅;
     dll_directories := []; mallocs := 1; log := [] |}.

(** Its context is marked initialized, its registry empty. *)
Definition marked_state : state :=
  set_contexts (insert 0 {| initialized := true; codec_info_node := None |})
    (ready_state ∅).

Definition posix_initialized : state :=
  final_state (init_context posix_world (Some 0) 1 (ready_state ∅)) (ready_state ∅).

(** "/x" as above; the user's path "/y" has a "lib" directory, and
    [setenv] fails. *)
Definition setenv_failing_world : world :=
  {| platform := POSIX;
     SAIL_VCPKG_PORT := false;
     SAIL_CODECS_PATH := "/x";
     SAIL_VERSION_STRING := "0.9.0";
     SAIL_FLAG_PRELOAD_CODECS := 1;
     malloc_ok := λ _, true;
     sail_is_dir := λ p, bool_decide (p = "/y/lib");
     sail_is_file := sail_is_file posix_world;
     opendir := opendir posix_world;
     FindFirstFile := λ _, None;
     no_more_files := λ _, true;
     codec_read_info := codec_read_info posix_world;
     setenv_ok := λ _ _, false;
     AddDllDirectory := λ _, true;
     GetModuleFileName := ModuleHandleFailed;
     load_module := λ _, Some 5 |}.

Definition user_path_environment : gmap string string :=
  {[ "SAIL_MY_CODECS_PATH" := "/y" ]}.

Definition setenv_failed : state :=
  final_state (init_context setenv_failing_world (Some 0) 0 (ready_state user_path_environment))
    (ready_state user_path_environment).

(** A POSIX installation whose primary path cannot be listed; the user's
    path "/y" holds one parsable metadata file. *)
Definition posix_unlistable_world : world :=
  {| platform := POSIX;
     SAIL_VCPKG_PORT := false;
     SAIL_CODECS_PATH := "/x";
     SAIL_VERSION_STRING := "0.9.0";
     SAIL_FLAG_PRELOAD_CODECS := 1;
     malloc_ok := λ _, true;
     sail_is_dir := λ _, false;
     sail_is_file := λ _, true;
     opendir := λ p, if bool_decide (p = "/y") then Some ["png.codec.info"] else None;
     FindFirstFile := λ _, None;
     no_more_files := λ _, true;
     codec_read_info := λ p, Ok (example_info p);
     setenv_ok := λ _ _, true;
     AddDllDirectory := λ _, true;
     GetModuleFileName := ModuleHandleFailed;
     load_module := λ _, Some 5 |}.

(** The same installation on Windows: [FindFirstFile] fails on the mask
    of the primary path "C:\sail" and finds "png.codec.info" under the
    user's path "D:\mine". *)
Definition win32_unlistable_world : world :=
  {| platform := WIN32;
     SAIL_VCPKG_PORT := false;
     SAIL_CODECS_PATH := "C:\sail";
     SAIL_VERSION_STRING := "0.9.0";
     SAIL_FLAG_PRELOAD_CODECS := 1;
     malloc_ok := λ _, true;
     sail_is_dir := λ _, false;
     sail_is_file := λ _, true;
     opendir := λ _, None;
     FindFirstFile := λ mask,
       if bool_decide (mask = "D:\mine\*.codec.info") then Some ("png.codec.info", [])
       else None;
     no_more_files := λ _, true;
     codec_read_info := λ p, Ok (example_info p);
     setenv_ok := λ _ _, true;
     AddDllDirectory := λ _, true;
     GetModuleFileName := ModuleHandleFailed;
     load_module := λ _, Some 5 |}.

Definition win32_user_path_environment : gmap string string :=
  {[ "SAIL_MY_CODECS_PATH" := "D:\mine" ]}.

(** "/x" as in [posix_world], and it has a "lib" directory. *)
Definition posix_lib_world : world :=
  {| platform := POSIX;
     SAIL_VCPKG_PORT := false;
     SAIL_CODECS_PATH := "/x";
     SAIL_VERSION_STRING := "0.9.0";
     SAIL_FLAG_PRELOAD_CODECS := 1;
     malloc_ok := λ _, true;
     sail_is_dir := λ p, bool_decide (p = "/x/lib");
     sail_is_file := sail_is_file posix_world;
     opendir := opendir posix_world;
     FindFirstFile := λ _, None;
     no_more_files := λ _, true;
     codec_read_info := codec_read_info posix_world;
     setenv_ok := λ _ _, true;
     AddDllDirectory := λ _, true;
     GetModuleFileName := ModuleHandleFailed;
     load_module := λ p, if bool_decide (p = "/x/jpeg.so") then Some 5 else None |}.

(** A Windows installation: the library is "C:\sail\bin\sail.dll", the
    codecs directory next to it holds two metadata files and has a "lib"
    directory. *)
Definition win32_world : world :=
  {| platform := WIN32;
     SAIL_VCPKG_PORT := false;
     SAIL_CODECS_PATH := "C:\fallback";
     SAIL_VERSION_STRING := "0.9.0";
     SAIL_FLAG_PRELOAD_CODECS := 1;
     malloc_ok := λ _, true;
     sail_is_dir := λ p, bool_decide (p = "C:\sail\bin\..\lib\sail\codecs\lib");
     sail_is_file := λ _, true;
     opendir := λ _, None;
     FindFirstFile := λ mask,
       if bool_decide (mask = "C:\sail\bin\..\lib\sail\codecs\*.codec.info")
       then Some ("jpeg.codec.info", ["png.codec.info"])
       else None;
     no_more_files := λ _, true;
     codec_read_info := λ p, Ok (example_info p);
     setenv_ok := λ _ _, true;
     AddDllDirectory := λ _, true;
     GetModuleFileName := ModuleFileName "C:\sail\bin\sail.dll";
     load_module := λ _, Some 5 |}.

(** The library's file name cannot be had. *)
Definition win32_nameless_world : world :=
  {| platform := WIN32;
     SAIL_VCPKG_PORT := false;
     SAIL_CODECS_PATH := "C:\fallback";
     SAIL_VERSION_STRING := "0.9.0";
     SAIL_FLAG_PRELOAD_CODECS := 1;
     malloc_ok := λ _, true;
     sail_is_dir := λ _, false;
     sail_is_file := λ _, true;
     opendir := λ _, None;
     FindFirstFile := λ _, None;
     no_more_files := λ _, true;
     codec_read_info := λ p, Ok (example_info p);
     setenv_ok := λ _ _, true;
     AddDllDirectory := λ _, true;
     GetModuleFileName := ModuleFileNameFailed;
     load_module := λ _, Some 5 |}.

(** ** The loader path *)

(** The value [update_lib_path] gives LD_LIBRARY_PATH: the directory
    alone when the variable was unset, else the old value, ":" and the
    directory. *)
Definition ld_library_path_after (old : option string) (lib : string) : string :=
  match old with
  | None => lib
  | Some old => old +:+ ":" +:+ lib
  end.

(** ** Well-formed states *)

(** What the public functions keep: the primary path, once resolved, is
    not NULL; the singleton, if there is one, is an allocated context
    whose chain of descriptors reaches NULL, and is empty as long as the
    context is not initialized. *)
Definition well_formed (s : state) : Prop :=
  paths_ok s ∧
  ∀ c, tls_context s = Some c →
       ∃ x l, contexts s !! c = Some x ∧
              chain (nodes s) (codec_info_node x) l ∧
              (initialized x = false → codec_info_node x = None).

(** ** Loaded modules *)

(** No node holds the handle of a loaded module. *)
Definition unloaded (s : state) : Prop :=
  ∀ a n, nodes s !! a = Some n → codec n = None.

(** ** Programs over the public functions *)

(** One call of a public function. *)
Inductive call :=
  | Control (context : option (option addr)) (action : SailContextAction)
  | Current (context : option (option addr))
  | CurrentWithFlags (context : option (option addr)) (flags : Z).

Definition run_call (w : world) (k : call) : M (option (option addr)) :=
  match k with
  | Control context action => control_tls_context w context action
  | Current context => current_tls_context w context
  | CurrentWithFlags context flags => current_tls_context_with_flags w context flags
  end.

(** The states a thread gets into through the public functions: it
    starts with nothing resolved and nothing allocated, calls them in
    any order with any arguments, and may change its environment in
    between. *)
Inductive reachable (w : world) : state → Prop :=
  | reachable_start environment :
      reachable w (set_environ (λ _, environment) initial_state)
  | reachable_call k s r s' :
      reachable w s → run_call w k s = Done r s' → reachable w s'
  | reachable_environ f s :
      reachable w s → reachable w (set_environ f s).

(** ** Example runs *)



Definition loader_environment : gmap string string :=
  {[ "LD_LIBRARY_PATH" := "/usr/lib" ]}.

Definition home_environment : gmap string string :=
  {[ "HOME" := "/root" ]}.

(** One and two calls of [update_lib_path] for "/x" on [posix_lib_world]. *)
Definition posix_lib_once : state :=
  final_state (update_lib_path posix_lib_world (Some "/x") (ready_state ∅)) initial_state.

Definition posix_lib_twice : state :=
  final_state (update_lib_path posix_lib_world (Some "/x") posix_lib_once) initial_state.

(** The singleton has just been allocated. *)
Definition posix_allocated : state :=
  final_state (control_tls_context posix_world (Some None) SAIL_CONTEXT_ALLOCATE initial_state)
    initial_state.

(** A thread has called [current_tls_context] once. *)
Definition posix_entered : state :=
  final_state (run_call posix_lib_world (Current (Some None))
                 (set_environ (λ _, home_environment) initial_state)) initial_state.

(** [init_context] on [posix_lib_world] with the preload. *)
Definition posix_preloaded : state :=
  final_state (init_context posix_lib_world (Some 0) 1 (ready_state ∅)) initial_state.

(** [init_context] on [win32_world]. *)
Definition win32_discovered : state :=
  final_state (init_context win32_world (Some 0) 0 (ready_state ∅)) initial_state.



(** [win32_world] with an allocator that always fails. *)
Definition win32_exhausted_world : world :=
  {| platform := WIN32;
     SAIL_VCPKG_PORT := false;
     SAIL_CODECS_PATH := "C:\fallback";
     SAIL_VERSION_STRING := "0.9.0";
     SAIL_FLAG_PRELOAD_CODECS := 1;
     malloc_ok := λ _, false;
     sail_is_dir := sail_is_dir win32_world;
     sail_is_file := λ _, true;
     opendir := λ _, None;
     FindFirstFile := FindFirstFile win32_world;
     no_more_files := λ _, true;
     codec_read_info := λ p, Ok (example_info p);
     setenv_ok := λ _ _, true;
     AddDllDirectory := λ _, true;
     GetModuleFileName := ModuleFileName "C:\sail\bin\sail.dll";
     load_module := λ _, Some 5 |}.

(** ** The walk, entry by entry

    The class of every entry is decided by the world and by the number
    of allocation requests made before the walk reaches it: the request
    an entry makes is the one that can fail for it. *)

(** [build_codec_from_codec_info] on [full] after [m] requests: the
    class of the entry and the number of requests after it. A path
    without the suffix asks for nothing; the module path is the first
    request, the node the second. *)
Definition build_outcome (w : world) (full : string) (m : nat) : entry_class * nat :=
  match strstr full ".codec.info" with
  | None => (WrongSuffix, m)
  | Some _ =>
      if negb (malloc_ok w m) then (PathBuildFailed, S m)
      else if negb (malloc_ok w (S m)) then (NodeAllocFailed, S (S m))
      else
        (match codec_read_info w full with
         | Err e => ParseFailed e
         | Ok _ => from_option Valid WrongSuffix (descriptor_of w full)
         end,
         S (S m))
  end.

(** One round of the loop over the entries of [dir] after [m] requests:
    the full path is the first request; on POSIX an entry that is not a
    regular file ends the round there. *)
Definition entry_outcome (w : world) (dir name : string) (m : nat) : entry_class * nat :=
  if negb (malloc_ok w m) then (PathBuildFailed, S m)
  else
    match platform w with
    | POSIX =>
        if sail_is_file w (full_path_of w dir name)
        then build_outcome w (full_path_of w dir name) (S m)
        else (NotRegularFile, S m)
    | WIN32 => build_outcome w (full_path_of w dir name) (S m)
    end.

(** The rounds for [names], in order. *)
Fixpoint walk_outcome (w : world) (dir : string) (names : list string) (m : nat)
    : list entry_class * nat :=
  match names with
  | [] => ([], m)
  | name :: names =>
      let o := entry_outcome w dir name m in
      let os := walk_outcome w dir names o.2 in
      (o.1 :: os.1, os.2)
  end.

(** The walk of one search path after [m] requests; on Windows the mask
    is one request more. *)
Definition scan_outcome (w : world) (codecs_path : option string) (m : nat)
    : list entry_class * nat :=
  match codecs_path with
  | None => ([], m)
  | Some dir =>
      walk_outcome w dir (dir_entries w (Some dir))
        match platform w with
        | POSIX => m
        | WIN32 => S m
        end
  end.

(** The requests of [sail_codecs_path]: one, on Windows, when the path
    is derived from the file name of the library. *)
Definition path_requests (w : world) (s : state) : nat :=
  if codecs_path_called (sail_codecs_path_static s) then 0
  else
    match platform w with
    | POSIX => 0
    | WIN32 =>
        match environ s !! "SAIL_CODECS_PATH", GetModuleFileName w with
        | None, ModuleFileName path => if strrchr path "\" is Some _ then 1 else 0
        | _, _ => 0
        end
    end.

(** The "lib" directory of a search path. *)
Definition lib_directory (w : world) (codecs_path : string) : string :=
  match platform w with
  | POSIX => codecs_path +:+ "/lib"
  | WIN32 => codecs_path +:+ "\lib"
  end.

(** The requests of a successful [update_lib_path]. *)
Definition lib_path_requests (w : world) (codecs_path : string) : nat :=
  if sail_is_dir w (lib_directory w codecs_path) then 2 else 1.

(** The requests made when [init_context], started in [s], begins to
    walk the search paths [our] and [their]. *)
Definition requests_before_walk (w : world) (s : state) (our : string)
    (their : option string) : nat :=
  mallocs s + path_requests w s + lib_path_requests w our +
  from_option (lib_path_requests w) 0 their.

(** The classes of the entries of the primary and of the secondary
    path, as [init_context] started in [s] meets them. *)
Definition discovery (w : world) (s : state) (our : string) (their : option string)
    : list entry_class * list entry_class :=
  let primary := scan_outcome w (Some our) (requests_before_walk w s our their) in
  let secondary := scan_outcome w their primary.2 in
  (primary.1, secondary.1).

(** What a walk with the outcome [o] has done to the registry [l] when
    it returns [r] in [s']: the registry grew at its end by the
    descriptors of the entries classified valid, in order. *)
Definition outcome_post (c : addr) (l : list (addr * sail_codec_info))
    (o : list entry_class * nat) (r : result slot) (s' : state) : Prop :=
  ∃ new,
    r = Ok (last_slot (l ++ new)) ∧ registry s' c (l ++ new) ∧
    new.*2 = descriptors o.1 ∧ mallocs s' = o.2.

(** [posix_world] with an allocator whose request number 3 fails: in a
    walk of "/x" that starts after one request, that is the full path
    of "jpeg.codec.info". *)
Definition posix_flaky_world : world :=
  {| platform := POSIX;
     SAIL_VCPKG_PORT := false;
     SAIL_CODECS_PATH := "/x";
     SAIL_VERSION_STRING := "0.9.0";
     SAIL_FLAG_PRELOAD_CODECS := 1;
     malloc_ok := λ k, negb (k =? 3);
     sail_is_dir := λ _, false;
     sail_is_file := sail_is_file posix_world;
     opendir := opendir posix_world;
     FindFirstFile := λ _, None;
     no_more_files := λ _, true;
     codec_read_info := codec_read_info posix_world;
     setenv_ok := λ _ _, true;
     AddDllDirectory := λ _, true;
     GetModuleFileName := ModuleHandleFailed;
     load_module := λ _, Some 5 |}.

(** [init_context] on [posix_flaky_world]: there request number 3 is the
    full path of "..". *)
Definition posix_flaky_initialized : state :=
  final_state (init_context posix_flaky_world (Some 0) 0 (ready_state ∅)) initial_state.
(** * Properties *)

(** ** C strings *)

Lemma append_cons (c : ascii) (a b : string) : String c a +:+ b = String c (a +:+ b).
Proof. reflexivity. Qed.

Lemma append_nil_l (b : string) : "" +:+ b = b.
Proof. reflexivity. Qed.

Ltac str_simpl := repeat (rewrite ?append_cons, ?append_nil_l; simpl).

Lemma prefix_append (p r : string) : String.prefix p (p +:+ r) = true.
Proof.
  induction p as [|c p IH]; str_simpl.
  - by destruct r.
  - destruct (Ascii.ascii_dec c c); [done | congruence].
Qed.

Lemma prefix_split (p s : string) :
  String.prefix p s = true → ∃ r, s = p +:+ r.
Proof.
  revert s. induction p as [|c p IH]; intros [|d s] H; simpl in *; try done.
  - by exists "".
  - by exists (String d s).
  - destruct (Ascii.ascii_dec c d) as [->|]; [|done].
    destruct (IH _ H) as [r ->]. by exists r.
Qed.

Lemma str_take_drop (n : nat) (s : string) : str_take n s +:+ str_drop n s = s.
Proof.
  revert s. induction n as [|n IH]; intros [|c s]; str_simpl; try done.
  f_equal. apply IH.
Qed.

Lemma strlen_append (a b : string) : strlen (a +:+ b) = strlen a + strlen b.
Proof. induction a; str_simpl; [done | by f_equal]. Qed.

Lemma strlen_take (n : nat) (s : string) : n ≤ strlen s → strlen (str_take n s) = n.
Proof.
  revert s. induction n as [|n IH]; intros [|c s]; simpl; try done; try lia.
  intros H. f_equal. apply IH. lia.
Qed.

Lemma str_take_append (a b : string) : str_take (strlen a) (a +:+ b) = a.
Proof. induction a; str_simpl; [done | by f_equal]. Qed.

Lemma str_drop_append (a b : string) : str_drop (strlen a) (a +:+ b) = b.
Proof. induction a; str_simpl; [done | by rewrite <- IHa at 2]. Qed.

Lemma str_take_take (a b : nat) (s : string) :
  a ≤ b → str_take a (str_take b s) = str_take a s.
Proof.
  revert b s. induction a as [|a IH]; intros [|b] [|c s] H; simpl; try done; try lia.
  f_equal. apply IH. lia.
Qed.

Lemma str_take_app_more (a : string) (n : nat) (b : string) :
  str_take (strlen a + n) (a +:+ b) = a +:+ str_take n b.
Proof. induction a; str_simpl; [done | by f_equal]. Qed.

Lemma append_nil_r (a : string) : a +:+ "" = a.
Proof. induction a; str_simpl; [done | by f_equal]. Qed.

Lemma append_assoc (a b c : string) : (a +:+ b) +:+ c = a +:+ (b +:+ c).
Proof. induction a; str_simpl; [done | by f_equal]. Qed.

(** [strstr] finds an occurrence: the haystack splits at the offset. *)
Lemma strstr_Some (h n : string) (i : nat) :
  strstr h n = Some i →
  ∃ r, h = str_take i h +:+ n +:+ r ∧ strlen (str_take i h) = i.
Proof.
  revert i. induction h as [|c h IH]; intros i; cbn [strstr].
  - destruct (String.prefix n "") eqn:Hp; [|done].
    intros [= <-]. destruct (prefix_split _ _ Hp) as [r Hr].
    exists r. split; [exact Hr | done].
  - destruct (String.prefix n (String c h)) eqn:Hp.
    + intros [= <-]. destruct (prefix_split _ _ Hp) as [r Hr].
      exists r. split; [exact Hr | done].
    + destruct (strstr h n) as [j|] eqn:Hj; [|done]. cbn [fmap option_fmap option_map].
      intros [= <-]. destruct (IH j eq_refl) as (r & Hr & Hl).
      exists r. cbn [str_take]. rewrite append_cons.
      split; [by rewrite <- Hr | unfold strlen in *; cbn [String.length]; by rewrite Hl].
Qed.

(** ... and it is the first one. *)
Lemma strstr_first (h n : string) (i j : nat) :
  strstr h n = Some i → j < i → String.prefix n (str_drop j h) = false.
Proof.
  revert i j. induction h as [|c h IH]; intros i j; cbn [strstr].
  - destruct (String.prefix n ""); [intros [= <-]; lia | done].
  - destruct (String.prefix n (String c h)) eqn:Hp; [intros [= <-]; lia|].
    destruct (strstr h n) as [k|] eqn:Hk; [|done]. cbn [fmap option_fmap option_map].
    intros [= <-] Hj.
    destruct j as [|j]; [done|]. cbn [str_drop]. apply (IH k); [done | lia].
Qed.

(** A NULL result: the needle occurs nowhere. *)
Lemma strstr_None (h n : string) :
  strstr h n = None → ∀ a b, h ≠ a +:+ n +:+ b.
Proof.
  induction h as [|c h IH]; cbn [strstr].
  - destruct (String.prefix n "") eqn:Hp; [done|]. intros _ a b Hab.
    destruct a as [|d a]; [|done]. rewrite append_nil_l in Hab.
    rewrite Hab in Hp. by rewrite (prefix_append n b) in Hp.
  - destruct (String.prefix n (String c h)) eqn:Hp; [done|].
    destruct (strstr h n) eqn:Hk; [done|]. intros _ a b Hab.
    destruct a as [|d a].
    + rewrite append_nil_l in Hab. rewrite Hab in Hp. by rewrite prefix_append in Hp.
    + rewrite append_cons in Hab. injection Hab as -> Hab. by apply (IH eq_refl a b).
Qed.

Lemma strstr_occurs (a n b : string) : strstr (a +:+ n +:+ b) n ≠ None.
Proof. intros H. by apply (strstr_None _ _ H a b). Qed.

(** No occurrence starts before the offset [strstr] returns. *)
Lemma strstr_least (h n : string) (i : nat) (a b : string) :
  strstr h n = Some i → h = a +:+ n +:+ b → i ≤ strlen a.
Proof.
  intros Hi Hab. destruct (decide (i ≤ strlen a)) as [|Hlt]; [done|].
  pose proof (strstr_first h n i (strlen a) Hi ltac:(lia)) as Hp.
  by rewrite Hab, str_drop_append, prefix_append in Hp.
Qed.

(** The offset of the first occurrence, stated without [strstr]: the
    needle follows [pre], and follows no shorter prefix. *)
Lemma strstr_first_occurrence (h n pre post : string) :
  h = pre +:+ n +:+ post →
  (∀ a b, h = a +:+ n +:+ b → strlen pre ≤ strlen a) →
  strstr h n = Some (strlen pre).
Proof.
  intros Hpre Hleast. destruct (strstr h n) as [i|] eqn:Hi.
  - f_equal. destruct (strstr_Some _ _ _ Hi) as (r & Hr & Hl).
    pose proof (Hleast _ _ Hr) as H1. rewrite Hl in H1.
    pose proof (strstr_least _ _ _ _ _ Hi Hpre) as H2. lia.
  - by destruct (strstr_None _ _ Hi pre post).
Qed.

(** The length that [build_codec_from_codec_info] computes from the two
    [strlen]s is the offset of the match. *)
Lemma codec_full_path_length_offset (full : string) (off : nat) :
  strstr full ".codec.info" = Some off →
  strlen full - strlen (str_drop off full) = off.
Proof.
  intros (r & Hr & Hl)%strstr_Some.
  rewrite <- (str_take_drop off full) at 1. rewrite strlen_append. lia.
Qed.

(** The buffer after the copy and the overwrite: the text before the
    match, a dot, the suffix. *)
Lemma module_path_buffer (full suffix : string) (off : nat) :
  strstr full ".codec.info" = Some off →
  strlen suffix ≤ 10 →
  strcpy_at (str_take (off + strlen suffix + 1) full) (off + 1) suffix
  = str_take off full +:+ "." +:+ suffix.
Proof.
  intros (r & Hr & Hl)%strstr_Some Hs. unfold strcpy_at.
  rewrite str_take_take by lia.
  rewrite <- append_assoc. f_equal.
  rewrite Hr at 1. rewrite <- Hl at 1. rewrite str_take_app_more. done.
Qed.

(** ** Frames *)

Lemma heap_same_refl s : heap_same s s.
Proof. by repeat split. Qed.

Lemma heap_same_trans s1 s2 s3 : heap_same s1 s2 → heap_same s2 s3 → heap_same s1 s3.
Proof. intros (?&?&?) (?&?&?). repeat split; congruence. Qed.

Lemma paths_same_refl s : paths_same s s.
Proof. by split. Qed.

Lemma paths_same_trans s1 s2 s3 : paths_same s1 s2 → paths_same s2 s3 → paths_same s1 s3.
Proof. intros (?&?) (?&?). split; congruence. Qed.

Lemma log_grows_refl s : log_grows s s.
Proof. unfold log_grows. reflexivity. Qed.

Lemma log_grows_trans s1 s2 s3 : log_grows s1 s2 → log_grows s2 s3 → log_grows s1 s3.
Proof. unfold log_grows. by etrans. Qed.

(** Closes the frame goals left after a function has been run on all its
    paths. *)
Ltac frame_solve :=
  repeat match goal with
         | |- _ ∧ _ => split
         | |- heap_same _ _ => by repeat split
         | |- paths_same _ _ => by repeat split
         | |- log_grows _ _ =>
             unfold log_grows in *; simpl;
             repeat apply prefix_app_r; first [reflexivity | assumption]
         | |- _ => done
         | |- _ => by eauto
         end.

Section Frames.

Variable w : world.

Lemma sail_malloc_run s :
  sail_malloc w s =
  Done (if malloc_ok w (mallocs s) then Ok tt else Err SAIL_ERROR_MEMORY_ALLOCATION)
       (set_mallocs S s).
Proof. munfold. by destruct (malloc_ok w (mallocs s)). Qed.

(** [update_lib_path] returns; it touches the environment, the DLL
    directories, the allocation count and the log only; its errors are
    the two below. *)
Lemma update_lib_path_spec (p : string) s :
  match update_lib_path w (Some p) s with
  | Stuck => False
  | Done r s' =>
      heap_same s s' ∧ paths_same s s' ∧ log_grows s s' ∧
      (r = Ok tt ∨ r = Err SAIL_ERROR_MEMORY_ALLOCATION ∨ r = Err SAIL_ERROR_ENV_UPDATE)
  end.
Proof.
  unfold update_lib_path. munfold.
  repeat (case_match; simplify_eq/=); frame_solve.
Qed.

End Frames.

(** ** The registry chain *)

Section Chain.

Implicit Types (h : gmap addr sail_codec_info_node) (p : option addr).
Implicit Types (l : list (addr * sail_codec_info)).

Lemma chain_func h p l1 l2 : chain h p l1 → chain h p l2 → l1 = l2.
Proof.
  revert p l2. induction l1 as [|[a i] l1 IH]; intros p [|[b j] l2]; simpl.
  - done.
  - intros -> [? _]. done.
  - intros [-> _] ?. done.
  - intros [-> (n & Hn & Hi & Hc)] [[= <-] (n' & Hn' & Hi' & Hc')].
    simplify_eq. f_equal. by eapply IH.
Qed.

Lemma chain_app_inv h p l1 l2 : chain h p (l1 ++ l2) → ∃ q, chain h q l2.
Proof.
  revert p. induction l1 as [|[a i] l1 IH]; intros p; simpl.
  - intros H. by exists p.
  - intros [_ (n & _ & _ & Hc)]. by eapply IH.
Qed.

Lemma chain_dom h p l a : chain h p l → a ∈ l.*1 → a ∈ dom h.
Proof.
  revert p. induction l as [|[b i] l IH]; intros p; simpl.
  - intros _ H. by apply elem_of_nil in H.
  - intros [_ (n & Hn & _ & Hc)] [->|H]%elem_of_cons.
    + apply elem_of_dom. eauto.
    + by eapply IH.
Qed.

(** A chain that reaches NULL visits no node twice: the registry is
    acyclic. *)
Lemma chain_NoDup h p l : chain h p l → NoDup l.*1.
Proof.
  revert p. induction l as [|[a i] l IH]; intros p; simpl.
  - intros _. constructor.
  - intros [-> (n & Hn & Hi & Hc)]. constructor; [|by eapply IH].
    intros Hin. apply list_elem_of_fmap in Hin as ([a' i'] & Ha & Hin). simpl in Ha. subst a'.
    apply list_elem_of_split in Hin as (l1 & l2 & ->).
    destruct (chain_app_inv _ _ _ _ Hc) as [q Hq].
    assert (Hfull : chain h (Some a) ((a, i) :: l1 ++ (a, i') :: l2)).
    { simpl. split; [done|]. eauto. }
    assert (q = Some a) as -> by (simpl in Hq; tauto).
    pose proof (chain_func _ _ _ _ Hfull Hq) as Heq.
    apply (f_equal length) in Heq. simpl in Heq. rewrite length_app in Heq. simpl in Heq. lia.
Qed.

(** Nodes outside the chain, and the [codec] field of the nodes in it,
    do not matter. *)
Lemma chain_preserved h h' p l :
  (∀ a n, a ∈ l.*1 → h !! a = Some n →
          ∃ n', h' !! a = Some n' ∧ codec_info n' = codec_info n ∧ next n' = next n) →
  chain h p l → chain h' p l.
Proof.
  revert p. induction l as [|[a i] l IH]; intros p Hh; simpl; [done|].
  intros [-> (n & Hn & Hi & Hc)]. split; [done|].
  destruct (Hh a n) as (n' & Hn' & Hi' & Hx'); [simpl; left | done |].
  exists n'. split_and!; [done | congruence |]. rewrite Hx'. apply IH; [|done].
  intros b m Hb. apply Hh. simpl. by right.
Qed.

Lemma chain_frame h h' p l :
  (∀ a, a ∈ l.*1 → h' !! a = h !! a) → chain h p l → chain h' p l.
Proof.
  intros Hh. apply chain_preserved. intros a n Ha Hn. exists n. by rewrite Hh.
Qed.

Lemma chain_last_lookup h p l b ib :
  chain h p (l ++ [(b, ib)]) →
  ∃ nb, h !! b = Some nb ∧ codec_info nb = Some ib ∧ next nb = None.
Proof.
  revert p. induction l as [|[a i] l IH]; intros p; simpl.
  - intros [_ (n & Hn & Hi & Hc)]. eauto.
  - intros [_ (n & _ & _ & Hc)]. by eapply IH.
Qed.

(** Appending: a fresh node is linked behind the last one. *)
Lemma chain_snoc h p l b ib nb a i :
  chain h p (l ++ [(b, ib)]) →
  h !! a = None →
  h !! b = Some nb →
  chain (<[b := {| codec_info := codec_info nb; codec := codec nb; next := Some a |}]>
           (<[a := {| codec_info := Some i; codec := None; next := None |}]> h))
        p (l ++ [(b, ib); (a, i)]).
Proof.
  intros Hc Ha Hb.
  assert (a ≠ b) as Hab by congruence.
  pose proof (chain_NoDup _ _ _ Hc) as Hnd.
  revert p Hc Hnd. induction l as [|[x ix] l IH]; intros p; simpl.
  - intros [-> (n & Hn & Hi & Hnext)] _. simplify_eq.
    split; [done|]. eexists. split; [apply lookup_insert_eq|]. simpl.
    split; [done|]. split; [done|]. eexists.
    split; [rewrite lookup_insert_ne by done; apply lookup_insert_eq | done].
  - intros [-> (n & Hn & Hi & Hnext)] Hnd. apply NoDup_cons in Hnd as [Hx Hnd].
    split; [done|]. exists n. split_and!; [|done|by apply IH].
    rewrite fmap_app in Hx. simpl in Hx.
    rewrite !lookup_insert_ne; [done|congruence|].
    intros ->. apply Hx. apply elem_of_app. right. by left.
Qed.

Lemma chain_singleton h a i :
  chain (<[a := {| codec_info := Some i; codec := None; next := None |}]> h)
        (Some a) [(a, i)].
Proof. simpl. split; [done|]. eexists. split; [apply lookup_insert_eq|done]. Qed.

Lemma chain_length h p l : chain h p l → length l ≤ size h.
Proof.
  intros Hc. pose proof (chain_NoDup _ _ _ Hc) as Hnd.
  rewrite <- (length_fmap fst l), <- size_dom.
  rewrite <- (size_list_to_set (C := gset addr) (l.*1)) by done.
  apply subseteq_size. intros a Ha%elem_of_list_to_set. by eapply chain_dom.
Qed.

Lemma last_slot_nil : last_slot [] = SlotHead.
Proof. done. Qed.

Lemma last_slot_snoc l a i : last_slot (l ++ [(a, i)]) = SlotNext a.
Proof. unfold last_slot. by rewrite last_snoc. Qed.

End Chain.

(** ** Building one descriptor *)

Section Build.

Variable w : world.

Lemma LIB_SUFFIX_length : strlen (LIB_SUFFIX w) ≤ 10.
Proof. unfold LIB_SUFFIX. destruct (platform w); simpl; lia. Qed.

Lemma build_full_path_run dir name s :
  build_full_path w dir name s =
  Done (if malloc_ok w (mallocs s) then Ok (full_path_of w dir name)
        else Err SAIL_ERROR_MEMORY_ALLOCATION)
       (set_mallocs S s).
Proof.
  unfold build_full_path, full_path_of, path_separator. munfold.
  destruct (platform w), (malloc_ok w (mallocs s)); simpl; try done.
  all: by rewrite append_nil_r.
Qed.

Lemma fresh_node_None (h : gmap addr sail_codec_info_node) : h !! fresh (dom h) = None.
Proof. apply not_elem_of_dom, is_fresh. Qed.

Lemma module_path_of_Some full off :
  strstr full ".codec.info" = Some off →
  module_path_of w full =
  Some (strcpy_at
          (str_take (strlen full - strlen (str_drop off full) + strlen (LIB_SUFFIX w) + 1) full)
          (strlen full - strlen (str_drop off full) + 1) (LIB_SUFFIX w)).
Proof.
  intros H. unfold module_path_of. rewrite H. simpl. f_equal.
  rewrite (codec_full_path_length_offset _ _ H).
  symmetry. apply module_path_buffer; [done | apply LIB_SUFFIX_length].
Qed.

(** [build_codec_from_codec_info] returns. On success a fresh node holds
    the descriptor of the file; on failure the node heap is as before,
    and the cause is one of four. *)
Lemma build_codec_from_codec_info_spec full s :
  match build_codec_from_codec_info w full s with
  | Stuck => False
  | Done r s' =>
      contexts s' = contexts s ∧ tls_context s' = tls_context s ∧
      paths_same s s' ∧ log_grows s s' ∧
      match r with
      | Ok a =>
          nodes s !! a = None ∧
          malloc_ok w (mallocs s) = true ∧ malloc_ok w (S (mallocs s)) = true ∧
          ∃ d, descriptor_of w full = Some d ∧
               nodes s' = <[a := descriptor_node d]> (nodes s)
      | Err e =>
          nodes s' = nodes s ∧
          ((strstr full ".codec.info" = None ∧ e = SAIL_ERROR_MEMORY_ALLOCATION) ∨
           (strstr full ".codec.info" ≠ None ∧
            ((malloc_ok w (mallocs s) = false ∧ e = SAIL_ERROR_MEMORY_ALLOCATION) ∨
             (malloc_ok w (mallocs s) = true ∧ malloc_ok w (S (mallocs s)) = false ∧
              e = SAIL_ERROR_MEMORY_ALLOCATION) ∨
             (malloc_ok w (mallocs s) = true ∧ malloc_ok w (S (mallocs s)) = true ∧
              codec_read_info w full = Err e))))
      end
  end.
Proof.
  unfold build_codec_from_codec_info.
  destruct (strstr full ".codec.info") as [off|] eqn:Hoff.
  2: { munfold. simpl. frame_solve. }
  pose proof (module_path_of_Some _ _ Hoff) as Hmp.
  unfold descriptor_of. rewrite Hmp. clear Hmp.
  unfold alloc_codec_info_node, destroy_codec_info_node. munfold. simpl.
  destruct (malloc_ok w (mallocs s)) eqn:Hm1; simpl.
  2: { frame_solve; naive_solver. }
  destruct (malloc_ok w (S (mallocs s))) eqn:Hm2; simpl.
  2: { frame_solve; naive_solver. }
  pose proof (fresh_node_None (nodes s)) as Hfresh.
  destruct (codec_read_info w full) as [i|e] eqn:Hread; simpl.
  - rewrite !lookup_insert_eq. simpl. rewrite ?lookup_insert_eq. simpl. frame_solve.
    eexists. split; [done|]. by rewrite insert_insert_eq.
  - rewrite !lookup_insert_eq. simpl. frame_solve; try naive_solver.
    by rewrite delete_insert_id.
Qed.

End Build.

(** ** One directory entry *)

Section Entry.

Variable w : world.

Lemma list_snoc_cases {A} (l : list A) : l = [] ∨ ∃ l0 x, l = l0 ++ [x].
Proof. destruct l as [|x l] using rev_ind; [by left | right; eauto]. Qed.

(** Storing a freshly built node through the current slot appends it to
    the registry. *)
Lemma store_slot_append c l s s' a d :
  registry s c l →
  nodes s !! a = None →
  contexts s' = contexts s →
  nodes s' = <[a := descriptor_node d]> (nodes s) →
  ∃ s'', store_slot c (last_slot l) (Some a) s' = Done (Ok tt) s'' ∧
         registry s'' c (l ++ [(a, d)]) ∧
         tls_context s'' = tls_context s' ∧ paths_same s' s'' ∧ log s'' = log s'.
Proof.
  intros (x & Hx & Hinit & Hc) Ha Hctx Hnodes.
  destruct (list_snoc_cases l) as [->|(l0 & [b ib] & ->)].
  - rewrite last_slot_nil. unfold store_slot. munfold. rewrite Hctx, Hx. simpl.
    rewrite Hctx, Hx. simpl. eexists. split; [done|]. split_and!; try done.
    eexists. simpl. rewrite Hctx, lookup_insert_eq. split_and!; [done..|].
    simpl. rewrite Hnodes. simpl in Hc. apply chain_singleton.
  - rewrite last_slot_snoc. unfold store_slot. munfold.
    destruct (chain_last_lookup _ _ _ _ _ Hc) as (nb & Hb & Hib & Hnb).
    assert (a ≠ b) as Hab by congruence.
    rewrite Hnodes, lookup_insert_ne, Hb by done. simpl.
    rewrite Hnodes, lookup_insert_ne, Hb by done. simpl.
    eexists. split; [done|]. split_and!; try done.
    exists x. simpl. rewrite Hctx. split_and!; [done..|].
    rewrite Hnodes, <- app_assoc. simpl. by apply chain_snoc.
Qed.

(** The part shared by both walks: build the descriptor and, on success,
    register it. *)
Lemma build_and_register_spec c dir name l s :
  registry s c l →
  (platform w = POSIX → sail_is_file w (full_path_of w dir name) = true) →
  match
    (r <- try (build_codec_from_codec_info w (full_path_of w dir name)) ;;
     match r with
     | Ok node => store_slot c (last_slot l) (Some node) ;; ret (SlotNext node)
     | Err _ => ret (last_slot l)
     end) s
  with
  | Stuck => False
  | Done r s' =>
      tls_context s' = tls_context s ∧ paths_same s s' ∧ log_grows s s' ∧
      ∃ cl l', r = Ok (last_slot l') ∧ classifies w dir name cl ∧
               registry s' c l' ∧
               ∃ a, l' = l ++ (if valid_descriptor cl is Some d then [(a, d)] else [])
  end.
Proof.
  intros Hreg Hfile. unfold bind at 1. unfold try.
  pose proof (build_codec_from_codec_info_spec w (full_path_of w dir name) s) as Hb.
  destruct (build_codec_from_codec_info w (full_path_of w dir name) s)
    as [[a|e] s1|]; [| |done].
  - destruct Hb as (Hctx & Htls & Hpaths & Hlog & Ha & Hm1 & Hm2 & d & Hd & Hnodes).
    destruct (store_slot_append c l s s1 a d) as (s2 & Hrun & Hreg2 & Htls2 & Hp2 & Hl2);
      [done..|].
    unfold bind. rewrite Hrun. unfold ret. split_and!.
    + congruence.
    + by eapply paths_same_trans.
    + unfold log_grows in *. by rewrite Hl2.
    + exists (Valid d), (l ++ [(a, d)]). rewrite last_slot_snoc. split_and!; try done.
      * by constructor.
      * by exists a.
  - destruct Hb as (Hctx & Htls & Hpaths & Hlog & Hnodes & Hcause).
    unfold ret. split_and!; [done..|].
    assert (registry s1 c l) as Hreg1.
    { destruct Hreg as (x & ? & ? & ?). exists x. by rewrite Hctx, Hnodes. }
    destruct Hcause as [[Hs _]|[Hs [[Hm _]|[(_ & Hm & _)|(_ & _ & Hr)]]]].
    + exists WrongSuffix, l. split_and!; [done|by constructor|done|].
      exists 0. by rewrite app_nil_r.
    + exists PathBuildFailed, l. split_and!; [done|by econstructor|done|].
      exists 0. by rewrite app_nil_r.
    + exists NodeAllocFailed, l. split_and!; [done|by econstructor|done|].
      exists 0. by rewrite app_nil_r.
    + exists (ParseFailed e), l. split_and!; [done|by constructor|done|].
      exists 0. by rewrite app_nil_r.
Qed.

Lemma registry_same s s' c l :
  contexts s' = contexts s → nodes s' = nodes s → registry s c l → registry s' c l.
Proof. intros Hc Hn (x & ? & ? & ?). exists x. by rewrite Hc, Hn. Qed.

Lemma walk_post_skip c dir name l s s' cl :
  classifies w dir name cl → valid_descriptor cl = None →
  contexts s' = contexts s → nodes s' = nodes s →
  tls_context s' = tls_context s → paths_same s s' → log_grows s s' →
  registry s c l →
  walk_post w c dir [name] l s (Ok (last_slot l)) s'.
Proof.
  intros Hcl Hv Hc Hn Ht Hp Hl Hreg. split_and!; [done..|].
  exists [cl], []. rewrite app_nil_r. split_and!; [done| |by eapply registry_same|].
  - by repeat constructor.
  - unfold descriptors. simpl. by rewrite Hv.
Qed.

Lemma walk_post_built c dir name l s0 s (r : outcome slot) :
  contexts s = contexts s0 → nodes s = nodes s0 →
  tls_context s = tls_context s0 → paths_same s0 s → log_grows s0 s →
  match r with
  | Stuck => False
  | Done r s' =>
      tls_context s' = tls_context s ∧ paths_same s s' ∧ log_grows s s' ∧
      ∃ cl l', r = Ok (last_slot l') ∧ classifies w dir name cl ∧
               registry s' c l' ∧
               ∃ a, l' = l ++ (if valid_descriptor cl is Some d then [(a, d)] else [])
  end →
  match r with
  | Stuck => False
  | Done r s' => walk_post w c dir [name] l s0 r s'
  end.
Proof.
  intros Hc Hn Ht Hp Hl. destruct r as [r1 s1|]; [|done].
  intros (Ht1 & Hp1 & Hl1 & cl & l' & -> & Hcl & Hreg & a & ->).
  split_and!; [congruence | by eapply paths_same_trans | by eapply log_grows_trans |].
  exists [cl]. eexists. split_and!; [done | by repeat constructor | done |].
  unfold descriptors. simpl. by destruct (valid_descriptor cl).
Qed.

(** One round of the [readdir] loop. *)
Lemma scan_entry_posix_spec c dir name l s :
  platform w = POSIX →
  registry s c l →
  match scan_entry_posix w c dir name (last_slot l) s with
  | Stuck => False
  | Done r s' => walk_post w c dir [name] l s r s'
  end.
Proof.
  intros Hplat Hreg. unfold scan_entry_posix.
  unfold bind at 1. unfold try at 1. rewrite build_full_path_run.
  destruct (malloc_ok w (mallocs s)) eqn:Hm.
  2: { unfold ret.
       apply (walk_post_skip c dir name l s _ PathBuildFailed);
         [by econstructor | frame_solve ..]. }
  destruct (sail_is_file w (full_path_of w dir name)) eqn:Hfile.
  2: { unfold ret.
       apply (walk_post_skip c dir name l s _ NotRegularFile);
         [by constructor | frame_solve ..]. }
  case_bool_decide as Hsuffix.
  2: { unfold ret.
       apply (walk_post_skip c dir name l s _ WrongSuffix); [|frame_solve ..].
       apply class_wrong_suffix. by destruct (strstr _ _). }
  unfold bind at 1. unfold SAIL_LOG_DEBUG, sail_log, modify.
  eapply walk_post_built; [..|apply build_and_register_spec]; try done.
  all: try (unfold log_grows; simpl; by apply prefix_app_r).
  all: try (eapply registry_same; [..|done]; done).
Qed.

(** One round of the [FindNextFile] loop. *)
Lemma scan_entry_win32_spec c dir name l s :
  platform w = WIN32 →
  registry s c l →
  match scan_entry_win32 w c dir name (last_slot l) s with
  | Stuck => False
  | Done r s' => walk_post w c dir [name] l s r s'
  end.
Proof.
  intros Hplat Hreg. unfold scan_entry_win32.
  unfold bind at 1. unfold try at 1. rewrite build_full_path_run.
  destruct (malloc_ok w (mallocs s)) eqn:Hm.
  2: { unfold ret.
       apply (walk_post_skip c dir name l s _ PathBuildFailed);
         [by econstructor | frame_solve ..]. }
  unfold bind at 1. unfold SAIL_LOG_DEBUG, sail_log, modify.
  eapply walk_post_built; [..|apply build_and_register_spec]; try done.
  all: try (unfold log_grows; simpl; by apply prefix_app_r).
  all: try (eapply registry_same; [..|done]; done).
  all: congruence.
Qed.

End Entry.

(** ** The walk of a directory and of the search paths *)

Section Walk.

Variable w : world.

Lemma descriptors_app cls1 cls2 :
  descriptors (cls1 ++ cls2) = descriptors cls1 ++ descriptors cls2.
Proof. unfold descriptors. apply omap_app. Qed.

Lemma walk_post_nil c dir l s : registry s c l → walk_post w c dir [] l s (Ok (last_slot l)) s.
Proof.
  intros Hreg. split_and!; [done | apply paths_same_refl | apply log_grows_refl |].
  exists [], []. rewrite app_nil_r. by split_and!.
Qed.

Lemma walk_post_cons c dir name names l s r1 s1 r2 s2 new1 :
  walk_post w c dir [name] l s r1 s1 →
  r1 = Ok (last_slot (l ++ new1)) →
  registry s1 c (l ++ new1) →
  walk_post w c dir names (l ++ new1) s1 r2 s2 →
  walk_post w c dir (name :: names) l s r2 s2.
Proof.
  intros (Ht1 & Hp1 & Hl1 & cls1 & new1' & Hr1 & Hcls1 & Hreg1 & Hnew1) -> Hreg1'
         (Ht2 & Hp2 & Hl2 & cls2 & new2 & -> & Hcls2 & Hreg2 & Hnew2).
  assert (new1' = new1) as ->.
  { destruct Hreg1 as (x & Hx & _ & Hc), Hreg1' as (x' & Hx' & _ & Hc').
    simplify_eq. pose proof (chain_func _ _ _ _ Hc Hc') as Heq.
    by apply app_inv_head in Heq. }
  split_and!; [congruence | by eapply paths_same_trans | by eapply log_grows_trans |].
  exists (cls1 ++ cls2), (new1 ++ new2). rewrite app_assoc. split_and!; [done| |done|].
  - apply Forall2_length in Hcls1 as Hlen. destruct cls1 as [|cl1 [|? ?]]; simplify_eq/=.
    apply Forall2_cons_1 in Hcls1 as [Hcl1 _]. by constructor.
  - by rewrite fmap_app, descriptors_app, Hnew1, Hnew2.
Qed.

(** Steps before and after a walk that leave the heaps alone. *)
Lemma walk_post_frame c dir names l s0 s1 r s2 s3 :
  tls_context s1 = tls_context s0 → paths_same s0 s1 → log_grows s0 s1 →
  contexts s3 = contexts s2 → nodes s3 = nodes s2 →
  tls_context s3 = tls_context s2 → paths_same s2 s3 → log_grows s2 s3 →
  walk_post w c dir names l s1 r s2 →
  walk_post w c dir names l s0 r s3.
Proof.
  intros Ht1 Hp1 Hl1 Hc3 Hn3 Ht3 Hp3 Hl3 (Ht & Hp & Hl & cls & new & Hr & Hcls & Hreg & Hnew).
  split_and!.
  - congruence.
  - eapply paths_same_trans; [|done]. by eapply paths_same_trans.
  - eapply log_grows_trans; [|done]. by eapply log_grows_trans.
  - exists cls, new. split_and!; [done..| |done]. by eapply registry_same.
Qed.

(** A loop whose rounds each satisfy [walk_post] satisfies it for the
    whole list of entries: no round ends the loop. *)
Lemma walk_spec (f : string → slot → M slot) c dir names :
  (∀ name l s, registry s c l →
     match f name (last_slot l) s with
     | Stuck => False
     | Done r s' => walk_post w c dir [name] l s r s'
     end) →
  ∀ l s, registry s c l →
  match foldM f names (last_slot l) s with
  | Stuck => False
  | Done r s' => walk_post w c dir names l s r s'
  end.
Proof.
  intros Hf. induction names as [|name names IH]; intros l s Hreg; simpl.
  - unfold ret. by apply walk_post_nil.
  - unfold bind. specialize (Hf name l s Hreg).
    destruct (f name (last_slot l) s) as [r1 s1|]; [|done].
    pose proof Hf as (_ & _ & _ & cls1 & new1 & -> & _ & Hreg1 & _).
    specialize (IH (l ++ new1) s1 Hreg1).
    destruct (foldM f names (last_slot (l ++ new1)) s1) as [r2 s2|]; [|done].
    by eapply walk_post_cons.
Qed.

(** The walk of one search path. It returns; on POSIX always with
    [SAIL_OK]; on Windows a failed allocation or a failed listing ends
    it with an error, the registry as it was. *)
Lemma scan_path_spec c codecs_path l s :
  registry s c l →
  match scan_path w c codecs_path (last_slot l) s with
  | Stuck => False
  | Done (Ok last) s' => scan_post w c codecs_path l s (Ok last) s'
  | Done (Err e) s' =>
      platform w = WIN32 ∧
      (e = SAIL_ERROR_MEMORY_ALLOCATION ∨ e = SAIL_ERROR_LIST_DIR) ∧
      registry s' c l ∧
      tls_context s' = tls_context s ∧ paths_same s s' ∧ log_grows s s'
  end.
Proof.
  intros Hreg. unfold scan_path, scan_post, dir_entries. cbv zeta.
  destruct codecs_path as [dir|]; cbn [default from_option].
  2: { unfold ret. by apply walk_post_nil. }
  destruct (platform w) eqn:Hplat.
  - destruct (opendir w dir) as [entries|] eqn:Hdir; simpl.
    + pose proof (walk_spec (scan_entry_posix w c dir) c dir entries) as H.
      specialize (H (λ name l s, scan_entry_posix_spec w c dir name l s Hplat) l s Hreg).
      by destruct (foldM _ _ _ _) as [[?|?] ?|]; [|destruct H as (_&_&_&?&?&?&_)|].
    + munfold. simpl. split_and!; [done|frame_solve..|].
      exists [], []. rewrite app_nil_r. split_and!; [done..| |done].
      eapply registry_same; [..|done]; done.
  - unfold bind at 1. rewrite sail_malloc_run.
    destruct (malloc_ok w (mallocs s)) eqn:Hm.
    2: { split_and!; [done|by left|..]; try done; try frame_solve;
           try (eapply registry_same; [..|done]; done). }
    destruct (FindFirstFile w _) as [[first others]|] eqn:Hfind.
    2: { munfold. simpl. split_and!; [done|by right|..]; try done; try frame_solve;
           try (eapply registry_same; [..|done]; done). }
    unfold bind at 1.
    pose proof (walk_spec (scan_entry_win32 w c dir) c dir (first :: others)) as H.
    assert (registry (set_mallocs S s) c l) as Hreg' by (eapply registry_same; [..|done]; done).
    specialize (H (λ name l s, scan_entry_win32_spec w c dir name l s Hplat) l _ Hreg').
    destruct (foldM _ _ _ _) as [[last|e] s1|]; [| |done].
    2: { by destruct H as (_&_&_&?&?&?&_). }
    destruct (no_more_files w _); munfold; simpl.
    all: eapply (walk_post_frame c dir _ l s (set_mallocs S s) _ s1); [..|exact H].
    all: frame_solve.
Qed.

(** A directory that cannot be listed leaves an error record and
    nothing else (POSIX). *)
Lemma scan_path_unlistable_posix c dir last s :
  platform w = POSIX →
  opendir w dir = None →
  scan_path w c (Some dir) last s =
  Done (Ok last) (set_log (λ l, l ++ [list_dir_error_record dir]) s).
Proof. intros Hplat Hdir. unfold scan_path. by rewrite Hplat, Hdir. Qed.

(** On Windows a failed listing ends the walk, and with it
    [init_context], with SAIL_ERROR_LIST_DIR. *)
Lemma scan_path_unlistable_win32 c dir last s :
  platform w = WIN32 →
  malloc_ok w (mallocs s) = true →
  FindFirstFile w (dir +:+ "\*.codec.info") = None →
  ∃ s', scan_path w c (Some dir) last s = Done (Err SAIL_ERROR_LIST_DIR) s' ∧
        contexts s' = contexts s ∧ nodes s' = nodes s.
Proof.
  intros Hplat Hm Hfind. unfold scan_path. rewrite Hplat. cbv zeta.
  unfold bind at 1. rewrite sail_malloc_run, Hm, Hfind. munfold. simpl. eauto.
Qed.

End Walk.

(** ** Search path resolution *)

Section Paths.

Variable w : world.

(** [sail_codecs_path] memoizes its answer and leaves the heaps alone.
    The one path without defined behaviour is on Windows (a failed
    [sail_concat] followed by a read of the unwritten result). *)
Lemma sail_codecs_path_spec s :
  match sail_codecs_path w s with
  | Stuck => platform w = WIN32
  | Done r s' =>
      heap_same s s' ∧ log_grows s s' ∧
      client_codecs_path_static s' = client_codecs_path_static s ∧
      codecs_path_called (sail_codecs_path_static s') = true ∧
      r = Ok (env (sail_codecs_path_static s')) ∧
      (paths_ok s → env (sail_codecs_path_static s') ≠ None)
  end.
Proof.
  unfold sail_codecs_path, paths_ok. munfold.
  destruct (codecs_path_called (sail_codecs_path_static s)) eqn:Hcalled; simpl.
  { frame_solve. }
  destruct (platform w) eqn:Hplat; simpl.
  - destruct (environ s !! "SAIL_CODECS_PATH") eqn:He; simpl; frame_solve.
  - destruct (environ s !! "SAIL_CODECS_PATH") eqn:He; simpl; [frame_solve|].
    destruct (GetModuleFileName w); simpl; try frame_solve.
    destruct (strrchr path "\"); simpl; try frame_solve.
    destruct (malloc_ok w (mallocs s)); simpl; frame_solve.
Qed.

Lemma client_codecs_path_spec s :
  match client_codecs_path s with
  | Stuck => False
  | Done r s' =>
      heap_same s s' ∧ log_grows s s' ∧
      sail_codecs_path_static s' = sail_codecs_path_static s ∧
      codecs_path_called (client_codecs_path_static s') = true ∧
      r = Ok (env (client_codecs_path_static s'))
  end.
Proof.
  unfold client_codecs_path. munfold.
  destruct (codecs_path_called (client_codecs_path_static s)) eqn:Hcalled; simpl.
  { frame_solve. }
  destruct (environ s !! "SAIL_MY_CODECS_PATH") eqn:He; simpl; frame_solve.
Qed.

End Paths.

(** ** Walks over the finished chain *)

Section ChainWalks.

Variable w : world.

Lemma nodes_similar_refl h : nodes_similar h h.
Proof. intros a n Hn. by exists n. Qed.

Lemma nodes_similar_trans h1 h2 h3 :
  nodes_similar h1 h2 → nodes_similar h2 h3 → nodes_similar h1 h3.
Proof.
  intros H12 H23 a n Hn. destruct (H12 a n Hn) as (n2 & Hn2 & Hi2 & Hx2).
  destruct (H23 a n2 Hn2) as (n3 & Hn3 & Hi3 & Hx3). exists n3. split_and!; congruence.
Qed.

Lemma chain_similar h h' p l : nodes_similar h h' → chain h p l → chain h' p l.
Proof. intros Hs. apply chain_preserved. intros a n _. apply Hs. Qed.

(** Loading a module changes the [codec] field of that node at most. *)
Lemma load_codec_by_codec_info_spec a s :
  match load_codec_by_codec_info w a s with
  | Stuck => nodes s !! a = None
  | Done r s' =>
      contexts s' = contexts s ∧ tls_context s' = tls_context s ∧
      paths_same s s' ∧ log s' = log s ∧ nodes_similar (nodes s) (nodes s')
  end.
Proof.
  unfold load_codec_by_codec_info. munfold.
  destruct (nodes s !! a) as [n|] eqn:Hn; simpl; [|done].
  destruct (codec n); simpl.
  { split_and!; try done. apply nodes_similar_refl. }
  destruct (codec_info n ≫= ci_path) as [p|]; simpl.
  2: { split_and!; try done. apply nodes_similar_refl. }
  destruct (load_module w p); simpl.
  2: { split_and!; try done. apply nodes_similar_refl. }
  rewrite Hn. simpl. split_and!; try done.
  intros b m Hb. destruct (decide (b = a)) as [->|Hne].
  - rewrite lookup_insert_eq. simplify_eq. eauto.
  - rewrite lookup_insert_ne by done. eauto.
Qed.

(** The preload walk over a chain returns [SAIL_OK] whatever the loader
    does, and keeps every descriptor and link. *)
Lemma preload_from_spec fuel p l s :
  chain (nodes s) p l → length l ≤ fuel →
  match preload_from w fuel p s with
  | Stuck => False
  | Done r s' =>
      r = Ok tt ∧ contexts s' = contexts s ∧ tls_context s' = tls_context s ∧
      paths_same s s' ∧ log s' = log s ∧ nodes_similar (nodes s) (nodes s')
  end.
Proof.
  revert fuel p s. induction l as [|[a i] l IH]; intros fuel p s Hc Hfuel.
  - simpl in Hc. subst p. destruct fuel; simpl; unfold ret;
      (split_and!; try done; apply nodes_similar_refl).
  - destruct Hc as [-> (n & Hn & Hi & Hc)]. simpl in Hfuel.
    destruct fuel as [|fuel]; [lia|]. simpl.
    unfold bind at 1. unfold try.
    pose proof (load_codec_by_codec_info_spec a s) as Hload.
    destruct (load_codec_by_codec_info w a s) as [r1 s1|]; [|congruence].
    destruct Hload as (Hc1 & Ht1 & Hp1 & Hl1 & Hs1).
    destruct (Hs1 a n Hn) as (n1 & Hn1 & Hi1 & Hx1).
    unfold bind at 1. unfold load_node at 1. munfold. rewrite Hn1. simpl.
    assert (chain (nodes s1) (next n1) l) as Hc'.
    { rewrite Hx1. by eapply chain_similar. }
    specialize (IH fuel (next n1) s1 Hc' ltac:(lia)).
    destruct (preload_from w fuel (next n1) s1) as [r2 s2|]; [|done].
    destruct IH as (-> & Hc2 & Ht2 & Hp2 & Hl2 & Hs2).
    split_and!; try congruence.
    + by eapply paths_same_trans.
    + by eapply nodes_similar_trans.
Qed.

(** The print walk over a chain returns [SAIL_OK] and only logs. *)
Lemma print_from_spec fuel p l counter s :
  chain (nodes s) p l → length l ≤ fuel →
  match print_from fuel p counter s with
  | Stuck => False
  | Done r s' =>
      r = Ok tt ∧ contexts s' = contexts s ∧ nodes s' = nodes s ∧
      tls_context s' = tls_context s ∧ paths_same s s' ∧ log_grows s s'
  end.
Proof.
  revert fuel p counter s. induction l as [|[a i] l IH]; intros fuel p counter s Hc Hfuel.
  - simpl in Hc. subst p. destruct fuel; simpl; unfold ret; frame_solve.
  - destruct Hc as [-> (n & Hn & Hi & Hc)]. simpl in Hfuel.
    destruct fuel as [|fuel]; [lia|]. simpl.
    munfold. rewrite Hn. simpl. rewrite Hi. simpl.
    match goal with |- context [print_from fuel (next n) (S counter) ?s1] =>
      specialize (IH fuel (next n) (S counter) s1 Hc ltac:(lia));
      destruct (print_from fuel (next n) (S counter) s1) as [r2 s2|]; [|done]
    end.
    destruct IH as (-> & Hc2 & Hn2 & Ht2 & Hp2 & Hl2). simpl in *.
    split_and!; try done.
    eapply log_grows_trans; [|done]. frame_solve.
Qed.

End ChainWalks.

(** ** A small logic of preserved state properties *)

Section Preserves.

Variable w : world.
Variable P : state → Prop.

Lemma preserves_ret {A} (a : A) : preserves P (ret a).
Proof. by intros s Hs. Qed.

Lemma preserves_fail {A} e : preserves P (@fail A e).
Proof. by intros s Hs. Qed.

Lemma preserves_stuck {A} : preserves P (@stuck A).
Proof. by intros s Hs. Qed.

Lemma preserves_get : preserves P get.
Proof. by intros s Hs. Qed.

Lemma preserves_bind {A B} (m : M A) (f : A → M B) :
  preserves P m → (∀ a, preserves P (f a)) → preserves P (bind m f).
Proof.
  intros Hm Hf s Hs. unfold bind. specialize (Hm s Hs).
  destruct (m s) as [[a|e] s1|]; [|done..]. by apply Hf.
Qed.

Lemma preserves_try {A} (m : M A) : preserves P m → preserves P (try m).
Proof. intros Hm s Hs. unfold try. specialize (Hm s Hs). by destruct (m s). Qed.

Lemma preserves_deref {A} (p : option A) : preserves P (deref p).
Proof. destruct p; [apply preserves_ret | apply preserves_stuck]. Qed.

Lemma preserves_modify f : (∀ s, P s → P (f s)) → preserves P (modify f).
Proof. intros Hf s Hs. by apply Hf. Qed.

Lemma preserves_foldM {A B} (f : A → B → M B) (l : list A) (b : B) :
  (∀ a b, preserves P (f a b)) → preserves P (foldM f l b).
Proof.
  intros Hf. revert b. induction l as [|a l IH]; intros b; simpl.
  - apply preserves_ret.
  - apply preserves_bind; [apply Hf | apply IH].
Qed.

Hypothesis HP : on_contexts P.

Lemma preserves_frame (f : state → state) :
  (∀ s, contexts (f s) = contexts s) → preserves P (modify f).
Proof. intros Hf. apply preserves_modify. intros s. by apply HP. Qed.

End Preserves.

(** Decomposes a monadic term down to the steps that write a context. *)
Ltac preserves_step :=
  lazymatch goal with
  | |- preserves _ (ret _) => apply preserves_ret
  | |- preserves _ (fail _) => apply preserves_fail
  | |- preserves _ stuck => apply preserves_stuck
  | |- preserves _ get => apply preserves_get
  | |- preserves _ (deref _) => apply preserves_deref
  | |- preserves _ (modify _) => apply preserves_frame; [assumption | intros ?; reflexivity]
  | |- preserves _ (try _) => apply preserves_try
  | |- preserves _ (bind _ _) => apply preserves_bind; [|intros ?]
  | |- preserves _ (match ?x with _ => _ end) => destruct x
  | |- preserves _ (let _ := _ in _) => cbv zeta
  end.

Ltac preserves_auto :=
  unfold SAIL_LOG_AND_RETURN, SAIL_LOG_ERROR, SAIL_LOG_INFO, SAIL_LOG_DEBUG, sail_log,
    SAIL_CHECK_CONTEXT_PTR, getenv, setenv, sail_concat, sail_strdup, sail_strdup_length,
    sail_to_wchar, sail_malloc, set_sail_env, set_client_env,
    store_node, load_node, load_context;
  repeat preserves_step.

Section PreservesContexts.

Variable w : world.
Variable P : state → Prop.
Hypothesis HP : on_contexts P.

Lemma preserves_update_lib_path p : preserves P (update_lib_path w p).
Proof. unfold update_lib_path. preserves_auto. Qed.

Lemma preserves_sail_codecs_path : preserves P (sail_codecs_path w).
Proof. unfold sail_codecs_path. preserves_auto. Qed.

Lemma preserves_client_codecs_path : preserves P client_codecs_path.
Proof. unfold client_codecs_path. preserves_auto. Qed.

Lemma preserves_build_codec_from_codec_info full :
  preserves P (build_codec_from_codec_info w full).
Proof.
  unfold build_codec_from_codec_info, alloc_codec_info_node, destroy_codec_info_node.
  preserves_auto.
Qed.

Lemma preserves_load_codec_by_codec_info a :
  preserves P (load_codec_by_codec_info w a).
Proof. unfold load_codec_by_codec_info. preserves_auto. Qed.

Lemma preserves_preload_from fuel p : preserves P (preload_from w fuel p).
Proof.
  revert p. induction fuel as [|fuel IH]; intros [a|]; simpl; preserves_auto.
  - apply preserves_load_codec_by_codec_info.
  - apply IH.
Qed.

Lemma preserves_print_from fuel p counter : preserves P (print_from fuel p counter).
Proof.
  revert p counter. induction fuel as [|fuel IH]; intros [a|] counter; simpl; preserves_auto.
  apply IH.
Qed.

End PreservesContexts.

(** ** The flag set by [init_context] stays set *)

Section Marked.

Variable w : world.
Variable c : addr.

Lemma marked_on_contexts : on_contexts (λ s, marked s c).
Proof. intros s s' Hc (x & Hx & Hi). exists x. by rewrite Hc. Qed.

Lemma preserves_store_slot last node :
  preserves (λ s, marked s c) (store_slot c last node).
Proof.
  destruct last as [|a]; unfold store_slot.
  - intros s (x & Hx & Hi). munfold. rewrite Hx. simpl. rewrite Hx. simpl.
    eexists. split; [apply lookup_insert_eq | done].
  - pose proof marked_on_contexts. preserves_auto.
Qed.

Lemma preserves_scan_path codecs_path last :
  preserves (λ s, marked s c) (scan_path w c codecs_path last).
Proof.
  pose proof marked_on_contexts as Hoc.
  assert (∀ full last,
    preserves (λ s, marked s c)
      (r <- try (build_codec_from_codec_info w full) ;;
       match r with
       | Ok node => store_slot c last (Some node) ;; ret (SlotNext node)
       | Err _ => ret last
       end)) as Hbuild.
  { intros full last'. apply preserves_bind.
    - apply preserves_try. by apply preserves_build_codec_from_codec_info.
    - intros [node|e]; [|apply preserves_ret].
      apply preserves_bind; [apply preserves_store_slot | intros; apply preserves_ret]. }
  unfold scan_path. destruct codecs_path as [dir|]; [|apply preserves_ret].
  destruct (platform w).
  - destruct (opendir w dir) as [entries|]; [|preserves_auto].
    apply preserves_foldM. intros name last'. unfold scan_entry_posix, build_full_path.
    apply preserves_bind; [preserves_auto|]. intros [full|e]; [|apply preserves_ret].
    destruct (sail_is_file w full); [|apply preserves_ret]. cbv zeta.
    case_bool_decide; [|apply preserves_ret].
    apply preserves_bind; [preserves_auto | intros; apply Hbuild].
  - cbv zeta. apply preserves_bind; [preserves_auto|]. intros _.
    destruct (FindFirstFile w _) as [[first others]|]; [|preserves_auto].
    apply preserves_bind; [|intros; preserves_auto].
    apply preserves_foldM. intros name last'. unfold scan_entry_win32, build_full_path.
    apply preserves_bind; [preserves_auto|]. intros [full|e]; [|apply preserves_ret].
    apply preserves_bind; [preserves_auto | intros; apply Hbuild].
Qed.

End Marked.

(** ** [init_context], phase by phase *)

Section Init.

Variable w : world.

Lemma load_context_run c s :
  load_context c s =
  match contexts s !! c with Some x => Done (Ok x) s | None => Stuck end.
Proof. unfold load_context. munfold. by destruct (contexts s !! c). Qed.

Lemma store_context_run c x s :
  store_context c x s =
  match contexts s !! c with
  | Some _ => Done (Ok tt) (set_contexts (insert c x) s)
  | None => Stuck
  end.
Proof. unfold store_context. munfold. by destruct (contexts s !! c). Qed.

Lemma registry_similar s s' c l :
  contexts s' = contexts s → nodes_similar (nodes s) (nodes s') →
  registry s c l → registry s' c l.
Proof.
  intros Hc Hn (x & Hx & Hi & Hch). exists x. rewrite Hc.
  split_and!; [done..|]. by eapply chain_similar.
Qed.

(** The tail of [init_context] returns [SAIL_OK] and keeps the
    registry. *)
Lemma init_finish_spec c flags l s :
  registry s c l →
  match init_finish w c flags s with
  | Stuck => False
  | Done r s' =>
      r = Ok tt ∧ registry s' c l ∧
      tls_context s' = tls_context s ∧ paths_same s s' ∧ log_grows s s'
  end.
Proof.
  intros Hreg. unfold init_finish. unfold bind at 1.
  assert (match
            (if negb (Z.land flags (SAIL_FLAG_PRELOAD_CODECS w) =? 0)%Z then
               SAIL_LOG_DEBUG "Preloading codecs" [] ;;
               x <- load_context c ;;
               s <- get ;;
               preload_from w (size (nodes s)) (codec_info_node x)
             else ret tt) s
          with
          | Stuck => False
          | Done r s1 =>
              r = Ok tt ∧ registry s1 c l ∧
              tls_context s1 = tls_context s ∧ paths_same s s1 ∧ log_grows s s1
          end) as Hpre.
  { destruct (negb _).
    2: { unfold ret. split_and!; [done..|apply paths_same_refl|apply log_grows_refl]. }
    destruct Hreg as (x & Hx & Hi & Hch). munfold. simpl. rewrite Hx. simpl.
    match goal with |- context [preload_from w ?f ?p ?s1] =>
      pose proof (preload_from_spec w f p l s1 Hch (chain_length _ _ _ Hch)) as H;
      destruct (preload_from w f p s1) as [r2 s2|]; [|done]
    end.
    destruct H as (-> & Hc2 & Ht2 & Hp2 & Hl2 & Hs2). simpl in *.
    split_and!.
    - done.
    - eapply (registry_similar s); [done..|]. by exists x.
    - done.
    - done.
    - unfold log_grows. rewrite Hl2. simpl. by apply prefix_app_r. }
  destruct (_ s) as [r1 s1|]; [|done].
  destruct Hpre as (-> & Hreg1 & Ht1 & Hp1 & Hl1).
  destruct Hreg1 as (x & Hx & Hi & Hch). munfold. simpl. rewrite Hx. simpl.
  match goal with |- context [print_from ?f ?p ?k ?s2] =>
    pose proof (print_from_spec f p l k s2 Hch (chain_length _ _ _ Hch)) as H;
    destruct (print_from f p k s2) as [r3 s3|]; [|done]
  end.
  destruct H as (-> & Hc3 & Hn3 & Ht3 & Hp3 & Hl3). simpl in *.
  split_and!.
  - done.
  - exists x. simpl. by rewrite Hc3, Hn3.
  - congruence.
  - eapply paths_same_trans; [done|]. destruct Hp3. by split.
  - eapply log_grows_trans; [done|].
    eapply log_grows_trans; [|eapply log_grows_trans; [done|]]; frame_solve.
Qed.

(** The walk of the two search paths, started on an empty registry. *)
Lemma init_discover_spec c our their s :
  registry s c [] →
  match foldM (scan_path w c) [Some our; their] SlotHead s with
  | Stuck => False
  | Done (Ok _) s' =>
      tls_context s' = tls_context s ∧ paths_same s s' ∧ log_grows s s' ∧
      ∃ cls1 cls2 l,
        registry s' c l ∧
        Forall2 (classifies w our) (dir_entries w (Some our)) cls1 ∧
        Forall2 (classifies w (default "" their)) (dir_entries w their) cls2 ∧
        l.*2 = descriptors cls1 ++ descriptors cls2
  | Done (Err e) s' =>
      platform w = WIN32 ∧
      (e = SAIL_ERROR_MEMORY_ALLOCATION ∨ e = SAIL_ERROR_LIST_DIR) ∧
      tls_context s' = tls_context s ∧ paths_same s s' ∧ log_grows s s' ∧
      ∃ l, registry s' c l
  end.
Proof.
  intros Hreg. cbn [foldM]. unfold bind at 1.
  pose proof (scan_path_spec w c (Some our) [] s Hreg) as H1.
  change (last_slot []) with SlotHead in H1.
  destruct (scan_path w c (Some our) SlotHead s) as [[last1|e1] s1|]; [| |done].
  2: { destruct H1 as (? & ? & ? & ? & ? & ?). split_and!; eauto. }
  destruct H1 as (Ht1 & Hp1 & Hl1 & cls1 & new1 & [= ->] & Hcls1 & Hreg1 & Hnew1).
  simpl in Hreg1, Hcls1.
  unfold bind at 1.
  pose proof (scan_path_spec w c their new1 s1 Hreg1) as H2.
  destruct (scan_path w c their (last_slot new1) s1) as [[last2|e2] s2|]; [| |done].
  2: { destruct H2 as (? & ? & ? & ? & ? & ?).
       split_and!; [done | done | congruence | by eapply paths_same_trans |
                    by eapply log_grows_trans | eauto]. }
  destruct H2 as (Ht2 & Hp2 & Hl2 & cls2 & new2 & _ & Hcls2 & Hreg2 & Hnew2).
  unfold ret.
  split_and!; [congruence | by eapply paths_same_trans | by eapply log_grows_trans |].
  exists cls1, cls2, (new1 ++ new2). split_and!; [done..|].
  by rewrite fmap_app, Hnew1, Hnew2.
Qed.

Lemma init_context_unfold c flags :
  init_context w (Some c) flags =
  (x <- load_context c ;;
   if initialized x then ret tt
   else
     store_context c {| initialized := true; codec_info_node := codec_info_node x |} ;;
     SAIL_LOG_INFO "Version %s" [ArgStr (SAIL_VERSION_STRING w)] ;;
     our_codecs_path <- sail_codecs_path w ;;
     update_lib_path w our_codecs_path ;;
     their_codecs_path <- client_codecs_path ;;
     (if their_codecs_path is Some _ then update_lib_path w their_codecs_path else ret tt) ;;
     foldM (scan_path w c) [our_codecs_path; their_codecs_path] SlotHead ;;
     init_finish w c flags).
Proof. reflexivity. Qed.

(** On a context as [alloc_context] leaves it, the prologue of
    [init_context] is the state [init_mark]. *)
Lemma init_context_fresh c flags s :
  contexts s !! c = Some fresh_context →
  init_context w (Some c) flags s =
  (our_codecs_path <- sail_codecs_path w ;;
   update_lib_path w our_codecs_path ;;
   their_codecs_path <- client_codecs_path ;;
   (if their_codecs_path is Some _ then update_lib_path w their_codecs_path else ret tt) ;;
   foldM (scan_path w c) [our_codecs_path; their_codecs_path] SlotHead ;;
   init_finish w c flags) (init_mark w c s).
Proof.
  intros Hx. rewrite init_context_unfold. munfold. rewrite Hx. simpl. by rewrite Hx.
Qed.

(** Whatever [init_context] returns, it leaves the context marked
    initialized. *)
Lemma init_context_marks c flags s r s' :
  init_context w (Some c) flags s = Done r s' → marked s' c.
Proof.
  pose proof (marked_on_contexts c) as Hoc.
  rewrite init_context_unfold. unfold bind at 1. rewrite load_context_run.
  destruct (contexts s !! c) as [x|] eqn:Hx; [|done].
  destruct (initialized x) eqn:Hi.
  { intros [= <- <-]. by exists x. }
  unfold bind at 1. rewrite store_context_run, Hx.
  match goal with |- ?m ?s0 = _ → _ =>
    assert (preserves (λ s, marked s c) m) as Hrest; [|specialize (Hrest s0)]
  end.
  { apply preserves_bind; [preserves_auto|]. intros _.
    apply preserves_bind; [by apply preserves_sail_codecs_path|]. intros our.
    apply preserves_bind; [by apply preserves_update_lib_path|]. intros _.
    apply preserves_bind; [by apply preserves_client_codecs_path|]. intros their.
    apply preserves_bind.
    { destruct their; [by apply preserves_update_lib_path | apply preserves_ret]. }
    intros _. apply preserves_bind.
    { apply preserves_foldM. intros. apply preserves_scan_path. }
    intros _. unfold init_finish. apply preserves_bind.
    { destruct (negb _); [|apply preserves_ret].
      apply preserves_bind; [preserves_auto|]. intros _.
      apply preserves_bind; [preserves_auto|]. intros ?.
      apply preserves_bind; [preserves_auto|]. intros ?.
      by apply preserves_preload_from. }
    intros _. apply preserves_bind; [preserves_auto|]. intros _.
    apply preserves_bind; [preserves_auto|]. intros ?.
    apply preserves_bind; [preserves_auto|]. intros ?.
    apply preserves_bind; [by apply preserves_print_from | intros; preserves_auto]. }
  intros Hrun. rewrite Hrun in Hrest. apply Hrest.
  eexists. split; [apply lookup_insert_eq | done].
Qed.

End Init.

(** ** [init_context] on a new context *)

Section InitSpec.

Variable w : world.

Lemma registry_init_mark c s : registry (init_mark w c s) c [].
Proof.
  eexists. simpl. split; [apply lookup_insert_eq|]. done.
Qed.

Lemma registry_heap_same s s' c l : heap_same s s' → registry s c l → registry s' c l.
Proof. intros (Hc & Hn & _). by apply registry_same. Qed.

(** Everything [init_context] can do on a context that [alloc_context]
    has just made. It returns, except on the one Windows path without
    defined behaviour; it keeps the singleton slot; the primary path is
    resolved and memoized. With [SAIL_OK] the registry chain holds the
    descriptors of the valid entries of the primary path, then of the
    secondary path. An error comes from [update_lib_path], or on
    Windows from the listing of a directory. *)
Lemma init_context_spec c flags s :
  contexts s !! c = Some fresh_context →
  paths_ok s →
  match init_context w (Some c) flags s with
  | Stuck => platform w = WIN32
  | Done r s' =>
      tls_context s' = tls_context s ∧ log_grows s s' ∧
      codecs_path_called (sail_codecs_path_static s') = true ∧
      ∃ our, env (sail_codecs_path_static s') = Some our ∧
        match r with
        | Ok _ =>
            codecs_path_called (client_codecs_path_static s') = true ∧
            ∃ cls1 cls2 l,
              registry s' c l ∧
              Forall2 (classifies w our) (dir_entries w (Some our)) cls1 ∧
              Forall2 (classifies w (default "" (env (client_codecs_path_static s'))))
                      (dir_entries w (env (client_codecs_path_static s'))) cls2 ∧
              l.*2 = descriptors cls1 ++ descriptors cls2
        | Err e =>
            (e = SAIL_ERROR_MEMORY_ALLOCATION ∨ e = SAIL_ERROR_ENV_UPDATE ∨
             (platform w = WIN32 ∧ e = SAIL_ERROR_LIST_DIR)) ∧
            ∃ l, registry s' c l ∧ (platform w = POSIX → l = [])
        end
  end.
Proof.
  intros Hx Hok. rewrite init_context_fresh by done.
  pose proof (registry_init_mark c s) as Hreg0.
  assert (log_grows s (init_mark w c s)) as Hl0 by (unfold init_mark; frame_solve).
  set (s0 := init_mark w c s) in *.
  assert (tls_context s0 = tls_context s) as Ht0 by done.
  assert (paths_ok s0) as Hok0 by done.
  clearbody s0.
  (* the primary path *)
  unfold bind at 1.
  pose proof (sail_codecs_path_spec w s0) as H1.
  destruct (sail_codecs_path w s0) as [r1 s1|]; [|done].
  destruct H1 as (Hh1 & Hl1 & Hcl1 & Hcalled1 & -> & Hsome1).
  destruct (env (sail_codecs_path_static s1)) as [our|] eqn:Hour; [|by destruct Hsome1].
  clear Hsome1.
  pose proof (registry_heap_same _ _ _ _ Hh1 Hreg0) as Hreg1.
  unfold bind at 1.
  pose proof (update_lib_path_spec w our s1) as H2.
  destruct (update_lib_path w (Some our) s1) as [r2 s2|]; [|done].
  destruct H2 as (Hh2 & Hp2 & Hl2 & Hr2).
  pose proof (registry_heap_same _ _ _ _ Hh2 Hreg1) as Hreg2.
  assert (tls_context s2 = tls_context s) as Ht2
    by (destruct Hh1 as (_&_&?), Hh2 as (_&_&?); congruence).
  assert (log_grows s s2) as Hls2
    by (eapply log_grows_trans; [|done]; by eapply log_grows_trans).
  assert (sail_codecs_path_static s2 = sail_codecs_path_static s1) as Hst2 by (by destruct Hp2).
  destruct r2 as [[]|e2].
  2: { split_and!; [done | done | congruence |]. exists our. split; [congruence|].
       split; [|by exists []].
       destruct Hr2 as [[=]|[[= ->]|[= ->]]]; auto. }
  clear Hr2.
  (* the secondary path *)
  unfold bind at 1.
  pose proof (client_codecs_path_spec s2) as H3.
  destruct (client_codecs_path s2) as [r3 s3|]; [|done].
  destruct H3 as (Hh3 & Hl3 & Hst3 & Hcalled3 & ->).
  pose proof (registry_heap_same _ _ _ _ Hh3 Hreg2) as Hreg3.
  set (their := env (client_codecs_path_static s3)) in *.
  unfold bind at 1.
  assert (match (if their is Some _ then update_lib_path w their else ret tt) s3 with
          | Stuck => False
          | Done r s4 =>
              heap_same s3 s4 ∧ paths_same s3 s4 ∧ log_grows s3 s4 ∧
              (r = Ok tt ∨ r = Err SAIL_ERROR_MEMORY_ALLOCATION ∨ r = Err SAIL_ERROR_ENV_UPDATE)
          end) as H4.
  { destruct their as [p|]; [apply update_lib_path_spec|].
    unfold ret. split_and!; [apply heap_same_refl | apply paths_same_refl |
                             apply log_grows_refl | by left]. }
  match type of H4 with match ?t with _ => _ end => destruct t as [r4 s4|]; [|done] end.
  destruct H4 as (Hh4 & Hp4 & Hl4 & Hr4).
  pose proof (registry_heap_same _ _ _ _ Hh4 Hreg3) as Hreg4.
  assert (tls_context s4 = tls_context s) as Ht4
    by (destruct Hh3 as (_&_&?), Hh4 as (_&_&?); congruence).
  assert (log_grows s s4) as Hls4
    by (eapply log_grows_trans; [|done]; by eapply log_grows_trans).
  assert (sail_codecs_path_static s4 = sail_codecs_path_static s1) as Hst4
    by (destruct Hp4; congruence).
  assert (client_codecs_path_static s4 = client_codecs_path_static s3) as Hcs4
    by (by destruct Hp4).
  destruct r4 as [[]|e4].
  2: { split_and!; [done | done | congruence |]. exists our. split; [congruence|].
       split; [|by exists []].
       destruct Hr4 as [[=]|[[= ->]|[= ->]]]; auto. }
  clear Hr4.
  (* the walk *)
  unfold bind at 1.
  pose proof (init_discover_spec w c our their s4 Hreg4) as H5.
  destruct (foldM (scan_path w c) [Some our; their] SlotHead s4) as [[last|e5] s5|]; [| |done].
  2: { destruct H5 as (Hplat & He5 & Ht5 & Hp5 & Hl5 & l & Hreg5).
       split_and!; [congruence | by eapply log_grows_trans | destruct Hp5; congruence |].
       exists our. split; [destruct Hp5; congruence|].
       split; [destruct He5 as [->| ->]; auto|]. exists l. split; [done|]. congruence. }
  destruct H5 as (Ht5 & Hp5 & Hl5 & cls1 & cls2 & l & Hreg5 & Hcls1 & Hcls2 & Hdesc).
  (* the tail *)
  pose proof (init_finish_spec w c flags l s5 Hreg5) as H6.
  destruct (init_finish w c flags s5) as [r6 s6|]; [|done].
  destruct H6 as (-> & Hreg6 & Ht6 & Hp6 & Hl6).
  assert (sail_codecs_path_static s6 = sail_codecs_path_static s1) as Hst6
    by (destruct Hp5, Hp6; congruence).
  assert (client_codecs_path_static s6 = client_codecs_path_static s3) as Hcs6
    by (destruct Hp5, Hp6; congruence).
  split_and!; [congruence | | congruence |].
  { eapply log_grows_trans; [|done]. by eapply log_grows_trans. }
  exists our. split; [congruence|]. split; [congruence|].
  exists cls1, cls2, l. rewrite Hcs6. by split_and!.
Qed.

End InitSpec.

(** * Properties of the specification *)

(** ** Compression levels *)

(** C7. [is_valid] is true exactly when [level_min < level_max] and
    [level_min <= level_default <= level_max] (the comparisons of
    binary64); [level_step] plays no part. In particular
    {min 1, max 9, default 6} is valid, {min 5, max 5, default 5} is not
    (the minimum must be strictly below the maximum) and
    {min 0, max 10, default 15} is not (the default is out of range). *)
Theorem compression_level_is_valid :
  (∀ d : sail_compression_level,
     compression_level.is_valid d = true ↔
     PrimFloat.ltb (level_min d) (level_max d) = true ∧
     PrimFloat.leb (level_min d) (level_default d) = true ∧
     PrimFloat.leb (level_default d) (level_max d) = true) ∧
  (∀ lo hi dflt step step',
     compression_level.is_valid
       {| level_min := lo; level_max := hi; level_default := dflt; level_step := step |} =
     compression_level.is_valid
       {| level_min := lo; level_max := hi; level_default := dflt; level_step := step' |}) ∧
  compression_level.is_valid
    {| level_min := 1; level_max := 9; level_default := 6; level_step := 1 |} = true ∧
  compression_level.is_valid
    {| level_min := 5; level_max := 5; level_default := 5; level_step := 1 |} = false ∧
  compression_level.is_valid
    {| level_min := 0; level_max := 10; level_default := 15; level_step := 1 |} = false.
Proof.
  split_and!; try reflexivity.
  intros d. unfold compression_level.is_valid.
  rewrite !andb_true_iff. tauto.
Qed.

(** ** Module path derivation *)

Section BuildProperties.

Variable w : world.

Lemma strstr_at_prefix full pre post off :
  full = pre +:+ ".codec.info" +:+ post →
  strstr full ".codec.info" = Some off →
  off = strlen pre →
  str_take off full = pre.
Proof. intros -> _ ->. apply str_take_append. Qed.

(** When nothing is in its way, [build_codec_from_codec_info] makes a
    new node that holds the parsed metadata and the derived path. *)
Lemma build_codec_from_codec_info_ok full off i s :
  strstr full ".codec.info" = Some off →
  malloc_ok w (mallocs s) = true →
  malloc_ok w (S (mallocs s)) = true →
  codec_read_info w full = Ok i →
  ∃ a s',
    build_codec_from_codec_info w full s = Done (Ok a) s' ∧
    nodes s !! a = None ∧
    contexts s' = contexts s ∧
    nodes s' =
      <[a := descriptor_node
               (set_ci_path (Some (str_take off full +:+ "." +:+ LIB_SUFFIX w)) i)]> (nodes s).
Proof.
  intros Hoff Hm1 Hm2 Hread.
  pose proof (build_codec_from_codec_info_spec w full s) as H.
  destruct (build_codec_from_codec_info w full s) as [[a|e] s'|]; [| |done].
  - destruct H as (Hc & _ & _ & _ & Ha & _ & _ & d & Hd & Hn).
    exists a, s'. split_and!; [done..|].
    unfold descriptor_of, module_path_of in Hd. rewrite Hoff, Hread in Hd. simpl in Hd.
    by injection Hd as <-.
  - destruct H as (_ & _ & _ & _ & _ & [[? _]|[_ [[? _]|[(_ & ? & _)|(_ & _ & ?)]]]]);
      congruence.
Qed.

(** C3. Module path derivation. For a metadata path that contains
    ".codec.info", the derived module path is the text [pre] before it
    (before its first occurrence: no shorter prefix is followed by
    ".codec.info"), a dot and the platform's module suffix: the
    descriptor node that [build_codec_from_codec_info] returns carries it
    (given that the two allocations succeed and the metadata parses). For
    a path that does not contain ".codec.info" the function fails (with
    the status SAIL_ERROR_MEMORY_ALLOCATION), allocates nothing and
    leaves the node heap as it was: no malformed path is produced. *)
Theorem module_path_derivation (full : string) (s : state) :
  (∀ pre post i,
     full = pre +:+ ".codec.info" +:+ post →
     (∀ a b, full = a +:+ ".codec.info" +:+ b → strlen pre ≤ strlen a) →
     malloc_ok w (mallocs s) = true →
     malloc_ok w (S (mallocs s)) = true →
     codec_read_info w full = Ok i →
     ∃ a s',
       build_codec_from_codec_info w full s = Done (Ok a) s' ∧
       nodes s' !! a =
         Some {| codec_info := Some (set_ci_path (Some (pre +:+ "." +:+ LIB_SUFFIX w)) i);
                 codec := None; next := None |}) ∧
  ((∀ pre post, full ≠ pre +:+ ".codec.info" +:+ post) →
   ∃ s',
     build_codec_from_codec_info w full s = Done (Err SAIL_ERROR_MEMORY_ALLOCATION) s' ∧
     nodes s' = nodes s ∧ mallocs s' = mallocs s).
Proof.
  split.
  - intros pre post i Hfull Hfirst Hm1 Hm2 Hread.
    pose proof (strstr_first_occurrence _ _ _ _ Hfull Hfirst) as Hoff.
    destruct (build_codec_from_codec_info_ok full _ i s Hoff Hm1 Hm2 Hread)
      as (a & s' & Hrun & _ & _ & Hn).
    exists a, s'. split; [done|]. rewrite Hn, lookup_insert_eq.
    by rewrite (strstr_at_prefix full pre post (strlen pre)).
  - intros Hnone.
    assert (strstr full ".codec.info" = None) as Hoff.
    { destruct (strstr full ".codec.info") as [off|] eqn:Hoff; [|done].
      destruct (strstr_Some _ _ _ Hoff) as (r & Hr & _). by destruct (Hnone _ _ Hr). }
    unfold build_codec_from_codec_info. rewrite Hoff. munfold. simpl. eauto.
Qed.

End BuildProperties.

(** ** The directory walk *)

Section WalkProperties.

Variable w : world.

(** A round of the [readdir] loop on a regular file with ".codec.info"
    in its path comes down to building and registering the descriptor. *)
Lemma scan_entry_posix_selected c dir name last s :
  malloc_ok w (mallocs s) = true →
  sail_is_file w (full_path_of w dir name) = true →
  strstr (full_path_of w dir name) ".codec.info" ≠ None →
  scan_entry_posix w c dir name last s =
  (r <- try (build_codec_from_codec_info w (full_path_of w dir name)) ;;
   match r with
   | Ok node => store_slot c last (Some node) ;; ret (SlotNext node)
   | Err _ => ret last
   end)
    (set_log (λ l, l ++ [ {| log_lvl := LOG_DEBUG; log_fmt := "Found codec info '%s'";
                            log_args := [ArgStr name] |} ]) (set_mallocs S s)).
Proof.
  intros Hm Hfile Hsuffix.
  unfold scan_entry_posix. unfold bind at 1. unfold try at 1.
  rewrite build_full_path_run, Hm, Hfile, bool_decide_true by done.
  done.
Qed.

(** C10. On POSIX an entry is taken for a codec descriptor as soon as
    ".codec.info" occurs somewhere in its full path, whatever follows
    it: for a regular file whose full path is [pre], ".codec.info" and
    any [post] ([pre] being the text before the first occurrence) the
    metadata parser is run on it; if it parses, a descriptor is appended
    whose module path is the full path cut at that first occurrence,
    [pre], followed by ".so"; if it does not, the entry is skipped. (The
    three allocations of the round are assumed to succeed.) *)
Theorem codec_info_matched_anywhere (c : addr) (dir name pre post : string)
    (l : list (addr * sail_codec_info)) (s : state) :
  platform w = POSIX →
  registry s c l →
  full_path_of w dir name = pre +:+ ".codec.info" +:+ post →
  (∀ a b, full_path_of w dir name = a +:+ ".codec.info" +:+ b → strlen pre ≤ strlen a) →
  sail_is_file w (full_path_of w dir name) = true →
  malloc_ok w (mallocs s) = true →
  malloc_ok w (S (mallocs s)) = true →
  malloc_ok w (S (S (mallocs s))) = true →
  match codec_read_info w (full_path_of w dir name) with
  | Ok i =>
      ∃ a s',
        scan_entry_posix w c dir name (last_slot l) s = Done (Ok (SlotNext a)) s' ∧
        registry s' c (l ++ [(a, set_ci_path (Some (pre +:+ ".so")) i)])
  | Err _ =>
      ∃ s',
        scan_entry_posix w c dir name (last_slot l) s = Done (Ok (last_slot l)) s' ∧
        registry s' c l
  end.
Proof.
  intros Hplat Hreg Hfull Hfirst Hfile Hm0 Hm1 Hm2.
  pose proof (strstr_first_occurrence _ _ _ _ Hfull Hfirst) as Hoff.
  rewrite (scan_entry_posix_selected c dir name (last_slot l) s) by (by rewrite ?Hoff).
  set (s1 := set_log _ _).
  assert (registry s1 c l) as Hreg1 by (eapply registry_same; [..|done]; done).
  destruct (codec_read_info w (full_path_of w dir name)) as [i|e] eqn:Hread.
  - destruct (build_codec_from_codec_info_ok w _ _ i s1 Hoff Hm1 Hm2 Hread)
      as (a & s2 & Hrun & Ha & Hc & Hn).
    destruct (store_slot_append c l s1 s2 a _ Hreg1 Ha Hc Hn)
      as (s3 & Hstore & Hreg3 & _).
    exists a, s3. unfold bind at 1. unfold try. rewrite Hrun.
    unfold bind. rewrite Hstore. unfold ret. split; [done|].
    rewrite (strstr_at_prefix _ pre post (strlen pre)) in Hreg3 by done.
    unfold LIB_SUFFIX in Hreg3. by rewrite Hplat in Hreg3.
  - pose proof (build_codec_from_codec_info_spec w (full_path_of w dir name) s1) as H.
    unfold bind at 1. unfold try.
    destruct (build_codec_from_codec_info w (full_path_of w dir name) s1)
      as [[a|e'] s2|]; [| |done].
    + destruct H as (_ & _ & _ & _ & _ & _ & _ & d & Hd & _).
      unfold descriptor_of in Hd. rewrite Hread in Hd. by destruct (module_path_of _ _).
    + destruct H as (Hc & _ & _ & _ & Hn & _).
      exists s2. unfold ret. split; [done|]. by eapply registry_same.
Qed.

Lemma descriptors_length cls :
  length (descriptors cls) + length (filter (λ cl, is_malformed cl = true) cls) = length cls.
Proof.
  induction cls as [|cl cls IH]; [done|].
  unfold descriptors in *.
  destruct cl; [rewrite filter_cons_False by (simpl; congruence)
               | rewrite filter_cons_True by done ..];
    cbn [omap list_omap valid_descriptor length]; lia.
Qed.

(** Without allocation failures the class of an entry is decided by the
    file system and the parser alone. *)
Lemma descriptors_registered dir names cls :
  (∀ k, malloc_ok w k = true) →
  Forall2 (classifies w dir) names cls →
  descriptors cls = omap (registered_descriptor w dir) names.
Proof.
  intros Hm. unfold descriptors.
  induction 1 as [|name cl names cls Hcl _ IH]; [done|].
  cbn [omap list_omap]. rewrite IH. clear IH. unfold registered_descriptor.
  destruct Hcl as [d Hfile Hd|k Hk|Hplat Hfile|Hs|k Hk|e Hs He]; cbn [valid_descriptor].
  - rewrite Hd. destruct (platform w); [by rewrite Hfile|done].
  - by rewrite Hm in Hk.
  - by rewrite Hplat, Hfile.
  - unfold descriptor_of, module_path_of. rewrite Hs. simpl.
    by destruct (platform w), (sail_is_file w (full_path_of w dir name)).
  - by rewrite Hm in Hk.
  - unfold descriptor_of. rewrite He.
    by destruct (platform w), (sail_is_file w (full_path_of w dir name)),
         (module_path_of w (full_path_of w dir name)).
Qed.

End WalkProperties.

(** ** Initialization *)

Section InitProperties.

Variable w : world.

(** The valid entries are picked out of the listing in its order, and
    the descriptor of each is a function of its path. *)
Lemma classified_sublist dir names cls :
  Forall2 (classifies w dir) names cls →
  ∃ sel, sel `sublist_of` names ∧
         Some <$> descriptors cls = (λ n, descriptor_of w (full_path_of w dir n)) <$> sel.
Proof.
  induction 1 as [|name cl names cls Hcl _ (sel & Hsub & Hsel)].
  - exists []. split; [constructor | done].
  - destruct Hcl as [d _ Hd| | | | |].
    + exists (name :: sel). split; [by constructor|].
      unfold descriptors in *. cbn [omap list_omap valid_descriptor fmap list_fmap].
      rewrite Hd. f_equal. exact Hsel.
    + exists sel. split; [by constructor | done].
    + exists sel. split; [by constructor | done].
    + exists sel. split; [by constructor | done].
    + exists sel. split; [by constructor | done].
    + exists sel. split; [by constructor | done].
Qed.

(** C1, as the code has it. A failure of [update_lib_path], on the
    primary path or on the secondary one, ends [init_context] with the
    error of [update_lib_path], before any directory is walked: the
    registry of the new context is empty and no node was allocated. *)
Theorem lib_path_failure_aborts (c : addr) (flags : Z) (s s' : state) (e : sail_error) :
  contexts s !! c = Some fresh_context →
  primary_update_fails w c s e s' ∨ (∃ p, secondary_update_fails w c s p e s') →
  init_context w (Some c) flags s = Done (Err e) s' ∧
  registry s' c [] ∧
  nodes s' = nodes s.
Proof.
  intros Hx Hfail. rewrite init_context_fresh by done.
  pose proof (registry_init_mark w c s) as Hreg0.
  assert (nodes (init_mark w c s) = nodes s) as Hn0 by done.
  destruct Hfail as [(our & s1 & Hsail & Hupd)|(p & our & s1 & s2 & s3 & Hsail & Hupd & Hclient & Hupd2)].
  - unfold bind at 1. rewrite Hsail. unfold bind at 1. rewrite Hupd.
    pose proof (sail_codecs_path_spec w (init_mark w c s)) as H1. rewrite Hsail in H1.
    destruct H1 as (Hh1 & _).
    destruct our as [our|]; [|by unfold update_lib_path in Hupd].
    pose proof (update_lib_path_spec w our s1) as H2. rewrite Hupd in H2.
    destruct H2 as (Hh2 & _).
    split; [done|]. split.
    + by eapply registry_heap_same, registry_heap_same.
    + destruct Hh1 as (_ & ? & _), Hh2 as (_ & ? & _). congruence.
  - unfold bind at 1. rewrite Hsail. unfold bind at 1. rewrite Hupd.
    unfold bind at 1. rewrite Hclient. unfold bind at 1. rewrite Hupd2.
    pose proof (sail_codecs_path_spec w (init_mark w c s)) as H1. rewrite Hsail in H1.
    destruct H1 as (Hh1 & _).
    destruct our as [our|]; [|by unfold update_lib_path in Hupd].
    pose proof (update_lib_path_spec w our s1) as H2. rewrite Hupd in H2.
    destruct H2 as (Hh2 & _).
    pose proof (client_codecs_path_spec s2) as H3. rewrite Hclient in H3.
    destruct H3 as (Hh3 & _).
    pose proof (update_lib_path_spec w p s3) as H4. rewrite Hupd2 in H4.
    destruct H4 as (Hh4 & _).
    split; [done|]. split.
    + by eapply registry_heap_same, registry_heap_same, registry_heap_same,
        registry_heap_same.
    + destruct Hh1 as (_ & ? & _), Hh2 as (_ & ? & _), Hh3 as (_ & ? & _), Hh4 as (_ & ? & _).
      congruence.
Qed.

Lemma init_context_initialized c flags s :
  marked s c → init_context w (Some c) flags s = Done (Ok tt) s.
Proof.
  intros (x & Hx & Hi). rewrite init_context_unfold. unfold bind.
  by rewrite load_context_run, Hx, Hi.
Qed.

(** C2. Idempotent initialization. Once [init_context] has returned on a
    context, with [SAIL_OK] or with an error, a second call (with any
    flags) returns [SAIL_OK] at once: the state after it is the state
    before it, so nothing was discovered, allocated or logged again and
    the registry, contents and order, is the one the first call left. *)
Theorem ensure_initialized_idempotent (c : addr) (flags flags' : Z) (s s1 : state)
    (r : result unit) :
  init_context w (Some c) flags s = Done r s1 →
  init_context w (Some c) flags' s1 = Done (Ok tt) s1 ∧
  ∀ l, registry s1 c l →
       ∀ s2, init_context w (Some c) flags' s1 = Done (Ok tt) s2 → registry s2 c l.
Proof.
  intros Hrun. apply init_context_marks in Hrun.
  pose proof (init_context_initialized c flags' s1 Hrun) as H2.
  split; [done|]. intros l Hreg s2 Hrun2. rewrite H2 in Hrun2. by injection Hrun2 as <-.
Qed.

(** C9. The flag is set before any discovery work. If [init_context]
    returns an error, the context was not initialized before the call, is
    marked initialized after it, and every later call returns [SAIL_OK]
    at once in an unchanged state: discovery is not tried again. *)
Theorem failed_init_stays_initialized (c : addr) (flags : Z) (s s1 : state) (e : sail_error) :
  init_context w (Some c) flags s = Done (Err e) s1 →
  (∃ x, contexts s !! c = Some x ∧ initialized x = false) ∧
  (∃ x1, contexts s1 !! c = Some x1 ∧ initialized x1 = true) ∧
  ∀ flags', init_context w (Some c) flags' s1 = Done (Ok tt) s1.
Proof.
  intros Hrun. split_and!.
  - rewrite init_context_unfold in Hrun. unfold bind at 1 in Hrun.
    rewrite load_context_run in Hrun.
    destruct (contexts s !! c) as [x|]; [|done]. exists x. split; [done|].
    by destruct (initialized x).
  - by eapply init_context_marks.
  - intros flags'. eapply init_context_initialized, init_context_marks. done.
Qed.

End InitProperties.

(** ** Destruction *)

Section Destroy.

Variable w : world.

(** [destroy_codec_info_node_chain] on a chain that reaches NULL frees
    exactly its nodes, with fuel to spare. *)
Lemma destroy_chain_from_spec fuel p l s :
  chain (nodes s) p l → length l ≤ fuel →
  ∃ s', destroy_chain_from fuel p s = Done (Ok tt) s' ∧
        contexts s' = contexts s ∧ tls_context s' = tls_context s ∧
        paths_same s s' ∧ log s' = log s ∧ mallocs s' = mallocs s ∧
        nodes s' = foldl (λ h a, delete a h) (nodes s) l.*1.
Proof.
  revert fuel p s. induction l as [|[a i] l IH]; intros fuel p s Hc Hfuel.
  - simpl in Hc. subst p. exists s. destruct fuel; simpl; by split_and!.
  - pose proof (chain_NoDup _ _ _ Hc) as Hnd. apply NoDup_cons in Hnd as [Ha Hnd].
    destruct Hc as [-> (n & Hn & Hi & Hc)]. simpl in Hfuel.
    destruct fuel as [|fuel]; [lia|]. simpl.
    unfold destroy_codec_info_node. munfold. rewrite Hn. simpl. rewrite Hn. simpl.
    destruct (IH fuel (next n) (set_nodes (delete a) s))
      as (s' & Hrun & Hc' & Ht' & Hp' & Hl' & Hm' & Hn').
    + simpl. eapply chain_frame; [|done]. intros b Hb.
      apply lookup_delete_ne. intros ->. done.
    + lia.
    + exists s'. rewrite Hrun. by split_and!.
Qed.

End Destroy.

(** ** The public functions keep states well formed *)

Section WellFormed.

Variable w : world.

Lemma initial_state_well_formed : well_formed initial_state.
Proof. split; [intros H; discriminate H | intros c H; discriminate H]. Qed.

Lemma well_formed_singleton_ok s : well_formed s → singleton_ok s.
Proof. intros [_ H] c Hc. destruct (H c Hc) as (x & l & ? & ? & _). eauto. Qed.

Lemma fresh_context_None (h : gmap addr sail_context) : h !! fresh (dom h) = None.
Proof. apply not_elem_of_dom, is_fresh. Qed.

(** SAIL_CONTEXT_ALLOCATE gives the singleton, making it first if need
    be. *)
Lemma control_tls_context_allocate_spec cell s :
  well_formed s →
  match control_tls_context w (Some cell) SAIL_CONTEXT_ALLOCATE s with
  | Stuck => False
  | Done (Ok context) s' =>
      well_formed s' ∧ ∃ c, context = Some (Some c) ∧ tls_context s' = Some c
  | Done (Err e) s' => well_formed s' ∧ e = SAIL_ERROR_MEMORY_ALLOCATION
  end.
Proof.
  intros Hwf. unfold control_tls_context, alloc_context. munfold. simpl.
  destruct (tls_context s) as [c|] eqn:Htls; simpl.
  - rewrite Htls. split; [done | eauto].
  - destruct Hwf as [Hp _]. destruct (malloc_ok w (mallocs s)); simpl.
    + split; [|eauto]. split; [done|]. simpl. intros c [= <-].
      exists fresh_context, []. rewrite lookup_insert_eq. by split_and!.
    + split; [|done]. split; [done|]. simpl. intros c Hc. by rewrite Htls in Hc.
Qed.

(** The entry point of the library: the singleton comes back
    initialized, and the state stays well formed whatever is returned. *)
Lemma current_tls_context_with_flags_spec cell flags s :
  well_formed s →
  match current_tls_context_with_flags w (Some cell) flags s with
  | Stuck => platform w = WIN32
  | Done r s' =>
      well_formed s' ∧
      ∀ context, r = Ok context →
                 ∃ c, context = Some (Some c) ∧ tls_context s' = Some c ∧ marked s' c
  end.
Proof.
  intros Hwf.
  change (current_tls_context_with_flags w (Some cell) flags s)
    with ((context <- control_tls_context w (Some cell) SAIL_CONTEXT_ALLOCATE ;;
           cell <- deref context ;;
           init_context w cell flags ;;
           ret context) s).
  unfold bind at 1.
  pose proof (control_tls_context_allocate_spec cell s Hwf) as Ha.
  destruct (control_tls_context w (Some cell) SAIL_CONTEXT_ALLOCATE s)
    as [[context|e] s1|]; [| |done].
  2: { destruct Ha as [Hwf1 _]. split; [done|]. by intros ? [=]. }
  destruct Ha as ([Hp1 Hs1] & c & -> & Htls1).
  unfold bind at 1. unfold deref, ret at 1.
  destruct (Hs1 c Htls1) as (x & l & Hx & Hch & Hfresh).
  unfold bind at 1.
  destruct (initialized x) eqn:Hi.
  - rewrite (init_context_initialized w c flags s1) by (by exists x).
    unfold ret. split; [by split|]. intros ? [= <-]. exists c. split_and!; [done..|].
    by exists x.
  - assert (x = fresh_context) as ->.
    { destruct x as [i n]. simpl in *. subst i. by rewrite (Hfresh eq_refl). }
    pose proof (init_context_spec w c flags s1 Hx Hp1) as Hinit.
    destruct (init_context w (Some c) flags s1) as [r s2|]; [|done].
    destruct Hinit as (Ht2 & _ & Hcalled & our & Hour & Hr).
    assert (well_formed s2 ∧ marked s2 c) as [Hwf2 Hm2].
    { assert (∃ l2, registry s2 c l2) as (l2 & x2 & Hx2 & Hi2 & Hch2).
      { destruct r as [[]|e]; [destruct Hr as (_ & _ & _ & l2 & ? & _)
                              | destruct Hr as (_ & l2 & ? & _)]; eauto. }
      split; [|by exists x2]. split.
      - intros _. by rewrite Hour.
      - intros c' Hc'. rewrite Ht2, Htls1 in Hc'. injection Hc' as <-.
        exists x2, l2. split_and!; [done..|]. by rewrite Hi2. }
    destruct r as [[]|e]; unfold ret; (split; [done|]).
    + intros ? [= <-]. exists c. split_and!; [done| congruence | done].
    + by intros ? [=].
Qed.

(** SAIL_CONTEXT_DESTROY on a well-formed state: the chain and the
    context are freed, the slot is cleared. *)
Lemma control_tls_context_destroy_run context s :
  singleton_ok s →
  ∃ s1,
    control_tls_context w context SAIL_CONTEXT_DESTROY s = Done (Ok context) s1 ∧
    tls_context s1 = None ∧ paths_same s s1 ∧ mallocs s1 = mallocs s ∧
    match tls_context s with
    | Some c => contexts s1 = delete c (contexts s)
    | None => contexts s1 = contexts s ∧ nodes s1 = nodes s
    end.
Proof.
  intros Hok. destruct (tls_context s) as [c|] eqn:Htls.
  - destruct (Hok c Htls) as (x & l & Hx & Hch).
    destruct (destroy_chain_from_spec (size (nodes s)) (codec_info_node x) l
                (set_log (λ l0, l0 ++ [ {| log_lvl := LOG_DEBUG;
                                           log_fmt := "Destroyed the thread-local context %p";
                                           log_args := [ArgPtr (Some c)] |} ]) s))
      as (s' & Hrun & Hc' & Ht' & Hp' & Hl' & Hm' & Hn'); [done | by eapply chain_length |].
    exists (set_tls_context None (set_contexts (delete c) s')). split.
    { unfold control_tls_context, destroy_context, destroy_codec_info_node_chain.
      munfold. simpl. rewrite Htls. simpl. rewrite Hx. simpl. simpl in Hrun.
      rewrite Hrun. done. }
    simpl. split_and!; [done | | done | by rewrite Hc'].
    destruct Hp'. by split.
  - exists (set_tls_context None
              (set_log (λ l0, l0 ++ [ {| log_lvl := LOG_DEBUG;
                                         log_fmt := "Destroyed the thread-local context %p";
                                         log_args := [ArgPtr None] |} ]) s)).
    split.
    { unfold control_tls_context, destroy_context. munfold. simpl. by rewrite Htls. }
    by split_and!.
Qed.

Lemma control_tls_context_destroy_well_formed context s :
  well_formed s →
  ∃ s1, control_tls_context w context SAIL_CONTEXT_DESTROY s = Done (Ok context) s1 ∧
        well_formed s1.
Proof.
  intros Hwf. pose proof Hwf as [Hp _].
  destruct (control_tls_context_destroy_run context s (well_formed_singleton_ok s Hwf))
    as (s1 & Hrun & Ht & [Hp1 _] & _).
  exists s1. split; [done|]. split.
  - unfold paths_ok. by rewrite Hp1.
  - intros c Hc. by rewrite Ht in Hc.
Qed.

Lemma control_tls_context_fetch_run cell s :
  control_tls_context w (Some cell) SAIL_CONTEXT_FETCH s = Done (Ok (Some (tls_context s))) s.
Proof. done. Qed.

(** C8. Destroy releases everything. [control_tls_context] with
    SAIL_CONTEXT_DESTROY returns [SAIL_OK], frees the singleton and
    clears the slot, so that SAIL_CONTEXT_FETCH then gives NULL; a
    destroy with an empty slot, such as a second destroy in a row,
    returns [SAIL_OK] and changes neither heap nor slot (it writes its
    debug line only). *)
Theorem destroy_clears_singleton (context : option (option addr)) (cell : option addr)
    (s : state) :
  singleton_ok s →
  ∃ s1,
    control_tls_context w context SAIL_CONTEXT_DESTROY s = Done (Ok context) s1 ∧
    tls_context s1 = None ∧
    (∀ c, tls_context s = Some c → contexts s1 !! c = None) ∧
    (tls_context s = None →
     contexts s1 = contexts s ∧ nodes s1 = nodes s ∧ mallocs s1 = mallocs s) ∧
    control_tls_context w (Some cell) SAIL_CONTEXT_FETCH s1 = Done (Ok (Some None)) s1 ∧
    ∃ s2,
      control_tls_context w context SAIL_CONTEXT_DESTROY s1 = Done (Ok context) s2 ∧
      tls_context s2 = None ∧ contexts s2 = contexts s1 ∧ nodes s2 = nodes s1 ∧
      mallocs s2 = mallocs s1.
Proof.
  intros Hok.
  destruct (control_tls_context_destroy_run context s Hok) as (s1 & Hrun & Ht & _ & Hm & Hh).
  assert (singleton_ok s1) as Hok1 by (intros c Hc; by rewrite Ht in Hc).
  destruct (control_tls_context_destroy_run context s1 Hok1)
    as (s2 & Hrun2 & Ht2 & _ & Hm2 & Hh2).
  rewrite Ht in Hh2. destruct Hh2 as [Hc2 Hn2].
  exists s1. split_and!; [done | done | | | | ].
  - intros c Hc. rewrite Hc in Hh. rewrite Hh. apply lookup_delete_eq.
  - intros Hnone. rewrite Hnone in Hh. by destruct Hh.
  - by rewrite control_tls_context_fetch_run, Ht.
  - exists s2. by split_and!.
Qed.

End WellFormed.

(** ** Reading a registry back *)

Lemma read_chain_sound fuel h p l : read_chain fuel h p = Some l → chain h p l.
Proof.
  revert p l. induction fuel as [|fuel IH]; intros [a|] l; simpl; try done.
  - by intros [= <-].
  - destruct (h !! a) as [n|] eqn:Hn; simpl; [|done].
    destruct (codec_info n) as [i|] eqn:Hi; simpl; [|done].
    destruct (read_chain fuel h (next n)) as [l'|] eqn:Hl; simpl; [|done].
    intros [= <-]. simpl. split; [done|]. exists n. split_and!; [done..|]. by apply IH.
  - by intros [= <-].
Qed.

Lemma read_registry_sound s c l : read_registry s c = Some l → registry s c l.
Proof.
  unfold read_registry. destruct (contexts s !! c) as [x|] eqn:Hx; simpl; [|done].
  destruct (initialized x) eqn:Hi; [|done]. intros Hl.
  exists x. split_and!; [done..|]. by eapply read_chain_sound.
Qed.

(** * The example installations *)

(** C5. The POSIX walk goes on when a directory cannot be listed: it
    logs the error and the user's path is walked. The Windows walk of the
    same installation does not: [init_context] returns
    SAIL_ERROR_LIST_DIR, the user's path is never walked and the registry
    stays empty. *)
Theorem unlistable_directory_aborts_on_windows :
  (init_context posix_unlistable_world (Some 0) 0 (ready_state user_path_environment)
   = Done (Ok tt)
       (final_state (init_context posix_unlistable_world (Some 0) 0
                       (ready_state user_path_environment)) initial_state) ∧
   list_dir_error_record "/x" ∈
     log (final_state (init_context posix_unlistable_world (Some 0) 0
                         (ready_state user_path_environment)) initial_state) ∧
   snd <$> default []
     (read_registry (final_state (init_context posix_unlistable_world (Some 0) 0
                                    (ready_state user_path_environment)) initial_state) 0)
   = [set_ci_path (Some "/y/png.so") (example_info "/y/png.codec.info")]) ∧
  (init_context win32_unlistable_world (Some 0) 0 (ready_state win32_user_path_environment)
   = Done (Err SAIL_ERROR_LIST_DIR)
       (final_state (init_context win32_unlistable_world (Some 0) 0
                       (ready_state win32_user_path_environment)) initial_state) ∧
   read_registry (final_state (init_context win32_unlistable_world (Some 0) 0
                                 (ready_state win32_user_path_environment)) initial_state) 0
   = Some [] ∧
   dir_entries win32_unlistable_world (Some "D:\mine") = ["png.codec.info"] ∧
   descriptor_of win32_unlistable_world
     (full_path_of win32_unlistable_world "D:\mine" "png.codec.info")
   = Some (set_ci_path (Some "D:\mine\png.dll") (example_info "D:\mine\png.codec.info"))).
Proof.
  split; split_and!; try (vm_compute; reflexivity).
  vm_compute. repeat constructor.
Qed.

Lemma ready_state_paths_ok environment : paths_ok (ready_state environment).
Proof. intros H. discriminate H. Qed.

Lemma marked_state_registry : registry marked_state 0 [].
Proof. apply read_registry_sound. vm_compute. reflexivity. Qed.

Lemma posix_initialized_run :
  init_context posix_world (Some 0) 1 (ready_state ∅) = Done (Ok tt) posix_initialized.
Proof. vm_compute. reflexivity. Qed.

Lemma posix_initialized_registry :
  registry posix_initialized 0 (default [] (read_registry posix_initialized 0)).
Proof. apply read_registry_sound. vm_compute. reflexivity. Qed.

Lemma posix_initialized_singleton_ok : singleton_ok posix_initialized.
Proof.
  intros c Hc. vm_compute in Hc. injection Hc as <-.
  destruct posix_initialized_registry as (x & Hx & _ & Hch). eauto.
Qed.

Lemma setenv_failed_run :
  init_context setenv_failing_world (Some 0) 0 (ready_state user_path_environment)
  = Done (Err SAIL_ERROR_ENV_UPDATE) setenv_failed.
Proof. vm_compute. reflexivity. Qed.

(** On [setenv_failing_world] the extension succeeds for "/x" (there is
    no "/x/lib") and fails for the user's path "/y". *)
Lemma setenv_failing_secondary :
  secondary_update_fails setenv_failing_world 0 (ready_state user_path_environment)
    "/y" SAIL_ERROR_ENV_UPDATE setenv_failed.
Proof.
  set (s0 := init_mark setenv_failing_world 0 (ready_state user_path_environment)).
  set (s1 := final_state (sail_codecs_path setenv_failing_world s0) initial_state).
  set (s2 := final_state (update_lib_path setenv_failing_world (Some "/x") s1) initial_state).
  set (s3 := final_state (client_codecs_path s2) initial_state).
  exists (Some "/x"), s1, s2, s3. split_and!; vm_compute; reflexivity.
Qed.

(** C1, as the specification states it, fails: on [setenv_failing_world]
    the extension fails on the secondary path only, and [init_context]
    does not return [SAIL_OK]. *)
Lemma secondary_failure_not_tolerated :
  ¬ secondary_failure_tolerated setenv_failing_world 0 0 (ready_state user_path_environment).
Proof.
  intros H.
  destruct (H "/y" SAIL_ERROR_ENV_UPDATE setenv_failed setenv_failing_secondary)
    as (s' & our & cls & l & Hrun & _).
  pose proof (eq_trans (eq_sym setenv_failed_run) Hrun) as E. discriminate E.
Qed.

(** * The properties on the example installations *)

Lemma module_path_derivation_witness :
  (∃ a s',
     build_codec_from_codec_info posix_world "/x/jpeg.codec.info" initial_state
       = Done (Ok a) s' ∧
     nodes s' !! a =
       Some {| codec_info :=
                 Some (set_ci_path (Some "/x/jpeg.so") (example_info "/x/jpeg.codec.info"));
               codec := None; next := None |}) ∧
  (∃ s',
     build_codec_from_codec_info posix_world "/x/readme.txt" initial_state
       = Done (Err SAIL_ERROR_MEMORY_ALLOCATION) s' ∧
     nodes s' = nodes initial_state ∧ mallocs s' = mallocs initial_state).
Proof.
  split.
  - apply (proj1 (module_path_derivation posix_world "/x/jpeg.codec.info" initial_state)
             "/x/jpeg" "" (example_info "/x/jpeg.codec.info")); try reflexivity.
    intros a b. by apply (strstr_least "/x/jpeg.codec.info" ".codec.info" 7).
  - apply (proj2 (module_path_derivation posix_world "/x/readme.txt" initial_state)).
    apply strstr_None. reflexivity.
Defined.

Lemma codec_info_matched_anywhere_witness :
  registry marked_state 0 [] ∧
  ∃ a s',
    scan_entry_posix posix_world 0 "/x" "jpeg.codec.info.bak" SlotHead marked_state
      = Done (Ok (SlotNext a)) s' ∧
    registry s' 0
      [(a, set_ci_path (Some "/x/jpeg.so") (example_info "/x/jpeg.codec.info.bak"))].
Proof.
  split; [exact marked_state_registry|].
  exact (codec_info_matched_anywhere posix_world 0 "/x" "jpeg.codec.info.bak" "/x/jpeg" ".bak"
           [] marked_state eq_refl marked_state_registry eq_refl
           (λ a b, strstr_least "/x/jpeg.codec.info.bak" ".codec.info" 7 a b eq_refl)
           eq_refl eq_refl eq_refl eq_refl).
Defined.

Lemma lib_path_failure_aborts_witness :
  contexts (ready_state user_path_environment) !! 0 = Some fresh_context ∧
  secondary_update_fails setenv_failing_world 0 (ready_state user_path_environment)
    "/y" SAIL_ERROR_ENV_UPDATE setenv_failed ∧
  init_context setenv_failing_world (Some 0) 0 (ready_state user_path_environment)
    = Done (Err SAIL_ERROR_ENV_UPDATE) setenv_failed ∧
  registry setenv_failed 0 [] ∧
  nodes setenv_failed = nodes (ready_state user_path_environment).
Proof.
  split; [reflexivity|]. split; [exact setenv_failing_secondary|].
  exact (lib_path_failure_aborts setenv_failing_world 0 0 (ready_state user_path_environment)
           setenv_failed SAIL_ERROR_ENV_UPDATE eq_refl
           (or_intror (ex_intro _ "/y" setenv_failing_secondary))).
Defined.

Lemma ensure_initialized_idempotent_witness :
  init_context posix_world (Some 0) 1 (ready_state ∅) = Done (Ok tt) posix_initialized ∧
  init_context posix_world (Some 0) 0 posix_initialized = Done (Ok tt) posix_initialized ∧
  ∀ l, registry posix_initialized 0 l →
       ∀ s2, init_context posix_world (Some 0) 0 posix_initialized = Done (Ok tt) s2 →
             registry s2 0 l.
Proof.
  split; [exact posix_initialized_run|].
  exact (ensure_initialized_idempotent posix_world 0 1 0 (ready_state ∅) posix_initialized
           (Ok tt) posix_initialized_run).
Defined.

Lemma failed_init_stays_initialized_witness :
  init_context setenv_failing_world (Some 0) 0 (ready_state user_path_environment)
    = Done (Err SAIL_ERROR_ENV_UPDATE) setenv_failed ∧
  (∃ x, contexts (ready_state user_path_environment) !! 0 = Some x ∧ initialized x = false) ∧
  (∃ x1, contexts setenv_failed !! 0 = Some x1 ∧ initialized x1 = true) ∧
  ∀ flags', init_context setenv_failing_world (Some 0) flags' setenv_failed
            = Done (Ok tt) setenv_failed.
Proof.
  split; [exact setenv_failed_run|].
  exact (failed_init_stays_initialized setenv_failing_world 0 0
           (ready_state user_path_environment) setenv_failed SAIL_ERROR_ENV_UPDATE
           setenv_failed_run).
Defined.

Lemma destroy_clears_singleton_witness :
  singleton_ok posix_initialized ∧
  ∃ s1,
    control_tls_context posix_world (Some (Some 0)) SAIL_CONTEXT_DESTROY posix_initialized
      = Done (Ok (Some (Some 0))) s1 ∧
    tls_context s1 = None ∧
    (∀ c, tls_context posix_initialized = Some c → contexts s1 !! c = None) ∧
    (tls_context posix_initialized = None →
     contexts s1 = contexts posix_initialized ∧ nodes s1 = nodes posix_initialized ∧
     mallocs s1 = mallocs posix_initialized) ∧
    control_tls_context posix_world (Some (Some 0)) SAIL_CONTEXT_FETCH s1
      = Done (Ok (Some None)) s1 ∧
    ∃ s2,
      control_tls_context posix_world (Some (Some 0)) SAIL_CONTEXT_DESTROY s1
        = Done (Ok (Some (Some 0))) s2 ∧
      tls_context s2 = None ∧ contexts s2 = contexts s1 ∧ nodes s2 = nodes s1 ∧
      mallocs s2 = mallocs s1.
Proof.
  split; [exact posix_initialized_singleton_ok|].
  exact (destroy_clears_singleton posix_world (Some (Some 0)) (Some 0) posix_initialized
           posix_initialized_singleton_ok).
Defined.

(** * Further properties of the code *)

(** ** Resolution of the search paths *)

Lemma strrchr_absent (s : string) (c : ascii) :
  (∀ a b, s ≠ a +:+ String c b) → strrchr s c = None.
Proof.
  induction s as [|x s IH]; intros Hno; [done|]. cbn [strrchr].
  rewrite IH.
  - destruct (decide (x = c)) as [->|]; [|done]. by destruct (Hno "" s).
  - intros a b ->. by destruct (Hno (String x a) b).
Qed.

Lemma strrchr_last (dir file : string) (c : ascii) :
  (∀ a b, file ≠ a +:+ String c b) →
  strrchr (dir +:+ String c file) c = Some (strlen dir).
Proof.
  intros Hno. induction dir as [|x dir IH].
  - rewrite append_nil_l. cbn [strrchr]. rewrite (strrchr_absent _ _ Hno).
    by destruct (decide (c = c)).
  - rewrite append_cons. cbn [strrchr]. by rewrite IH.
Qed.

Lemma strrchr_present (s a b : string) (c : ascii) :
  s = a +:+ String c b → strrchr s c ≠ None.
Proof.
  intros ->. induction a as [|x a IH].
  - rewrite append_nil_l. cbn [strrchr]. destruct (strrchr b c); [done|].
    by destruct (decide (c = c)).
  - rewrite append_cons. cbn [strrchr]. by destruct (strrchr (a +:+ String c b) c).
Qed.

Lemma strrchr_no_split (s : string) (c : ascii) :
  strrchr s c = None → ∀ a b, s ≠ a +:+ String c b.
Proof. intros H a b Hs. by apply (strrchr_present s a b c). Qed.

Section Resolution.

Variable w : world.



(** X3. On Windows, with SAIL_CODECS_PATH unset, the primary path is
    derived from the file name of the library: the text before its last
    backslash, followed by "\..\lib\sail\codecs" (by "\sail\codecs" in a
    vcpkg port). The environment is not written. *)
Theorem sail_codecs_path_win32_derived (s : state) (dir file : string) :
  platform w = WIN32 →
  codecs_path_called (sail_codecs_path_static s) = false →
  environ s !! "SAIL_CODECS_PATH" = None →
  GetModuleFileName w = ModuleFileName (dir +:+ "\" +:+ file) →
  (∀ a b, file ≠ a +:+ "\" +:+ b) →
  malloc_ok w (mallocs s) = true →
  ∃ s',
    sail_codecs_path w s =
      Done (Ok (Some (dir +:+ (if SAIL_VCPKG_PORT w then "\sail\codecs"
                               else "\..\lib\sail\codecs")))) s' ∧
    sail_codecs_path_static s' =
      {| codecs_path_called := true;
         env := Some (dir +:+ (if SAIL_VCPKG_PORT w then "\sail\codecs"
                               else "\..\lib\sail\codecs")) |} ∧
    environ s' = environ s.
Proof.
  intros Hplat Hcalled Henv Hname Hfile Hm.
  pose proof (strrchr_last dir file "\"%char Hfile) as Hsep.
  unfold sail_codecs_path, CODECS_RELATIVE_PATH. munfold.
  rewrite Hcalled, Hplat. simpl. rewrite Henv, Hname. simpl.
  change (dir +:+ "\" +:+ file) with (dir +:+ String "\"%char file).
  rewrite Hsep. simpl. rewrite Hm. simpl.
  rewrite str_take_append, append_nil_r. eauto.
Qed.

(** X4. On Windows the derivation never gives up: when the handle or the
    file name of the library cannot be had, or the file name holds no
    backslash, [sail_codecs_path] logs an error and answers the
    compiled-in SAIL_CODECS_PATH; it allocates nothing. *)
Theorem sail_codecs_path_win32_fallback (s : state) :
  platform w = WIN32 →
  codecs_path_called (sail_codecs_path_static s) = false →
  environ s !! "SAIL_CODECS_PATH" = None →
  (GetModuleFileName w = ModuleHandleFailed ∨
   GetModuleFileName w = ModuleFileNameFailed ∨
   ∃ path, GetModuleFileName w = ModuleFileName path ∧ ∀ a b, path ≠ a +:+ "\" +:+ b) →
  ∃ s' record,
    sail_codecs_path w s = Done (Ok (Some (SAIL_CODECS_PATH w))) s' ∧
    log s' = log s ++ [record] ∧ log_lvl record = LOG_ERROR ∧
    mallocs s' = mallocs s ∧ environ s' = environ s.
Proof.
  intros Hplat Hcalled Henv Hcause.
  unfold sail_codecs_path. munfold. rewrite Hcalled, Hplat. simpl. rewrite Henv. simpl.
  destruct Hcause as [Hname|[Hname|(path & Hname & Hfile)]]; rewrite Hname; simpl.
  - eauto 10.
  - eauto 10.
  - rewrite (strrchr_absent path "\"%char Hfile). simpl. eauto 10.
Qed.

End Resolution.

(** ** The loader path *)

(** Splits on the conditions of a case-by-case run lemma. *)
Ltac run_cases H :=
  repeat match type of H with
         | context [if negb ?b then _ else _] => destruct b eqn:?; simpl in H
         | context [if ?b then _ else _] => destruct b eqn:?; simpl in H
         end.

Section LoaderPath.

Variable w : world.

(** The run of [update_lib_path] on POSIX, case by case. *)
Lemma update_lib_path_posix_run (p : string) (s : state) :
  platform w = POSIX →
  let lib := p +:+ "/lib" in
  let combined := ld_library_path_after (environ s !! "LD_LIBRARY_PATH") lib in
  match update_lib_path w (Some p) s with
  | Stuck => False
  | Done r s' =>
      dll_directories s' = dll_directories s ∧
      if negb (malloc_ok w (mallocs s)) then
        r = Err SAIL_ERROR_MEMORY_ALLOCATION ∧ environ s' = environ s
      else if negb (sail_is_dir w lib) then
        r = Ok tt ∧ environ s' = environ s ∧ mallocs s' = S (mallocs s)
      else if negb (malloc_ok w (S (mallocs s))) then
        r = Err SAIL_ERROR_MEMORY_ALLOCATION ∧ environ s' = environ s
      else if setenv_ok w "LD_LIBRARY_PATH" combined then
        r = Ok tt ∧ environ s' = <["LD_LIBRARY_PATH" := combined]> (environ s) ∧
        mallocs s' = S (S (mallocs s))
      else r = Err SAIL_ERROR_ENV_UPDATE ∧ environ s' = environ s
  end.
Proof.
  intros Hplat lib combined. subst lib combined.
  unfold update_lib_path, ld_library_path_after. munfold. rewrite Hplat. simpl.
  rewrite !append_nil_r.
  destruct (malloc_ok w (mallocs s)); simpl; [|done].
  destruct (sail_is_dir w (p +:+ "/lib")); simpl; [|done].
  destruct (environ s !! "LD_LIBRARY_PATH") as [old|]; simpl;
    destruct (malloc_ok w (S (mallocs s))); simpl; try done;
    rewrite ?append_nil_r; destruct (setenv_ok w _ _); simpl; done.
Qed.

(** The run of [update_lib_path] on Windows, case by case. *)
Lemma update_lib_path_win32_run (p : string) (s : state) :
  platform w = WIN32 →
  let lib := p +:+ "\lib" in
  match update_lib_path w (Some p) s with
  | Stuck => False
  | Done r s' =>
      environ s' = environ s ∧
      if negb (malloc_ok w (mallocs s)) then
        r = Err SAIL_ERROR_MEMORY_ALLOCATION ∧ dll_directories s' = dll_directories s
      else if negb (sail_is_dir w lib) then
        r = Ok tt ∧ dll_directories s' = dll_directories s
      else if negb (malloc_ok w (S (mallocs s))) then
        r = Err SAIL_ERROR_MEMORY_ALLOCATION ∧ dll_directories s' = dll_directories s
      else if AddDllDirectory w lib then
        r = Ok tt ∧ dll_directories s' = dll_directories s ++ [lib]
      else r = Err SAIL_ERROR_ENV_UPDATE ∧ dll_directories s' = dll_directories s
  end.
Proof.
  intros Hplat lib. subst lib.
  unfold update_lib_path. munfold. rewrite Hplat. simpl.
  rewrite !append_nil_r.
  destruct (malloc_ok w (mallocs s)); simpl; [|done].
  destruct (sail_is_dir w (p +:+ "\lib")); simpl; [|done].
  destruct (malloc_ok w (S (mallocs s))); simpl; [|done].
  destruct (AddDllDirectory w (p +:+ "\lib")); simpl; done.
Qed.

(** X5. On POSIX [update_lib_path] writes one variable at most: when it
    returns SAIL_OK and "<path>/lib" is a directory, LD_LIBRARY_PATH is
    its old value, ":" and that directory (the directory alone if it was
    unset); in every other case, the errors included, the environment is
    as before. The DLL directories are not touched. *)
Theorem update_lib_path_posix_environment (p : string) (s : state) :
  platform w = POSIX →
  match update_lib_path w (Some p) s with
  | Stuck => False
  | Done r s' =>
      dll_directories s' = dll_directories s ∧
      (r = Ok tt → sail_is_dir w (p +:+ "/lib") = true →
       environ s' =
         <["LD_LIBRARY_PATH" :=
             ld_library_path_after (environ s !! "LD_LIBRARY_PATH") (p +:+ "/lib")]>
           (environ s)) ∧
      (r ≠ Ok tt ∨ sail_is_dir w (p +:+ "/lib") = false → environ s' = environ s)
  end.
Proof.
  intros Hplat. pose proof (update_lib_path_posix_run p s Hplat) as H. simpl in H.
  destruct (update_lib_path w (Some p) s) as [r s'|]; [|done].
  destruct H as [Hdll H]. split; [done|].
  run_cases H; intuition congruence.
Qed.

(** X6. Calls of [update_lib_path] accumulate: after two successful
    calls for directories that exist, LD_LIBRARY_PATH ends in the first
    directory, ":" and the second. A second call for the same path
    appends it once more. *)
Theorem update_lib_path_posix_accumulates (p q : string) (s s1 s2 : state) :
  platform w = POSIX →
  sail_is_dir w (p +:+ "/lib") = true →
  sail_is_dir w (q +:+ "/lib") = true →
  update_lib_path w (Some p) s = Done (Ok tt) s1 →
  update_lib_path w (Some q) s1 = Done (Ok tt) s2 →
  environ s2 !! "LD_LIBRARY_PATH" =
    Some (ld_library_path_after (environ s !! "LD_LIBRARY_PATH") (p +:+ "/lib")
          +:+ ":" +:+ q +:+ "/lib").
Proof.
  intros Hplat Hp Hq H1 H2.
  pose proof (update_lib_path_posix_run p s Hplat) as R1. simpl in R1.
  pose proof (update_lib_path_posix_run q s1 Hplat) as R2. simpl in R2.
  rewrite H1, Hp in R1. rewrite H2, Hq in R2.
  destruct R1 as [_ R1], R2 as [_ R2]. simpl in R1, R2.
  run_cases R1; try (by intuition congruence). run_cases R2; try (by intuition congruence).
  destruct R1 as (_ & E1 & _), R2 as (_ & E2 & _).
  rewrite E2, lookup_insert_eq, E1, lookup_insert_eq. done.
Qed.

(** X7. On Windows [update_lib_path] leaves the environment alone: when
    it returns SAIL_OK and "<path>\lib" is a directory, that directory is
    the newest DLL directory; in every other case the DLL directories
    are as before. *)
Theorem update_lib_path_win32_directories (p : string) (s : state) :
  platform w = WIN32 →
  match update_lib_path w (Some p) s with
  | Stuck => False
  | Done r s' =>
      environ s' = environ s ∧
      (r = Ok tt → sail_is_dir w (p +:+ "\lib") = true →
       dll_directories s' = dll_directories s ++ [p +:+ "\lib"]) ∧
      (r ≠ Ok tt ∨ sail_is_dir w (p +:+ "\lib") = false →
       dll_directories s' = dll_directories s)
  end.
Proof.
  intros Hplat. pose proof (update_lib_path_win32_run p s Hplat) as H. simpl in H.
  destruct (update_lib_path w (Some p) s) as [r s'|]; [|done].
  destruct H as [Henv H]. split; [done|].
  run_cases H; intuition congruence.
Qed.

End LoaderPath.

(** ** The life of the singleton *)

Section Lifecycle.

Variable w : world.

(** The record [SAIL_CHECK_CONTEXT_PTR] logs for a NULL pointer. *)
Lemma null_pointer_rejected {A} (s : state) :
  @SAIL_CHECK_CONTEXT_PTR A None s =
  Done (Err SAIL_ERROR_CONTEXT_NULL_PTR)
    (set_log (λ l, l ++ [ {| log_lvl := LOG_ERROR; log_fmt := "%s";
                            log_args := [ArgStr "SAIL_ERROR_CONTEXT_NULL_PTR"] |} ]) s).
Proof. done. Qed.

Lemma well_formed_set_log f s : well_formed s → well_formed (set_log f s).
Proof. done. Qed.

Lemma well_formed_set_environ f s : well_formed s → well_formed (set_environ f s).
Proof. done. Qed.

(** Every public call keeps a well-formed state well formed. It has no
    defined behaviour in two cases only: SAIL_CONTEXT_FETCH through a
    NULL pointer, and the Windows path resolution after a failed
    allocation. *)
Lemma run_call_well_formed (k : call) (s : state) :
  well_formed s →
  match run_call w k s with
  | Stuck => k = Control None SAIL_CONTEXT_FETCH ∨ platform w = WIN32
  | Done _ s' => well_formed s'
  end.
Proof.
  intros Hwf.
  assert (∀ context flags,
    match current_tls_context_with_flags w context flags s with
    | Stuck => platform w = WIN32
    | Done _ s' => well_formed s'
    end) as Hcur.
  { intros [cell|] flags.
    - pose proof (current_tls_context_with_flags_spec w cell flags s Hwf) as H.
      destruct (current_tls_context_with_flags w (Some cell) flags s); [|done].
      by destruct H.
    - done. }
  destruct k as [context action|context|context flags]; simpl.
  - destruct action.
    + destruct context as [cell|]; [|done].
      pose proof (control_tls_context_allocate_spec w cell s Hwf) as H.
      destruct (control_tls_context w (Some cell) SAIL_CONTEXT_ALLOCATE s) as [[?|?] ?|];
        [by destruct H..|done].
    + destruct context as [cell|]; [done | by left].
    + destruct (control_tls_context_destroy_well_formed w context s Hwf) as (s1 & -> & H).
      done.
  - specialize (Hcur context 0%Z). unfold current_tls_context.
    destruct (current_tls_context_with_flags w context 0 s); [done | by right].
  - specialize (Hcur context flags).
    destruct (current_tls_context_with_flags w context flags s); [done | by right].
Qed.


(** X8. SAIL_CONTEXT_ALLOCATE is idempotent: once it has returned a
    context, a second ALLOCATE and a FETCH return that same context and
    change nothing, not even the log. *)
Theorem allocate_then_fetch (cell cell' : option addr) (s s1 : state)
    (context : option (option addr)) :
  control_tls_context w (Some cell) SAIL_CONTEXT_ALLOCATE s = Done (Ok context) s1 →
  (∃ c, context = Some (Some c)) ∧
  control_tls_context w (Some cell') SAIL_CONTEXT_ALLOCATE s1 = Done (Ok context) s1 ∧
  control_tls_context w (Some cell') SAIL_CONTEXT_FETCH s1 = Done (Ok context) s1.
Proof.
  unfold control_tls_context, alloc_context. munfold. simpl.
  destruct (tls_context s) as [c|] eqn:Htls; simpl.
  - rewrite Htls. intros [= <- <-]. rewrite Htls. simpl. rewrite ?Htls. split_and!; eauto.
  - destruct (malloc_ok w (mallocs s)); simpl; [|done].
    intros [= <- <-]. simpl. split_and!; eauto.
Qed.

(** X9. SAIL_CONTEXT_ALLOCATE on an empty slot makes one context, at an
    address that was free, not initialized and with a NULL registry;
    every other context and every node is as before. When the
    allocation fails the slot stays empty and the heap is as before. *)
Theorem allocate_makes_fresh_context (cell : option addr) (s : state) :
  tls_context s = None →
  match control_tls_context w (Some cell) SAIL_CONTEXT_ALLOCATE s with
  | Stuck => False
  | Done (Ok context) s' =>
      ∃ c, context = Some (Some c) ∧ tls_context s' = Some c ∧
           contexts s !! c = None ∧
           contexts s' = <[c := fresh_context]> (contexts s) ∧
           nodes s' = nodes s
  | Done (Err e) s' =>
      e = SAIL_ERROR_MEMORY_ALLOCATION ∧ malloc_ok w (mallocs s) = false ∧
      tls_context s' = None ∧ contexts s' = contexts s ∧ nodes s' = nodes s
  end.
Proof.
  intros Htls. unfold control_tls_context, alloc_context. munfold. simpl.
  rewrite Htls. simpl. destruct (malloc_ok w (mallocs s)) eqn:Hm; simpl.
  - eexists. split_and!; try done.
    apply fresh_context_None.
  - by split_and!.
Qed.

(** X10. A NULL [context] pointer is refused before anything happens:
    SAIL_CONTEXT_ALLOCATE, [init_context], [current_tls_context] and
    [current_tls_context_with_flags] return SAIL_ERROR_CONTEXT_NULL_PTR
    and leave the state as it was but for the one error record.
    SAIL_CONTEXT_DESTROY never reads the pointer and works as usual;
    SAIL_CONTEXT_FETCH writes through it unchecked. *)
Theorem null_context_pointer (flags : Z) (s : state) :
  let s' :=
    set_log (λ l, l ++ [ {| log_lvl := LOG_ERROR; log_fmt := "%s";
                            log_args := [ArgStr "SAIL_ERROR_CONTEXT_NULL_PTR"] |} ]) s in
  control_tls_context w None SAIL_CONTEXT_ALLOCATE s =
    Done (Err SAIL_ERROR_CONTEXT_NULL_PTR) s' ∧
  init_context w None flags s = Done (Err SAIL_ERROR_CONTEXT_NULL_PTR) s' ∧
  current_tls_context_with_flags w None flags s =
    Done (Err SAIL_ERROR_CONTEXT_NULL_PTR) s' ∧
  current_tls_context w None s = Done (Err SAIL_ERROR_CONTEXT_NULL_PTR) s' ∧
  control_tls_context w None SAIL_CONTEXT_FETCH s = Stuck ∧
  (∀ cell, control_tls_context w None SAIL_CONTEXT_DESTROY s =
           match control_tls_context w (Some cell) SAIL_CONTEXT_DESTROY s with
           | Done (Ok _) s1 => Done (Ok None) s1
           | other => other
           end).
Proof.
  split_and!; try done. intros cell.
  unfold control_tls_context. munfold. simpl.
  by destruct (destroy_context _ _) as [[?|?] ?|].
Qed.

(** X11. Whatever sequence of public calls a thread makes, with whatever
    arguments and whatever it does to its environment in between, the
    state stays well formed: the primary path, once resolved, is not
    NULL, and the singleton, if there is one, is a live context whose
    descriptor chain reaches NULL and is empty until the context is
    initialized. *)
Theorem reachable_well_formed (s : state) :
  reachable w s → well_formed s.
Proof.
  induction 1 as [environment|k s r s' _ IH Hrun|f s _ IH].
  - apply well_formed_set_environ, initial_state_well_formed.
  - pose proof (run_call_well_formed k s IH) as H. by rewrite Hrun in H.
  - by apply well_formed_set_environ.
Qed.


End Lifecycle.

(** ** [init_context], end to end *)

Section InitPhases.

Variable w : world.

(** The run of [init_context] on a new context, cut into its phases:
    the primary path, its loader path, the secondary path, its loader
    path, the walk and the tail, with what is known after each. *)
Lemma init_context_phases c flags s r s' :
  contexts s !! c = Some fresh_context →
  init_context w (Some c) flags s = Done r s' →
  ∃ our s1 r2 s2,
    sail_codecs_path w (init_mark w c s) = Done (Ok (Some our)) s1 ∧
    heap_same (init_mark w c s) s1 ∧
    env (sail_codecs_path_static s1) = Some our ∧
    update_lib_path w (Some our) s1 = Done r2 s2 ∧
    heap_same s1 s2 ∧ paths_same s1 s2 ∧
    match r2 with
    | Err e => r = Err e ∧ s' = s2
    | Ok _ =>
        ∃ their s3 r4 s4,
          client_codecs_path s2 = Done (Ok their) s3 ∧
          heap_same s2 s3 ∧
          sail_codecs_path_static s3 = sail_codecs_path_static s2 ∧
          env (client_codecs_path_static s3) = their ∧
          (if their is Some _ then update_lib_path w their else ret tt) s3 = Done r4 s4 ∧
          heap_same s3 s4 ∧ paths_same s3 s4 ∧
          registry s4 c [] ∧
          match r4 with
          | Err e => r = Err e ∧ s' = s4
          | Ok _ =>
              ∃ r5 s5,
                foldM (scan_path w c) [Some our; their] SlotHead s4 = Done r5 s5 ∧
                paths_same s4 s5 ∧
                match r5 with
                | Err e =>
                    r = Err e ∧ s' = s5 ∧ platform w = WIN32 ∧
                    (e = SAIL_ERROR_MEMORY_ALLOCATION ∨ e = SAIL_ERROR_LIST_DIR)
                | Ok _ =>
                    ∃ cls1 cls2 l,
                      registry s5 c l ∧
                      Forall2 (classifies w our) (dir_entries w (Some our)) cls1 ∧
                      Forall2 (classifies w (default "" their)) (dir_entries w their) cls2 ∧
                      l.*2 = descriptors cls1 ++ descriptors cls2 ∧
                      init_finish w c flags s5 = Done (Ok tt) s' ∧
                      r = Ok tt ∧ registry s' c l ∧ paths_same s5 s'
                end
          end
    end.
Proof.
  intros Hx. rewrite init_context_fresh by done.
  pose proof (registry_init_mark w c s) as Hreg0.
  unfold bind at 1.
  pose proof (sail_codecs_path_spec w (init_mark w c s)) as H1.
  destruct (sail_codecs_path w (init_mark w c s)) as [r1 s1|]; [|done].
  destruct H1 as (Hh1 & _ & _ & _ & -> & _).
  destruct (env (sail_codecs_path_static s1)) as [our|] eqn:Hour; [|done].
  pose proof (registry_heap_same _ _ _ _ Hh1 Hreg0) as Hreg1.
  unfold bind at 1.
  pose proof (update_lib_path_spec w our s1) as F2.
  destruct (update_lib_path w (Some our) s1) as [r2 s2|] eqn:H2; [|done].
  destruct F2 as (Hh2 & Hp2 & _ & _).
  pose proof (registry_heap_same _ _ _ _ Hh2 Hreg1) as Hreg2.
  intros Hrun. exists our, s1, r2, s2. split_and!; [done..|].
  destruct r2 as [[]|e2]; [|by injection Hrun as <- <-].
  unfold bind at 1 in Hrun.
  pose proof (client_codecs_path_spec s2) as H3.
  destruct (client_codecs_path s2) as [r3 s3|] eqn:E3; [|done].
  destruct H3 as (Hh3 & _ & Hst3 & _ & ->).
  pose proof (registry_heap_same _ _ _ _ Hh3 Hreg2) as Hreg3.
  set (their := env (client_codecs_path_static s3)) in *.
  unfold bind at 1 in Hrun.
  assert (match (if their is Some _ then update_lib_path w their else ret tt) s3 with
          | Stuck => False
          | Done _ s4 => heap_same s3 s4 ∧ paths_same s3 s4
          end) as F4.
  { destruct their as [p|].
    - pose proof (update_lib_path_spec w p s3) as F.
      destruct (update_lib_path w (Some p) s3); [|done]. by destruct F as (? & ? & _).
    - split; [apply heap_same_refl | apply paths_same_refl]. }
  destruct ((if their is Some _ then update_lib_path w their else ret tt) s3)
    as [r4 s4|] eqn:H4; [|done].
  destruct F4 as (Hh4 & Hp4).
  pose proof (registry_heap_same _ _ _ _ Hh4 Hreg3) as Hreg4.
  exists their, s3, r4, s4. split_and!; [done..|].
  destruct r4 as [[]|e4]; [|by injection Hrun as <- <-].
  unfold bind at 1 in Hrun.
  pose proof (init_discover_spec w c our their s4 Hreg4) as F5.
  destruct (foldM (scan_path w c) [Some our; their] SlotHead s4) as [r5 s5|] eqn:H5; [|done].
  exists r5, s5. split; [done|].
  destruct r5 as [last|e5].
  - destruct F5 as (_ & Hp5 & _ & cls1 & cls2 & l & Hreg5 & Hcls1 & Hcls2 & Hdesc).
    split; [done|].
    pose proof (init_finish_spec w c flags l s5 Hreg5) as F6. rewrite Hrun in F6.
    destruct F6 as (-> & Hreg6 & _ & Hp6 & _).
    exists cls1, cls2, l. by split_and!.
  - destruct F5 as (Hplat & He5 & _ & Hp5 & _). injection Hrun as <- <-. by split_and!.
Qed.

End InitPhases.

(** ** Properties kept by the walk and by the tail *)

(** As [preserves_step], with the state updates left to [tac]. *)
Ltac keeps_step tac :=
  lazymatch goal with
  | |- preserves _ (ret _) => apply preserves_ret
  | |- preserves _ (fail _) => apply preserves_fail
  | |- preserves _ stuck => apply preserves_stuck
  | |- preserves _ get => apply preserves_get
  | |- preserves _ (deref _) => apply preserves_deref
  | |- preserves _ (modify _) => apply preserves_modify; intros ? ?; tac
  | |- preserves _ (try _) => apply preserves_try
  | |- preserves _ (bind _ _) => apply preserves_bind; [|intros ?]
  | |- preserves _ (match ?x with _ => _ end) => destruct x
  | |- preserves _ (let _ := _ in _) => cbv zeta
  end.

Ltac keeps_auto tac :=
  unfold SAIL_CHECK_CONTEXT_PTR, SAIL_LOG_AND_RETURN, SAIL_LOG_ERROR, SAIL_LOG_INFO,
    SAIL_LOG_DEBUG, sail_log, getenv, setenv, sail_concat, sail_strdup, sail_strdup_length,
    sail_to_wchar, sail_malloc, set_sail_env, set_client_env,
    store_node, load_node, store_context, load_context;
  repeat keeps_step tac.

Section Keeps.

Variable w : world.
Variable c : addr.
Variable P : state → Prop.

Hypothesis P_log : ∀ f s, P s → P (set_log f s).
Hypothesis P_mallocs : ∀ f s, P s → P (set_mallocs f s).
Hypothesis P_build : ∀ full, preserves P (build_codec_from_codec_info w full).
Hypothesis P_store : ∀ last node, preserves P (store_slot c last node).

(** A property kept by logging, by allocation requests, by the making of
    one descriptor and by its registration is kept by the walk. *)
Lemma keeps_scan_path codecs_path last : preserves P (scan_path w c codecs_path last).
Proof.
  assert (∀ full last,
    preserves P
      (r <- try (build_codec_from_codec_info w full) ;;
       match r with
       | Ok node => store_slot c last (Some node) ;; ret (SlotNext node)
       | Err _ => ret last
       end)) as Hbuild.
  { intros full last'. apply preserves_bind.
    - apply preserves_try, P_build.
    - intros [node|e]; [|apply preserves_ret].
      apply preserves_bind; [apply P_store | intros; apply preserves_ret]. }
  unfold scan_path. destruct codecs_path as [dir|]; [|apply preserves_ret].
  destruct (platform w).
  - destruct (opendir w dir) as [entries|];
      [|keeps_auto ltac:(first [by apply P_log | by apply P_mallocs])].
    apply preserves_foldM. intros name last'. unfold scan_entry_posix, build_full_path.
    apply preserves_bind; [keeps_auto ltac:(first [by apply P_log | by apply P_mallocs])|].
    intros [full|e]; [|apply preserves_ret].
    destruct (sail_is_file w full); [|apply preserves_ret]. cbv zeta.
    case_bool_decide; [|apply preserves_ret].
    apply preserves_bind; [keeps_auto ltac:(first [by apply P_log | by apply P_mallocs])
                          | intros; apply Hbuild].
  - cbv zeta.
    apply preserves_bind; [keeps_auto ltac:(first [by apply P_log | by apply P_mallocs])|].
    intros _.
    destruct (FindFirstFile w _) as [[first others]|];
      [|keeps_auto ltac:(first [by apply P_log | by apply P_mallocs])].
    apply preserves_bind;
      [|intros; keeps_auto ltac:(first [by apply P_log | by apply P_mallocs])].
    apply preserves_foldM. intros name last'. unfold scan_entry_win32, build_full_path.
    apply preserves_bind; [keeps_auto ltac:(first [by apply P_log | by apply P_mallocs])|].
    intros [full|e]; [|apply preserves_ret].
    apply preserves_bind; [keeps_auto ltac:(first [by apply P_log | by apply P_mallocs])
                          | intros; apply Hbuild].
Qed.

End Keeps.

(** ** The environment *)

Section Environment.

Variable w : world.
Variable Q : gmap string string → Prop.

(** A property of the environment is kept by everything but
    [update_lib_path]. *)
Lemma environ_sail_codecs_path : preserves (λ s, Q (environ s)) (sail_codecs_path w).
Proof. unfold sail_codecs_path. keeps_auto assumption. Qed.

Lemma environ_client_codecs_path : preserves (λ s, Q (environ s)) client_codecs_path.
Proof. unfold client_codecs_path. keeps_auto assumption. Qed.

Lemma environ_build_codec_from_codec_info full :
  preserves (λ s, Q (environ s)) (build_codec_from_codec_info w full).
Proof.
  unfold build_codec_from_codec_info, alloc_codec_info_node, destroy_codec_info_node.
  keeps_auto assumption.
Qed.

Lemma environ_store_slot c last node : preserves (λ s, Q (environ s)) (store_slot c last node).
Proof. unfold store_slot. keeps_auto assumption. Qed.

Lemma environ_scan_path c codecs_path last :
  preserves (λ s, Q (environ s)) (scan_path w c codecs_path last).
Proof.
  apply keeps_scan_path; [done | done | apply environ_build_codec_from_codec_info
                         | apply environ_store_slot].
Qed.

Lemma environ_preload_from fuel p : preserves (λ s, Q (environ s)) (preload_from w fuel p).
Proof.
  revert p. induction fuel as [|fuel IH]; intros [a|]; simpl; keeps_auto assumption.
  - unfold load_codec_by_codec_info. keeps_auto assumption.
  - apply IH.
Qed.

Lemma environ_print_from fuel p counter :
  preserves (λ s, Q (environ s)) (print_from fuel p counter).
Proof.
  revert p counter. induction fuel as [|fuel IH]; intros [a|] counter; simpl;
    keeps_auto assumption.
  apply IH.
Qed.

Lemma environ_init_finish c flags : preserves (λ s, Q (environ s)) (init_finish w c flags).
Proof.
  unfold init_finish. apply preserves_bind.
  { destruct (negb _); [|apply preserves_ret].
    apply preserves_bind; [keeps_auto assumption|]. intros _.
    apply preserves_bind; [keeps_auto assumption|]. intros ?.
    apply preserves_bind; [keeps_auto assumption|]. intros ?.
    apply environ_preload_from. }
  intros _. apply preserves_bind; [keeps_auto assumption|]. intros _.
  apply preserves_bind; [keeps_auto assumption|]. intros ?.
  apply preserves_bind; [keeps_auto assumption|]. intros ?.
  apply preserves_bind; [apply environ_print_from | intros; keeps_auto assumption].
Qed.

End Environment.

(** ** What [init_context] does, from the outside *)

Section EndToEnd.

Variable w : world.

(** X13. [build_codec_from_codec_info] leaks nothing: when it fails, for
    whatever reason, both heaps are as before; when it succeeds, exactly
    one node was added, at an address that was free, with a descriptor
    that has a module path, no loaded module and no successor. It never
    touches a context. *)
Theorem build_codec_from_codec_info_heap (full : string) (s : state) :
  match build_codec_from_codec_info w full s with
  | Stuck => False
  | Done (Ok a) s' =>
      nodes s !! a = None ∧ contexts s' = contexts s ∧ tls_context s' = tls_context s ∧
      ∃ i p, nodes s' = <[a := {| codec_info := Some i; codec := None; next := None |}]> (nodes s) ∧
             ci_path i = Some p
  | Done (Err e) s' =>
      nodes s' = nodes s ∧ contexts s' = contexts s ∧ tls_context s' = tls_context s
  end.
Proof.
  pose proof (build_codec_from_codec_info_spec w full s) as H.
  destruct (build_codec_from_codec_info w full s) as [[a|e] s'|]; [| |done].
  - destruct H as (Hc & Ht & _ & _ & Ha & _ & _ & d & Hd & Hn).
    split_and!; [done..|]. unfold descriptor_of in Hd.
    destruct (module_path_of w full) as [p|]; [|done].
    destruct (codec_read_info w full) as [i|]; [|done]. injection Hd as <-.
    eexists _, p. split; [exact Hn | done].
  - by destruct H as (Hc & Ht & _ & _ & Hn & _).
Qed.

(** On POSIX an error of [init_context] is an error of
    [update_lib_path]. *)
Lemma init_context_posix_error_cause c flags s e s' :
  platform w = POSIX →
  contexts s !! c = Some fresh_context →
  init_context w (Some c) flags s = Done (Err e) s' →
  primary_update_fails w c s e s' ∨ ∃ p, secondary_update_fails w c s p e s'.
Proof.
  intros Hplat Hx Hrun.
  destruct (init_context_phases w c flags s _ _ Hx Hrun)
    as (our & s1 & r2 & s2 & H1 & _ & _ & H2 & _ & _ & R2).
  destruct r2 as [[]|e2].
  2: { destruct R2 as [[= ->] ->]. left. by exists (Some our), s1. }
  destruct R2 as (their & s3 & r4 & s4 & H3 & _ & _ & _ & H4 & _ & _ & _ & R4).
  destruct r4 as [[]|e4].
  2: { destruct R4 as [[= ->] ->]. right. destruct their as [p|]; [|done].
       by exists p, (Some our), s1, s2, s3. }
  destruct R4 as (r5 & s5 & H5 & _ & R5). destruct r5 as [last|e5].
  - by destruct R5 as (? & ? & ? & _ & _ & _ & _ & _ & [=] & _).
  - destruct R5 as (_ & _ & ? & _). congruence.
Qed.

(** X14. On POSIX [init_context] on a new context always returns, and
    the only thing that makes it fail is [update_lib_path], on the
    primary or on the secondary path: no directory that cannot be
    listed, no metadata that cannot be parsed and no module that cannot
    be loaded does. *)
Theorem init_context_posix_errors (c : addr) (flags : Z) (s : state) :
  platform w = POSIX →
  contexts s !! c = Some fresh_context →
  paths_ok s →
  match init_context w (Some c) flags s with
  | Stuck => False
  | Done (Ok _) _ => True
  | Done (Err e) s' =>
      (e = SAIL_ERROR_MEMORY_ALLOCATION ∨ e = SAIL_ERROR_ENV_UPDATE) ∧
      (primary_update_fails w c s e s' ∨ ∃ p, secondary_update_fails w c s p e s')
  end.
Proof.
  intros Hplat Hx Hok. pose proof (init_context_spec w c flags s Hx Hok) as Hs.
  destruct (init_context w (Some c) flags s) as [[[]|e] s'|] eqn:Hrun; [done| |congruence].
  split; [|by eapply init_context_posix_error_cause].
  destruct Hs as (_ & _ & _ & our & _ & [He|[He|[? _]]] & _); [auto..|congruence].
Qed.

Lemma sail_codecs_path_posix_first s :
  platform w = POSIX →
  codecs_path_called (sail_codecs_path_static s) = false →
  ∃ s', sail_codecs_path w s =
          Done (Ok (Some (default (SAIL_CODECS_PATH w) (environ s !! "SAIL_CODECS_PATH")))) s' ∧
        environ s' = environ s.
Proof.
  intros Hplat Hcalled. unfold sail_codecs_path. munfold. rewrite Hcalled, Hplat. simpl.
  destruct (environ s !! "SAIL_CODECS_PATH"); simpl; eauto.
Qed.

Lemma client_codecs_path_first s :
  codecs_path_called (client_codecs_path_static s) = false →
  ∃ s', client_codecs_path s = Done (Ok (environ s !! "SAIL_MY_CODECS_PATH")) s' ∧
        environ s' = environ s.
Proof.
  intros Hcalled. unfold client_codecs_path. munfold. rewrite Hcalled. simpl.
  destruct (environ s !! "SAIL_MY_CODECS_PATH"); simpl; eauto.
Qed.

(** With an allocator and a [setenv] that do not fail,
    [update_lib_path] returns SAIL_OK on POSIX. *)
Lemma update_lib_path_posix_ok p s r s' :
  platform w = POSIX →
  (∀ k, malloc_ok w k = true) →
  (∀ v, setenv_ok w "LD_LIBRARY_PATH" v = true) →
  update_lib_path w (Some p) s = Done r s' →
  r = Ok tt ∧ ∀ name, name ≠ "LD_LIBRARY_PATH" → environ s' !! name = environ s !! name.
Proof.
  intros Hplat Hm Hset Hrun.
  pose proof (update_lib_path_posix_run w p s Hplat) as H. simpl in H.
  rewrite Hrun, !Hm, Hset in H. simpl in H. destruct H as [_ H].
  destruct (sail_is_dir w (p +:+ "/lib")); simpl in H.
  - destruct H as (-> & -> & _). split; [done|]. intros name Hname.
    by rewrite lookup_insert_ne.
  - destruct H as (-> & -> & _). done.
Qed.

(** X15. The first initialization of a thread on POSIX, when the
    allocator and [setenv] do not fail: [init_context] returns SAIL_OK
    and the registry holds, in directory order, the descriptors of the
    entries of $SAIL_CODECS_PATH (of the compiled-in path if it is
    unset) and then of $SAIL_MY_CODECS_PATH (if it is set) that are
    regular files, have ".codec.info" in their path and parse. *)
Theorem init_context_posix_discovers (c : addr) (flags : Z) (s : state) :
  platform w = POSIX →
  contexts s !! c = Some fresh_context →
  codecs_path_called (sail_codecs_path_static s) = false →
  codecs_path_called (client_codecs_path_static s) = false →
  (∀ k, malloc_ok w k = true) →
  (∀ v, setenv_ok w "LD_LIBRARY_PATH" v = true) →
  ∃ s' l,
    init_context w (Some c) flags s = Done (Ok tt) s' ∧
    registry s' c l ∧
    l.*2 =
      omap (registered_descriptor w
              (default (SAIL_CODECS_PATH w) (environ s !! "SAIL_CODECS_PATH")))
           (dir_entries w
              (Some (default (SAIL_CODECS_PATH w) (environ s !! "SAIL_CODECS_PATH")))) ++
      omap (registered_descriptor w (default "" (environ s !! "SAIL_MY_CODECS_PATH")))
           (dir_entries w (environ s !! "SAIL_MY_CODECS_PATH")).
Proof.
  intros Hplat Hx Hcalled Hcalled' Hm Hset.
  assert (paths_ok s) as Hok by (intros H; congruence).
  pose proof (init_context_spec w c flags s Hx Hok) as Hs.
  destruct (init_context w (Some c) flags s) as [r s'|] eqn:Hrun; [|congruence].
  clear Hs.
  destruct (init_context_phases w c flags s _ _ Hx Hrun)
    as (our & s1 & r2 & s2 & H1 & _ & _ & H2 & _ & Hp2 & R2).
  destruct (sail_codecs_path_posix_first (init_mark w c s) Hplat Hcalled) as (s1' & H1' & He1).
  rewrite H1 in H1'. injection H1' as -> <-. simpl in He1.
  pose proof (sail_codecs_path_spec w (init_mark w c s)) as F1. rewrite H1 in F1.
  destruct F1 as (_ & _ & Hc1 & _). simpl in Hc1.
  destruct (update_lib_path_posix_ok _ _ _ _ Hplat Hm Hset H2) as [-> He2].
  destruct R2 as (their & s3 & r4 & s4 & H3 & _ & _ & _ & H4 & _ & _ & _ & R4).
  destruct (client_codecs_path_first s2) as (s3' & H3' & He3).
  { destruct Hp2 as [_ ->]. by rewrite Hc1. }
  rewrite H3 in H3'. injection H3' as -> <-.
  rewrite He2, He1 in * by done.
  assert (r4 = Ok tt) as ->.
  { destruct (environ s !! "SAIL_MY_CODECS_PATH") as [p|]; [|by injection H4 as <-].
    by destruct (update_lib_path_posix_ok _ _ _ _ Hplat Hm Hset H4). }
  destruct R4 as (r5 & s5 & H5 & _ & R5). destruct r5 as [last|e5].
  2: { destruct R5 as (_ & _ & ? & _). congruence. }
  destruct R5 as (cls1 & cls2 & l & _ & Hcls1 & Hcls2 & Hdesc & _ & -> & Hreg & _).
  exists s', l. split_and!; [done..|].
  rewrite Hdesc. f_equal; by apply descriptors_registered.
Qed.

End EndToEnd.

(** ** What the library writes to the environment *)

Section EnvironmentFrame.

Variable w : world.
Variable Q : gmap string string → Prop.

Hypothesis Q_loader :
  platform w = POSIX → ∀ E v, Q E → Q (<["LD_LIBRARY_PATH" := v]> E).

Lemma environ_update_lib_path p : preserves (λ s, Q (environ s)) (update_lib_path w p).
Proof.
  unfold update_lib_path. apply preserves_bind; [apply preserves_deref|]. intros p'.
  destruct (platform w) eqn:Hplat.
  - specialize (Q_loader eq_refl).
    keeps_auto ltac:(first [assumption | simpl; apply Q_loader; assumption]).
  - keeps_auto assumption.
Qed.

Lemma environ_init_context context flags :
  preserves (λ s, Q (environ s)) (init_context w context flags).
Proof.
  unfold init_context.
  apply preserves_bind; [keeps_auto assumption|]. intros c.
  apply preserves_bind; [keeps_auto assumption|]. intros x.
  destruct (initialized x); [apply preserves_ret|].
  apply preserves_bind; [keeps_auto assumption|]. intros _.
  apply preserves_bind; [keeps_auto assumption|]. intros _.
  apply preserves_bind; [apply environ_sail_codecs_path|]. intros our.
  apply preserves_bind; [apply environ_update_lib_path|]. intros _.
  apply preserves_bind; [apply environ_client_codecs_path|]. intros their.
  apply preserves_bind.
  { destruct their; [apply environ_update_lib_path | apply preserves_ret]. }
  intros _. apply preserves_bind.
  { apply preserves_foldM. intros. apply environ_scan_path. }
  intros _. apply (environ_init_finish w Q c flags).
Qed.

Lemma environ_destroy_chain_from fuel p :
  preserves (λ s, Q (environ s)) (destroy_chain_from fuel p).
Proof.
  revert p. induction fuel as [|fuel IH]; intros [a|]; simpl;
    unfold destroy_codec_info_node; keeps_auto assumption.
  apply IH.
Qed.

Lemma environ_control_tls_context context action :
  preserves (λ s, Q (environ s)) (control_tls_context w context action).
Proof.
  unfold control_tls_context, alloc_context, destroy_context, destroy_codec_info_node_chain.
  destruct action.
  - keeps_auto assumption.
  - keeps_auto assumption.
  - apply preserves_bind; [keeps_auto assumption|]. intros s0.
    apply preserves_bind; [keeps_auto assumption|]. intros _.
    apply preserves_bind; [|intros; keeps_auto assumption].
    destruct (tls_context s0) as [c|]; [|apply preserves_ret].
    apply preserves_bind; [keeps_auto assumption|]. intros x.
    apply preserves_bind; [|intros; keeps_auto assumption].
    apply preserves_bind; [keeps_auto assumption|]. intros ?.
    apply environ_destroy_chain_from.
Qed.

Lemma environ_run_call k : preserves (λ s, Q (environ s)) (run_call w k).
Proof.
  assert (∀ context flags,
    preserves (λ s, Q (environ s)) (current_tls_context_with_flags w context flags)) as H.
  { intros context flags. unfold current_tls_context_with_flags.
    apply preserves_bind; [keeps_auto assumption|]. intros _.
    apply preserves_bind; [apply environ_control_tls_context|]. intros context'.
    apply preserves_bind; [apply preserves_deref|]. intros cell.
    apply preserves_bind; [apply environ_init_context | intros; apply preserves_ret]. }
  destruct k as [context action|context|context flags]; simpl.
  - apply environ_control_tls_context.
  - apply H.
  - apply H.
Qed.

End EnvironmentFrame.

Section EnvironmentWrites.

Variable w : world.

(** X16. The one environment variable the library ever writes is
    LD_LIBRARY_PATH: whatever public function is called with whatever
    arguments, every other variable has the value it had before; on
    Windows the environment is not written at all. *)
Theorem environment_written_for_loader_only (k : call) (s : state)
    (r : result (option (option addr))) (s' : state) :
  run_call w k s = Done r s' →
  (∀ name, name ≠ "LD_LIBRARY_PATH" → environ s' !! name = environ s !! name) ∧
  (platform w = WIN32 → environ s' = environ s).
Proof.
  intros Hrun. split.
  - pose proof (environ_run_call w
      (λ E, ∀ name, name ≠ "LD_LIBRARY_PATH" → E !! name = environ s !! name)) as H.
    specialize (H ltac:(intros _ E v HE name Hname; rewrite lookup_insert_ne by done; auto)
                  k s ltac:(done)).
    by rewrite Hrun in H.
  - intros Hplat.
    pose proof (environ_run_call w (λ E, E = environ s)) as H.
    specialize (H ltac:(intros Hp; congruence) k s eq_refl).
    by rewrite Hrun in H.
Qed.

End EnvironmentWrites.

(** ** Loading of codec modules *)

Section Preload.

Variable w : world.

Lemma unloaded_build_codec_from_codec_info full :
  preserves unloaded (build_codec_from_codec_info w full).
Proof.
  intros s Hs. pose proof (build_codec_from_codec_info_spec w full s) as H.
  destruct (build_codec_from_codec_info w full s) as [[a|e] s'|]; [| |done].
  - destruct H as (_ & _ & _ & _ & _ & _ & _ & d & _ & Hn).
    intros b n. rewrite Hn. destruct (decide (b = a)) as [->|Hne].
    + rewrite lookup_insert_eq. by intros [= <-].
    + rewrite lookup_insert_ne by done. apply Hs.
  - destruct H as (_ & _ & _ & _ & Hn & _). intros b n. rewrite Hn. apply Hs.
Qed.

Lemma unloaded_store_slot c last node : preserves unloaded (store_slot c last node).
Proof.
  destruct last as [|a]; unfold store_slot.
  - keeps_auto assumption.
  - intros s Hs. munfold. destruct (nodes s !! a) as [n|] eqn:Hn; simpl; [|done].
    rewrite Hn. simpl. intros b m. simpl. destruct (decide (b = a)) as [->|Hne].
    + rewrite lookup_insert_eq. intros [= <-]. simpl. by eapply Hs.
    + rewrite lookup_insert_ne by done. apply Hs.
Qed.

Lemma unloaded_scan_path c codecs_path last :
  preserves unloaded (scan_path w c codecs_path last).
Proof.
  apply keeps_scan_path; [done | done | apply unloaded_build_codec_from_codec_info
                         | apply unloaded_store_slot].
Qed.

Lemma unloaded_print_from fuel p counter : preserves unloaded (print_from fuel p counter).
Proof.
  revert p counter. induction fuel as [|fuel IH]; intros [a|] counter; simpl;
    keeps_auto assumption.
  apply IH.
Qed.

Lemma unloaded_init_context context flags :
  Z.land flags (SAIL_FLAG_PRELOAD_CODECS w) = 0%Z →
  preserves unloaded (init_context w context flags).
Proof.
  intros Hflags. unfold init_context. rewrite Hflags. cbn [Z.eqb negb].
  apply preserves_bind; [keeps_auto assumption|]. intros c.
  apply preserves_bind; [keeps_auto assumption|]. intros x.
  destruct (initialized x); [apply preserves_ret|].
  apply preserves_bind; [keeps_auto assumption|]. intros _.
  apply preserves_bind; [keeps_auto assumption|]. intros _.
  apply preserves_bind; [unfold sail_codecs_path; keeps_auto assumption|]. intros our.
  apply preserves_bind; [unfold update_lib_path; keeps_auto assumption|]. intros _.
  apply preserves_bind; [unfold client_codecs_path; keeps_auto assumption|]. intros their.
  apply preserves_bind.
  { destruct their; [unfold update_lib_path; keeps_auto assumption | apply preserves_ret]. }
  intros _. apply preserves_bind.
  { apply preserves_foldM. intros. apply unloaded_scan_path. }
  intros _. apply preserves_bind; [apply preserves_ret|]. intros _.
  apply preserves_bind; [keeps_auto assumption|]. intros _.
  apply preserves_bind; [keeps_auto assumption|]. intros ?.
  apply preserves_bind; [keeps_auto assumption|]. intros ?.
  apply preserves_bind; [apply unloaded_print_from | intros; keeps_auto assumption].
Qed.

(** Loading the module of a node that has none yet: the node gets what
    the loader gives for its path, nothing else changes. *)
Lemma load_codec_by_codec_info_run a n s :
  nodes s !! a = Some n →
  codec n = None →
  ∃ r s',
    load_codec_by_codec_info w a s = Done r s' ∧
    contexts s' = contexts s ∧
    nodes s' =
      <[a := {| codec_info := codec_info n;
                codec := (codec_info n ≫= ci_path) ≫= load_module w;
                next := next n |}]> (nodes s).
Proof.
  intros Hn Hc. unfold load_codec_by_codec_info. munfold. rewrite Hn. simpl. rewrite Hc.
  assert (<[a := n]> (nodes s) = nodes s) as Hid by (by apply insert_id).
  destruct n as [i m x]. simpl in *. subst m.
  destruct (i ≫= ci_path) as [p|]; simpl.
  2: { eexists _, _. by split_and!. }
  destruct (load_module w p) as [h|]; simpl.
  - rewrite Hn. simpl. eexists _, _. by split_and!.
  - eexists _, _. by split_and!.
Qed.

(** The preload walk asks the loader for every node of the chain. *)
Lemma preload_from_loads fuel p l s :
  chain (nodes s) p l →
  length l ≤ fuel →
  (∀ b n, b ∈ l.*1 → nodes s !! b = Some n → codec n = None) →
  ∃ s',
    preload_from w fuel p s = Done (Ok tt) s' ∧
    contexts s' = contexts s ∧
    (∀ b, b ∉ l.*1 → nodes s' !! b = nodes s !! b) ∧
    (∀ a i, (a, i) ∈ l →
            ∃ n, nodes s' !! a = Some n ∧ codec_info n = Some i ∧
                 codec n = ci_path i ≫= load_module w).
Proof.
  revert fuel p s. induction l as [|[a i] l IH]; intros fuel p s Hc Hfuel Hun.
  - simpl in Hc. subst p. exists s. destruct fuel; simpl; (split_and!; [done..|]).
    all: intros a i H; by apply elem_of_nil in H.
  - pose proof (chain_NoDup _ _ _ Hc) as Hnd. apply NoDup_cons in Hnd as [Ha Hnd].
    destruct Hc as [-> (n & Hn & Hi & Hc)]. simpl in Hfuel.
    destruct fuel as [|fuel]; [lia|]. simpl.
    destruct (load_codec_by_codec_info_run a n s Hn) as (r1 & s1 & Hrun & Hc1 & Hn1).
    { eapply Hun; [|done]. simpl. apply elem_of_cons. by left. }
    unfold bind at 1. unfold try. rewrite Hrun.
    unfold bind at 1. unfold load_node at 1. munfold. rewrite Hn1, lookup_insert_eq. simpl.
    assert (∀ b, b ≠ a → nodes s1 !! b = nodes s !! b) as Hother.
    { intros b Hb. by rewrite Hn1, lookup_insert_ne. }
    destruct (IH fuel (next n) s1) as (s2 & Hrun2 & Hc2 & Hout2 & Hin2).
    + eapply chain_frame; [|done]. intros b Hb. apply Hother. by intros ->.
    + lia.
    + intros b m Hb. rewrite Hother by (by intros ->). apply Hun. simpl.
      apply elem_of_cons. by right.
    + exists s2. split_and!.
      * done.
      * congruence.
      * intros b Hb. simpl in Hb. apply not_elem_of_cons in Hb as [Hba Hb].
        rewrite Hout2 by done. by apply Hother.
      * intros b j [[= -> ->]|Hin]%elem_of_cons; [|by apply Hin2].
        rewrite Hout2, Hn1, lookup_insert_eq by done. eexists. split; [done|]. simpl.
        rewrite Hi. done.
Qed.

(** The tail of [init_context] with the preload flag set. *)
Lemma init_finish_preloads c flags l s :
  Z.land flags (SAIL_FLAG_PRELOAD_CODECS w) ≠ 0%Z →
  registry s c l →
  (∀ b n, b ∈ l.*1 → nodes s !! b = Some n → codec n = None) →
  ∃ s',
    init_finish w c flags s = Done (Ok tt) s' ∧
    ∀ a i, (a, i) ∈ l →
           ∃ n, nodes s' !! a = Some n ∧ codec_info n = Some i ∧
                codec n = ci_path i ≫= load_module w.
Proof.
  intros Hflags (x & Hx & Hi & Hch) Hun. unfold init_finish.
  apply Z.eqb_neq in Hflags. rewrite Hflags. cbn [negb].
  munfold. simpl. rewrite Hx. simpl.
  match goal with |- context [preload_from w ?f ?p ?s0] =>
    destruct (preload_from_loads f p l s0 Hch (chain_length _ _ _ Hch) Hun)
      as (s1 & Hrun & Hc1 & _ & Hin1);
    pose proof (preload_from_spec w f p l s0 Hch (chain_length _ _ _ Hch)) as Hsim;
    rewrite Hrun in Hsim |- *
  end.
  destruct Hsim as (_ & _ & _ & _ & _ & Hsim). simpl in Hc1, Hsim.
  simpl. rewrite Hc1, Hx. simpl.
  pose proof (chain_similar _ _ _ _ Hsim Hch) as Hch1.
  match goal with |- context [print_from ?f ?p ?k ?s2] =>
    pose proof (print_from_spec f p l k s2 Hch1 (chain_length _ _ _ Hch1)) as H;
    destruct (print_from f p k s2) as [r3 s3|]; [|done]
  end.
  destruct H as (-> & _ & Hn3 & _). simpl in Hn3.
  eexists. split; [done|]. simpl. intros a i Ha. rewrite Hn3. by apply Hin1.
Qed.

(** Every registered descriptor has a module path. *)
Lemma descriptors_have_path dir names cls d :
  Forall2 (classifies w dir) names cls →
  d ∈ descriptors cls →
  ∃ p, ci_path d = Some p.
Proof.
  unfold descriptors. induction 1 as [|name cl names cls Hcl _ IH]; simpl.
  { intros H. by apply elem_of_nil in H. }
  destruct Hcl as [d' _ Hd| | | | |]; simpl; try done.
  intros [->|Hin]%elem_of_cons; [|by apply IH].
  unfold descriptor_of in Hd.
  destruct (module_path_of w _) as [p|]; [|done].
  destruct (codec_read_info w _) as [i|]; [|done]. injection Hd as <-. by exists p.
Qed.

Lemma unloaded_destroy_chain_from fuel p : preserves unloaded (destroy_chain_from fuel p).
Proof.
  revert p. induction fuel as [|fuel IH]; intros [a|]; simpl;
    unfold destroy_codec_info_node;
    keeps_auto ltac:(first [assumption
                           | match goal with
                             | H : unloaded _ |- _ =>
                                 intros b m Hb; simpl in Hb;
                                 apply lookup_delete_Some in Hb as [_ Hb]; exact (H b m Hb)
                             end]).
  apply IH.
Qed.

Lemma unloaded_control_tls_context context action :
  preserves unloaded (control_tls_context w context action).
Proof.
  unfold control_tls_context, alloc_context, destroy_context, destroy_codec_info_node_chain.
  destruct action.
  - keeps_auto assumption.
  - keeps_auto assumption.
  - apply preserves_bind; [keeps_auto assumption|]. intros s0.
    apply preserves_bind; [keeps_auto assumption|]. intros _.
    apply preserves_bind; [|intros; keeps_auto assumption].
    destruct (tls_context s0) as [c|]; [|apply preserves_ret].
    apply preserves_bind; [keeps_auto assumption|]. intros x.
    apply preserves_bind; [|intros; keeps_auto assumption].
    apply preserves_bind; [keeps_auto assumption|]. intros ?.
    apply unloaded_destroy_chain_from.
Qed.

Lemma unloaded_current_tls_context_with_flags context flags :
  Z.land flags (SAIL_FLAG_PRELOAD_CODECS w) = 0%Z →
  preserves unloaded (current_tls_context_with_flags w context flags).
Proof.
  intros Hflags. unfold current_tls_context_with_flags.
  apply preserves_bind; [keeps_auto assumption|]. intros _.
  apply preserves_bind; [apply unloaded_control_tls_context|]. intros context'.
  apply preserves_bind; [apply preserves_deref|]. intros cell.
  apply preserves_bind; [by apply unloaded_init_context | intros; apply preserves_ret].
Qed.

(** X17. Modules are loaded on request only: [current_tls_context],
    [control_tls_context] and [current_tls_context_with_flags] without
    SAIL_FLAG_PRELOAD_CODECS in its flags load none. If no node holds
    a module handle before such a call, none does after it, whatever
    was discovered and whatever is returned. *)
Theorem calls_without_preload (k : call) (s : state)
    (r : result (option (option addr))) (s' : state) :
  (∀ context flags, k = CurrentWithFlags context flags →
                    Z.land flags (SAIL_FLAG_PRELOAD_CODECS w) = 0%Z) →
  unloaded s →
  run_call w k s = Done r s' →
  unloaded s'.
Proof.
  intros Hflags Hs Hrun.
  assert (preserves unloaded (run_call w k)) as H.
  { destruct k as [context action|context|context flags]; simpl.
    - apply unloaded_control_tls_context.
    - by apply unloaded_current_tls_context_with_flags.
    - by eapply unloaded_current_tls_context_with_flags, Hflags. }
  specialize (H s Hs). by rewrite Hrun in H.
Qed.

(** X18. With SAIL_FLAG_PRELOAD_CODECS in [flags], a successful
    [init_context] on a new context has asked the loader for the module
    of every registered descriptor, in vain or not: each node of the
    registry holds what the loader gave for the module path of its
    descriptor, a handle or NULL, and a module that cannot be loaded
    does not stop the initialization. *)
Theorem init_context_preloads (c : addr) (flags : Z) (s s' : state)
    (l : list (addr * sail_codec_info)) :
  Z.land flags (SAIL_FLAG_PRELOAD_CODECS w) ≠ 0%Z →
  contexts s !! c = Some fresh_context →
  unloaded s →
  init_context w (Some c) flags s = Done (Ok tt) s' →
  registry s' c l →
  ∀ a i, (a, i) ∈ l →
         ∃ n p, nodes s' !! a = Some n ∧ codec_info n = Some i ∧
                ci_path i = Some p ∧ codec n = load_module w p.
Proof.
  intros Hflags Hx Hun Hrun Hreg a i Hin.
  destruct (init_context_phases w c flags s _ _ Hx Hrun)
    as (our & s1 & r2 & s2 & _ & Hh1 & _ & _ & Hh2 & _ & R2).
  destruct r2 as [[]|e2]; [|by destruct R2].
  destruct R2 as (their & s3 & r4 & s4 & _ & Hh3 & _ & _ & _ & Hh4 & _ & _ & R4).
  destruct r4 as [[]|e4]; [|by destruct R4].
  destruct R4 as (r5 & s5 & H5 & _ & R5).
  destruct r5 as [last|e5]; [|by destruct R5].
  destruct R5 as (cls1 & cls2 & l5 & Hreg5 & Hcls1 & Hcls2 & Hdesc & Hfin & _ & Hreg' & _).
  assert (l5 = l) as ->.
  { destruct Hreg as (x & Hx1 & _ & Hch), Hreg' as (x' & Hx' & _ & Hch').
    simplify_eq. by eapply chain_func. }
  assert (unloaded s4) as Hun4.
  { intros b n. destruct Hh1 as (_ & E1 & _), Hh2 as (_ & E2 & _), Hh3 as (_ & E3 & _),
      Hh4 as (_ & E4 & _). rewrite E4, E3, E2, E1. apply Hun. }
  assert (unloaded s5) as Hun5.
  { pose proof (preserves_foldM unloaded (scan_path w c) [Some our; their] SlotHead
                  (λ p last, unloaded_scan_path c p last) s4 Hun4) as H.
    by rewrite H5 in H. }
  destruct (init_finish_preloads c flags l s5 Hflags Hreg5) as (s6 & Hfin' & Hloaded).
  { intros b n _. apply Hun5. }
  rewrite Hfin in Hfin'. injection Hfin' as <-.
  destruct (Hloaded a i Hin) as (n & Hn & Hi & Hc).
  assert (∃ p, ci_path i = Some p) as [p Hp].
  { assert (i ∈ l.*2) as Hi2.
    { apply list_elem_of_fmap. by exists (a, i). }
    rewrite Hdesc in Hi2. apply elem_of_app in Hi2 as [Hi2|Hi2].
    - exact (descriptors_have_path _ _ _ _ Hcls1 Hi2).
    - exact (descriptors_have_path _ _ _ _ Hcls2 Hi2). }
  exists n, p. split_and!; [done..|]. by rewrite Hc, Hp.
Qed.

End Preload.

(** ** Compression levels that are not numbers *)

Lemma SFcompare_refl (x : spec_float) :
  SFcompare x x = Some Eq ∨ x = S754_nan.
Proof.
  destruct x as [s|s| |s m e]; simpl; try (by left); try (by right).
  - left. by destruct s.
  - left. rewrite Z.compare_refl, Pos.compare_cont_refl. by destruct s.
Qed.

Lemma SFcompare_nan_l (y : spec_float) : SFcompare S754_nan y = None.
Proof. done. Qed.

Lemma SFcompare_nan_r (x : spec_float) : SFcompare x S754_nan = None.
Proof. by destruct x. Qed.

(** A comparison that holds has two numbers as its arguments. *)
Lemma SFcompare_numbers (x y : spec_float) (c : comparison) :
  SFcompare x y = Some c → SFcompare x x = Some Eq ∧ SFcompare y y = Some Eq.
Proof.
  intros H.
  destruct (SFcompare_refl x) as [Hx| ->]; [|by rewrite SFcompare_nan_l in H].
  destruct (SFcompare_refl y) as [Hy| ->]; [|by rewrite SFcompare_nan_r in H].
  done.
Qed.

Lemma ltb_numbers (x y : float) :
  PrimFloat.ltb x y = true →
  PrimFloat.is_nan x = false ∧ PrimFloat.is_nan y = false ∧ PrimFloat.eqb x y = false.
Proof.
  unfold PrimFloat.is_nan. rewrite FloatAxioms.ltb_spec, !FloatAxioms.eqb_spec. unfold SFltb, SFeqb.
  destruct (SFcompare (FloatOps.Prim2SF x) (FloatOps.Prim2SF y)) as [c|] eqn:Hc; [|done].
  destruct (SFcompare_numbers _ _ _ Hc) as [-> ->]. by destruct c.
Qed.

Lemma leb_numbers (x y : float) :
  PrimFloat.leb x y = true → PrimFloat.is_nan x = false ∧ PrimFloat.is_nan y = false.
Proof.
  unfold PrimFloat.is_nan. rewrite FloatAxioms.leb_spec, !FloatAxioms.eqb_spec. unfold SFleb, SFeqb.
  destruct (SFcompare (FloatOps.Prim2SF x) (FloatOps.Prim2SF y)) as [c|] eqn:Hc; [|done].
  by destruct (SFcompare_numbers _ _ _ Hc) as [-> ->].
Qed.

(** X19. [is_valid] refuses what is not a number: a compression level
    it accepts has a minimum, a maximum and a default that are not NaN,
    and its minimum differs from its maximum. *)
Theorem is_valid_numbers (d : sail_compression_level) :
  compression_level.is_valid d = true →
  PrimFloat.is_nan (level_min d) = false ∧
  PrimFloat.is_nan (level_max d) = false ∧
  PrimFloat.is_nan (level_default d) = false ∧
  PrimFloat.eqb (level_min d) (level_max d) = false.
Proof.
  unfold compression_level.is_valid. intros H.
  apply andb_true_iff in H as [H Hmax]. apply andb_true_iff in H as [Hlt Hmin].
  destruct (ltb_numbers _ _ Hlt) as (? & ? & ?).
  destruct (leb_numbers _ _ Hmin) as (_ & ?). done.
Qed.

(** ** Listing on Windows *)

Section Listing.

Variable w : world.

Lemma scan_path_win32_listed c dir last s last' s' :
  platform w = WIN32 →
  scan_path w c (Some dir) last s = Done (Ok last') s' →
  FindFirstFile w (dir +:+ "\*.codec.info") ≠ None.
Proof.
  intros Hplat. unfold scan_path. rewrite Hplat. cbv zeta.
  unfold bind at 1. rewrite sail_malloc_run.
  destruct (malloc_ok w (mallocs s)); [|done].
  destruct (FindFirstFile w (dir +:+ "\*.codec.info")); [done|].
  munfold. simpl. done.
Qed.

(** X20. On Windows [init_context] returns SAIL_OK for a new context
    only if every configured search path could be listed:
    [FindFirstFile] found an entry for "<path>\*.codec.info" under the
    primary path and, if SAIL_MY_CODECS_PATH is set, under the
    secondary path. *)
Theorem init_context_win32_needs_listing (c : addr) (flags : Z) (s s' : state) :
  platform w = WIN32 →
  contexts s !! c = Some fresh_context →
  init_context w (Some c) flags s = Done (Ok tt) s' →
  ∃ our,
    env (sail_codecs_path_static s') = Some our ∧
    FindFirstFile w (our +:+ "\*.codec.info") ≠ None ∧
    ∀ p, env (client_codecs_path_static s') = Some p →
         FindFirstFile w (p +:+ "\*.codec.info") ≠ None.
Proof.
  intros Hplat Hx Hrun.
  destruct (init_context_phases w c flags s _ _ Hx Hrun)
    as (our & s1 & r2 & s2 & _ & _ & Hour & _ & _ & Hp2 & R2).
  destruct r2 as [[]|e2]; [|by destruct R2].
  destruct R2 as (their & s3 & r4 & s4 & _ & _ & Hst3 & Htheir & _ & _ & Hp4 & _ & R4).
  destruct r4 as [[]|e4]; [|by destruct R4].
  destruct R4 as (r5 & s5 & H5 & Hp5 & R5).
  destruct r5 as [last|e5]; [|by destruct R5].
  destruct R5 as (_ & _ & _ & _ & _ & _ & _ & _ & _ & _ & Hp6).
  assert (sail_codecs_path_static s' = sail_codecs_path_static s1) as Hs.
  { destruct Hp2 as [E2 _], Hp4 as [E4 _], Hp5 as [E5 _], Hp6 as [E6 _]. congruence. }
  assert (client_codecs_path_static s' = client_codecs_path_static s3) as Hc.
  { destruct Hp4 as [_ E4], Hp5 as [_ E5], Hp6 as [_ E6]. congruence. }
  cbn [foldM] in H5. unfold bind at 1 in H5.
  destruct (scan_path w c (Some our) SlotHead s4) as [[last1|e1] s41|] eqn:Hscan1; [|done..].
  unfold bind at 1 in H5.
  destruct (scan_path w c their last1 s41) as [[last2|e2] s42|] eqn:Hscan2; [|done..].
  exists our. rewrite Hs, Hc. split_and!; [done | by eapply scan_path_win32_listed |].
  intros p Hp. rewrite Htheir in Hp. rewrite Hp in Hscan2.
  by eapply scan_path_win32_listed.
Qed.

End Listing.

(** ** The fallback that is lost *)

Section LostFallback.

Variable w : world.

(** X21. On Windows the path derivation has no defined behaviour when
    its one allocation fails: the handler logs the error and assigns the
    compiled-in SAIL_CODECS_PATH, but the statement after it assigns the
    result pointer that [sail_concat] never wrote, and that pointer is
    what [sail_codecs_path] memoizes and returns. So does [init_context]
    on a new context. *)
Theorem sail_codecs_path_win32_lost_fallback (c : addr) (flags : Z) (s : state)
    (dir file : string) :
  platform w = WIN32 →
  codecs_path_called (sail_codecs_path_static s) = false →
  environ s !! "SAIL_CODECS_PATH" = None →
  GetModuleFileName w = ModuleFileName (dir +:+ "\" +:+ file) →
  malloc_ok w (mallocs s) = false →
  sail_codecs_path w s = Stuck ∧
  (contexts s !! c = Some fresh_context → init_context w (Some c) flags s = Stuck).
Proof.
  intros Hplat Hcalled Henv Hname Hm.
  assert (∀ s0, codecs_path_called (sail_codecs_path_static s0) = false →
                environ s0 !! "SAIL_CODECS_PATH" = None →
                malloc_ok w (mallocs s0) = false →
                sail_codecs_path w s0 = Stuck) as Hstuck.
  { intros s0 Hc0 He0 Hm0.
    pose proof (strrchr_present (dir +:+ "\" +:+ file) dir file "\"%char eq_refl) as Hsep.
    unfold sail_codecs_path. munfold. rewrite Hc0, Hplat. simpl. rewrite He0, Hname. simpl.
    destruct (strrchr (dir +:+ "\" +:+ file) "\") as [last_sep|]; [|done]. simpl.
    by rewrite Hm0. }
  split; [by apply Hstuck|].
  intros Hx. rewrite init_context_fresh by done. unfold bind at 1.
  by rewrite Hstuck.
Qed.

End LostFallback.

(** ** Initialization, destruction and back *)

Section RoundTrip.

Variable w : world.









(** X23. What [current_tls_context] and
    [current_tls_context_with_flags] give when they return SAIL_OK: the
    singleton of the thread, not NULL, marked initialized, with a
    registry chain that reaches NULL; SAIL_CONTEXT_FETCH then gives the
    same context. *)
Theorem current_tls_context_gives_initialized (cell cell' : option addr) (flags : Z)
    (s s' : state) (context : option (option addr)) :
  well_formed s →
  current_tls_context_with_flags w (Some cell) flags s = Done (Ok context) s' →
  ∃ c l,
    context = Some (Some c) ∧
    tls_context s' = Some c ∧
    registry s' c l ∧
    control_tls_context w (Some cell') SAIL_CONTEXT_FETCH s' = Done (Ok context) s'.
Proof.
  intros Hwf Hrun.
  pose proof (current_tls_context_with_flags_spec w cell flags s Hwf) as H.
  rewrite Hrun in H. destruct H as ([_ Hs'] & H).
  destruct (H context eq_refl) as (c & -> & Htls & x & Hx & Hi).
  destruct (Hs' c Htls) as (x' & l & Hx' & Hch & _). simplify_eq.
  exists c, l. split_and!; [done | done | by exists x |].
  by rewrite control_tls_context_fetch_run, Htls.
Qed.

End RoundTrip.

(** * The further properties on the example installations *)

Lemma ready_state_unloaded environment : unloaded (ready_state environment).
Proof. intros a n H. simpl in H. by rewrite lookup_empty in H. Qed.

Lemma posix_entered_reachable : reachable posix_lib_world posix_entered.
Proof.
  apply (reachable_call posix_lib_world (Current (Some None))
           (set_environ (λ _, home_environment) initial_state) (Ok (Some (Some 0)))).
  - apply reachable_start.
  - vm_compute. reflexivity.
Qed.

Lemma posix_preloaded_registry :
  registry posix_preloaded 0 (default [] (read_registry posix_preloaded 0)).
Proof. apply read_registry_sound. vm_compute. reflexivity. Qed.



Lemma sail_codecs_path_win32_derived_witness :
  ∃ s',
    sail_codecs_path win32_world initial_state =
      Done (Ok (Some "C:\sail\bin\..\lib\sail\codecs")) s' ∧
    sail_codecs_path_static s' =
      {| codecs_path_called := true; env := Some "C:\sail\bin\..\lib\sail\codecs" |} ∧
    environ s' = environ initial_state.
Proof.
  exact (sail_codecs_path_win32_derived win32_world initial_state "C:\sail\bin" "sail.dll"
           eq_refl eq_refl eq_refl eq_refl
           (strrchr_no_split "sail.dll" "\" eq_refl) eq_refl).
Defined.

Lemma sail_codecs_path_win32_fallback_witness :
  ∃ s' record,
    sail_codecs_path win32_nameless_world initial_state = Done (Ok (Some "C:\fallback")) s' ∧
    log s' = log initial_state ++ [record] ∧ log_lvl record = LOG_ERROR ∧
    mallocs s' = mallocs initial_state ∧ environ s' = environ initial_state.
Proof.
  exact (sail_codecs_path_win32_fallback win32_nameless_world initial_state
           eq_refl eq_refl eq_refl (or_intror (or_introl eq_refl))).
Defined.

Lemma update_lib_path_posix_environment_witness :
  match update_lib_path posix_lib_world (Some "/x") (ready_state loader_environment) with
  | Stuck => False
  | Done r s' =>
      dll_directories s' = [] ∧
      (r = Ok tt → sail_is_dir posix_lib_world "/x/lib" = true →
       environ s' = <["LD_LIBRARY_PATH" := "/usr/lib:/x/lib"]> loader_environment) ∧
      (r ≠ Ok tt ∨ sail_is_dir posix_lib_world "/x/lib" = false →
       environ s' = loader_environment)
  end.
Proof.
  exact (update_lib_path_posix_environment posix_lib_world "/x"
           (ready_state loader_environment) eq_refl).
Defined.

Lemma update_lib_path_posix_accumulates_witness :
  update_lib_path posix_lib_world (Some "/x") (ready_state ∅) = Done (Ok tt) posix_lib_once ∧
  update_lib_path posix_lib_world (Some "/x") posix_lib_once = Done (Ok tt) posix_lib_twice ∧
  environ posix_lib_twice !! "LD_LIBRARY_PATH" = Some "/x/lib:/x/lib".
Proof.
  assert (update_lib_path posix_lib_world (Some "/x") (ready_state ∅)
          = Done (Ok tt) posix_lib_once) as H1 by (vm_compute; reflexivity).
  assert (update_lib_path posix_lib_world (Some "/x") posix_lib_once
          = Done (Ok tt) posix_lib_twice) as H2 by (vm_compute; reflexivity).
  split_and!; [exact H1 | exact H2 |].
  exact (update_lib_path_posix_accumulates posix_lib_world "/x" "/x" (ready_state ∅)
           posix_lib_once posix_lib_twice eq_refl eq_refl eq_refl H1 H2).
Defined.

Lemma update_lib_path_win32_directories_witness :
  match update_lib_path win32_world (Some "C:\sail\bin\..\lib\sail\codecs") initial_state with
  | Stuck => False
  | Done r s' =>
      environ s' = ∅ ∧
      (r = Ok tt → sail_is_dir win32_world "C:\sail\bin\..\lib\sail\codecs\lib" = true →
       dll_directories s' = ["C:\sail\bin\..\lib\sail\codecs\lib"]) ∧
      (r ≠ Ok tt ∨ sail_is_dir win32_world "C:\sail\bin\..\lib\sail\codecs\lib" = false →
       dll_directories s' = [])
  end.
Proof.
  exact (update_lib_path_win32_directories win32_world "C:\sail\bin\..\lib\sail\codecs"
           initial_state eq_refl).
Defined.

Lemma allocate_then_fetch_witness :
  control_tls_context posix_world (Some None) SAIL_CONTEXT_ALLOCATE initial_state
    = Done (Ok (Some (Some 0))) posix_allocated ∧
  (∃ c, Some (Some 0) = Some (Some c)) ∧
  control_tls_context posix_world (Some (Some 7)) SAIL_CONTEXT_ALLOCATE posix_allocated
    = Done (Ok (Some (Some 0))) posix_allocated ∧
  control_tls_context posix_world (Some (Some 7)) SAIL_CONTEXT_FETCH posix_allocated
    = Done (Ok (Some (Some 0))) posix_allocated.
Proof.
  assert (control_tls_context posix_world (Some None) SAIL_CONTEXT_ALLOCATE initial_state
          = Done (Ok (Some (Some 0))) posix_allocated) as H by (vm_compute; reflexivity).
  split; [exact H|].
  exact (allocate_then_fetch posix_world None (Some 7) initial_state posix_allocated
           (Some (Some 0)) H).
Defined.

Lemma allocate_makes_fresh_context_witness :
  tls_context initial_state = None ∧
  match control_tls_context posix_world (Some None) SAIL_CONTEXT_ALLOCATE initial_state with
  | Stuck => False
  | Done (Ok context) s' =>
      ∃ c, context = Some (Some c) ∧ tls_context s' = Some c ∧
           contexts initial_state !! c = None ∧
           contexts s' = <[c := fresh_context]> (contexts initial_state) ∧
           nodes s' = nodes initial_state
  | Done (Err e) s' =>
      e = SAIL_ERROR_MEMORY_ALLOCATION ∧ malloc_ok posix_world (mallocs initial_state) = false ∧
      tls_context s' = None ∧ contexts s' = contexts initial_state ∧
      nodes s' = nodes initial_state
  end.
Proof.
  split; [reflexivity|].
  exact (allocate_makes_fresh_context posix_world None initial_state eq_refl).
Defined.

Lemma reachable_well_formed_witness :
  reachable posix_lib_world posix_entered ∧ well_formed posix_entered.
Proof.
  split; [exact posix_entered_reachable|].
  exact (reachable_well_formed posix_lib_world posix_entered posix_entered_reachable).
Defined.


Lemma init_context_posix_errors_witness :
  platform setenv_failing_world = POSIX ∧
  contexts (ready_state user_path_environment) !! 0 = Some fresh_context ∧
  paths_ok (ready_state user_path_environment) ∧
  match init_context setenv_failing_world (Some 0) 0 (ready_state user_path_environment) with
  | Stuck => False
  | Done (Ok _) _ => True
  | Done (Err e) s' =>
      (e = SAIL_ERROR_MEMORY_ALLOCATION ∨ e = SAIL_ERROR_ENV_UPDATE) ∧
      (primary_update_fails setenv_failing_world 0 (ready_state user_path_environment) e s' ∨
       ∃ p, secondary_update_fails setenv_failing_world 0
              (ready_state user_path_environment) p e s')
  end.
Proof.
  split_and!; [reflexivity | reflexivity | apply ready_state_paths_ok |].
  exact (init_context_posix_errors setenv_failing_world 0 0
           (ready_state user_path_environment) eq_refl eq_refl
           (ready_state_paths_ok user_path_environment)).
Defined.

Lemma init_context_posix_discovers_witness :
  ∃ s' l,
    init_context posix_unlistable_world (Some 0) 0 (ready_state user_path_environment)
      = Done (Ok tt) s' ∧
    registry s' 0 l ∧
    l.*2 = [set_ci_path (Some "/y/png.so") (example_info "/y/png.codec.info")].
Proof.
  exact (init_context_posix_discovers posix_unlistable_world 0 0
           (ready_state user_path_environment) eq_refl eq_refl eq_refl eq_refl
           (λ _, eq_refl) (λ _, eq_refl)).
Defined.

Lemma environment_written_for_loader_only_witness :
  run_call posix_lib_world (Current (Some None))
    (set_environ (λ _, home_environment) initial_state)
    = Done (Ok (Some (Some 0))) posix_entered ∧
  (∀ name, name ≠ "LD_LIBRARY_PATH" →
           environ posix_entered !! name = home_environment !! name) ∧
  (platform posix_lib_world = WIN32 → environ posix_entered = home_environment).
Proof.
  assert (run_call posix_lib_world (Current (Some None))
            (set_environ (λ _, home_environment) initial_state)
          = Done (Ok (Some (Some 0))) posix_entered) as H by (vm_compute; reflexivity).
  split; [exact H|].
  exact (environment_written_for_loader_only posix_lib_world (Current (Some None))
           (set_environ (λ _, home_environment) initial_state)
           (Ok (Some (Some 0))) posix_entered H).
Defined.

Lemma calls_without_preload_witness :
  (∀ context flags, Current (Some None) = CurrentWithFlags context flags →
                    Z.land flags (SAIL_FLAG_PRELOAD_CODECS posix_lib_world) = 0%Z) ∧
  unloaded (set_environ (λ _, home_environment) initial_state) ∧
  run_call posix_lib_world (Current (Some None))
    (set_environ (λ _, home_environment) initial_state)
    = Done (Ok (Some (Some 0))) posix_entered ∧
  unloaded posix_entered.
Proof.
  assert (∀ context flags, Current (Some None) = CurrentWithFlags context flags →
            Z.land flags (SAIL_FLAG_PRELOAD_CODECS posix_lib_world) = 0%Z) as Hk
    by discriminate.
  assert (unloaded (set_environ (λ _, home_environment) initial_state)) as Hs.
  { intros a n H. simpl in H. by rewrite lookup_empty in H. }
  assert (run_call posix_lib_world (Current (Some None))
            (set_environ (λ _, home_environment) initial_state)
          = Done (Ok (Some (Some 0))) posix_entered) as H by (vm_compute; reflexivity).
  split_and!; [exact Hk | exact Hs | exact H |].
  exact (calls_without_preload posix_lib_world (Current (Some None))
           (set_environ (λ _, home_environment) initial_state)
           (Ok (Some (Some 0))) posix_entered Hk Hs H).
Defined.

Lemma init_context_preloads_witness :
  Z.land 1 (SAIL_FLAG_PRELOAD_CODECS posix_lib_world) ≠ 0%Z ∧
  contexts (ready_state ∅) !! 0 = Some fresh_context ∧
  unloaded (ready_state ∅) ∧
  init_context posix_lib_world (Some 0) 1 (ready_state ∅) = Done (Ok tt) posix_preloaded ∧
  registry posix_preloaded 0 (default [] (read_registry posix_preloaded 0)) ∧
  ∀ a i, (a, i) ∈ default [] (read_registry posix_preloaded 0) →
         ∃ n p, nodes posix_preloaded !! a = Some n ∧ codec_info n = Some i ∧
                ci_path i = Some p ∧ codec n = load_module posix_lib_world p.
Proof.
  assert (Z.land 1 (SAIL_FLAG_PRELOAD_CODECS posix_lib_world) ≠ 0%Z) as Hflags by discriminate.
  assert (init_context posix_lib_world (Some 0) 1 (ready_state ∅)
          = Done (Ok tt) posix_preloaded) as H by (vm_compute; reflexivity).
  split_and!; [exact Hflags | reflexivity | apply ready_state_unloaded | exact H
              | exact posix_preloaded_registry |].
  exact (init_context_preloads posix_lib_world 0 1 (ready_state ∅) posix_preloaded
           (default [] (read_registry posix_preloaded 0)) Hflags eq_refl
           (ready_state_unloaded ∅) H posix_preloaded_registry).
Defined.

Lemma is_valid_numbers_witness :
  compression_level.is_valid
    {| level_min := 1; level_max := 9; level_default := 6; level_step := 1 |} = true ∧
  PrimFloat.is_nan 1 = false ∧ PrimFloat.is_nan 9 = false ∧ PrimFloat.is_nan 6 = false ∧
  PrimFloat.eqb 1 9 = false.
Proof.
  split; [reflexivity|].
  exact (is_valid_numbers
           {| level_min := 1; level_max := 9; level_default := 6; level_step := 1 |} eq_refl).
Defined.

Lemma init_context_win32_needs_listing_witness :
  init_context win32_world (Some 0) 0 (ready_state ∅) = Done (Ok tt) win32_discovered ∧
  ∃ our,
    env (sail_codecs_path_static win32_discovered) = Some our ∧
    FindFirstFile win32_world (our +:+ "\*.codec.info") ≠ None ∧
    ∀ p, env (client_codecs_path_static win32_discovered) = Some p →
         FindFirstFile win32_world (p +:+ "\*.codec.info") ≠ None.
Proof.
  assert (init_context win32_world (Some 0) 0 (ready_state ∅) = Done (Ok tt) win32_discovered)
    as H by (vm_compute; reflexivity).
  split; [exact H|].
  exact (init_context_win32_needs_listing win32_world 0 0 (ready_state ∅) win32_discovered
           eq_refl eq_refl H).
Defined.




Lemma current_tls_context_gives_initialized_witness :
  well_formed (set_environ (λ _, home_environment) initial_state) ∧
  current_tls_context_with_flags posix_lib_world (Some None) 0
    (set_environ (λ _, home_environment) initial_state)
    = Done (Ok (Some (Some 0))) posix_entered ∧
  ∃ c l,
    Some (Some 0) = Some (Some c) ∧
    tls_context posix_entered = Some c ∧
    registry posix_entered c l ∧
    control_tls_context posix_lib_world (Some (Some 7)) SAIL_CONTEXT_FETCH posix_entered
      = Done (Ok (Some (Some 0))) posix_entered.
Proof.
  assert (well_formed (set_environ (λ _, home_environment) initial_state)) as Hwf
    by apply well_formed_set_environ, initial_state_well_formed.
  assert (current_tls_context_with_flags posix_lib_world (Some None) 0
            (set_environ (λ _, home_environment) initial_state)
          = Done (Ok (Some (Some 0))) posix_entered) as H by (vm_compute; reflexivity).
  split_and!; [exact Hwf | exact H |].
  exact (current_tls_context_gives_initialized posix_lib_world None (Some 7) 0
           (set_environ (λ _, home_environment) initial_state) posix_entered
           (Some (Some 0)) Hwf H).
Defined.

Lemma sail_codecs_path_win32_lost_fallback_witness :
  sail_codecs_path win32_exhausted_world (ready_state ∅) = Stuck ∧
  (contexts (ready_state ∅) !! 0 = Some fresh_context →
   init_context win32_exhausted_world (Some 0) 0 (ready_state ∅) = Stuck).
Proof.
  exact (sail_codecs_path_win32_lost_fallback win32_exhausted_world 0 0 (ready_state ∅)
           "C:\sail\bin" "sail.dll" eq_refl eq_refl eq_refl eq_refl eq_refl).
Defined.

(** * The registry, exactly *)

Section Outcome.

Variable w : world.

Lemma store_slot_mallocs c last node s r s' :
  store_slot c last node s = Done r s' → mallocs s' = mallocs s.
Proof.
  destruct last as [|a]; unfold store_slot; munfold.
  - destruct (contexts s !! c); simpl; [|done]. destruct (contexts s !! c); simpl; [|done].
    by intros [= _ <-].
  - destruct (nodes s !! a); simpl; [|done]. destruct (nodes s !! a); simpl; [|done].
    by intros [= _ <-].
Qed.

(** The requests and the verdict of [build_codec_from_codec_info]. *)
Lemma build_codec_from_codec_info_outcome full s :
  match build_codec_from_codec_info w full s with
  | Stuck => False
  | Done r s' =>
      mallocs s' = (build_outcome w full (mallocs s)).2 ∧
      match r with
      | Ok _ =>
          ∃ d, descriptor_of w full = Some d ∧ (build_outcome w full (mallocs s)).1 = Valid d
      | Err _ => valid_descriptor (build_outcome w full (mallocs s)).1 = None
      end
  end.
Proof.
  unfold build_codec_from_codec_info, build_outcome, descriptor_of, module_path_of.
  destruct (strstr full ".codec.info") as [off|] eqn:Hoff; [|done].
  unfold alloc_codec_info_node, destroy_codec_info_node. munfold. simpl.
  destruct (malloc_ok w (mallocs s)); simpl; [|done].
  destruct (malloc_ok w (S (mallocs s))); simpl; [|done].
  destruct (codec_read_info w full) as [i|e]; simpl.
  - rewrite !lookup_insert_eq. simpl. rewrite ?lookup_insert_eq. simpl. eauto.
  - rewrite !lookup_insert_eq. simpl. done.
Qed.

(** The part shared by both walks, with its verdict. *)
Lemma build_and_register_outcome c full l s :
  registry s c l →
  match
    (r <- try (build_codec_from_codec_info w full) ;;
     match r with
     | Ok node => store_slot c (last_slot l) (Some node) ;; ret (SlotNext node)
     | Err _ => ret (last_slot l)
     end) s
  with
  | Stuck => False
  | Done r s' =>
      ∃ new,
        r = Ok (last_slot (l ++ new)) ∧ registry s' c (l ++ new) ∧
        new.*2 = descriptors [(build_outcome w full (mallocs s)).1] ∧
        mallocs s' = (build_outcome w full (mallocs s)).2
  end.
Proof.
  intros Hreg. unfold bind at 1. unfold try.
  pose proof (build_codec_from_codec_info_spec w full s) as Hb.
  pose proof (build_codec_from_codec_info_outcome full s) as Ho.
  destruct (build_codec_from_codec_info w full s) as [[a|e] s1|]; [| |done].
  - destruct Hb as (Hctx & _ & _ & _ & Ha & _ & _ & d & Hd & Hnodes).
    destruct Ho as (Hm & d' & Hd' & Hcl). simplify_eq.
    destruct (store_slot_append c l s s1 a d) as (s2 & Hrun & Hreg2 & _); [done..|].
    unfold bind. rewrite Hrun. unfold ret. exists [(a, d)]. rewrite last_slot_snoc.
    split_and!; [done | done | by rewrite Hcl |].
    rewrite <- Hm. by eapply store_slot_mallocs.
  - destruct Hb as (Hctx & _ & _ & _ & Hnodes & _). destruct Ho as (Hm & Hcl).
    unfold ret. exists []. rewrite app_nil_r. split_and!; [done | | | done].
    + by eapply registry_same.
    + unfold descriptors. simpl. by rewrite Hcl.
Qed.

Lemma outcome_post_skip c l s s' cl m :
  valid_descriptor cl = None →
  contexts s' = contexts s → nodes s' = nodes s → mallocs s' = m →
  registry s c l →
  outcome_post c l ([cl], m) (Ok (last_slot l)) s'.
Proof.
  intros Hv Hc Hn Hm Hreg. exists []. rewrite app_nil_r.
  split_and!; [done | by eapply registry_same | | done].
  unfold descriptors. simpl. by rewrite Hv.
Qed.

(** One round of the [readdir] loop, with its verdict. *)
Lemma scan_entry_posix_outcome c dir name l s :
  platform w = POSIX →
  registry s c l →
  match scan_entry_posix w c dir name (last_slot l) s with
  | Stuck => False
  | Done r s' =>
      outcome_post c l
        ([(entry_outcome w dir name (mallocs s)).1], (entry_outcome w dir name (mallocs s)).2)
        r s'
  end.
Proof.
  intros Hplat Hreg. unfold scan_entry_posix, entry_outcome. rewrite Hplat.
  unfold bind at 1. unfold try at 1. rewrite build_full_path_run.
  destruct (malloc_ok w (mallocs s)) eqn:Hm; cbn [negb fst snd].
  2: { unfold ret. by apply (outcome_post_skip c l s). }
  destruct (sail_is_file w (full_path_of w dir name)) eqn:Hfile; cbn [fst snd].
  2: { unfold ret. by apply (outcome_post_skip c l s). }
  case_bool_decide as Hsuffix.
  2: { unfold ret, build_outcome.
       destruct (strstr (full_path_of w dir name) ".codec.info"); [done|].
       by apply (outcome_post_skip c l s). }
  unfold bind at 1. unfold SAIL_LOG_DEBUG, sail_log, modify.
  match goal with |- match _ ?s1 with _ => _ end =>
    pose proof (build_and_register_outcome c (full_path_of w dir name) l s1) as H
  end.
  simpl in H. apply H. by eapply registry_same.
Qed.

(** One round of the [FindNextFile] loop, with its verdict. *)
Lemma scan_entry_win32_outcome c dir name l s :
  platform w = WIN32 →
  registry s c l →
  match scan_entry_win32 w c dir name (last_slot l) s with
  | Stuck => False
  | Done r s' =>
      outcome_post c l
        ([(entry_outcome w dir name (mallocs s)).1], (entry_outcome w dir name (mallocs s)).2)
        r s'
  end.
Proof.
  intros Hplat Hreg. unfold scan_entry_win32, entry_outcome. rewrite Hplat.
  unfold bind at 1. unfold try at 1. rewrite build_full_path_run.
  destruct (malloc_ok w (mallocs s)) eqn:Hm; cbn [negb fst snd].
  2: { unfold ret. by apply (outcome_post_skip c l s). }
  unfold bind at 1. unfold SAIL_LOG_DEBUG, sail_log, modify.
  match goal with |- match _ ?s1 with _ => _ end =>
    pose proof (build_and_register_outcome c (full_path_of w dir name) l s1) as H
  end.
  simpl in H. apply H. by eapply registry_same.
Qed.

(** The rounds compose. *)
Lemma walk_outcome_spec (f : string → slot → M slot) c dir names :
  (∀ name l s, registry s c l →
     match f name (last_slot l) s with
     | Stuck => False
     | Done r s' =>
         outcome_post c l
           ([(entry_outcome w dir name (mallocs s)).1],
            (entry_outcome w dir name (mallocs s)).2) r s'
     end) →
  ∀ l s, registry s c l →
  match foldM f names (last_slot l) s with
  | Stuck => False
  | Done r s' => outcome_post c l (walk_outcome w dir names (mallocs s)) r s'
  end.
Proof.
  intros Hf. induction names as [|name names IH]; intros l s Hreg; simpl.
  - unfold ret. exists []. rewrite app_nil_r. by split_and!.
  - unfold bind. specialize (Hf name l s Hreg).
    destruct (f name (last_slot l) s) as [r1 s1|]; [|done].
    destruct Hf as (new1 & -> & Hreg1 & Hnew1 & Hm1). cbn [fst snd] in Hnew1, Hm1.
    specialize (IH (l ++ new1) s1 Hreg1). rewrite Hm1 in IH.
    destruct (foldM f names (last_slot (l ++ new1)) s1) as [r2 s2|]; [|done].
    destruct IH as (new2 & -> & Hreg2 & Hnew2 & Hm2).
    exists (new1 ++ new2). rewrite app_assoc. split_and!; [done | done | | done].
    cbn [fst snd]. rewrite fmap_app, Hnew1, Hnew2. unfold descriptors. simpl.
    by destruct (valid_descriptor _).
Qed.

(** The walk of one search path, with its verdicts. *)
Lemma scan_path_outcome c codecs_path l s :
  registry s c l →
  match scan_path w c codecs_path (last_slot l) s with
  | Stuck => False
  | Done (Ok last) s' => outcome_post c l (scan_outcome w codecs_path (mallocs s)) (Ok last) s'
  | Done (Err e) s' => platform w = WIN32 ∧ registry s' c l
  end.
Proof.
  intros Hreg. unfold scan_path, scan_outcome, dir_entries. cbv zeta.
  destruct codecs_path as [dir|].
  2: { unfold ret. exists []. rewrite app_nil_r. by split_and!. }
  destruct (platform w) eqn:Hplat.
  - destruct (opendir w dir) as [entries|] eqn:Hdir; simpl.
    + pose proof (walk_outcome_spec (scan_entry_posix w c dir) c dir entries) as H.
      specialize (H (λ name l s, scan_entry_posix_outcome c dir name l s Hplat) l s Hreg).
      by destruct (foldM _ _ _ _) as [[?|?] ?|]; [|destruct H as (?&?&_)|].
    + munfold. simpl. exists []. rewrite app_nil_r. split_and!; [done | | done | done].
      by eapply registry_same.
  - unfold bind at 1. rewrite sail_malloc_run.
    destruct (malloc_ok w (mallocs s)) eqn:Hm.
    2: { split; [done|]. by eapply registry_same. }
    destruct (FindFirstFile w _) as [[first others]|] eqn:Hfind.
    2: { munfold. simpl. split; [done|]. by eapply registry_same. }
    unfold bind at 1.
    pose proof (walk_outcome_spec (scan_entry_win32 w c dir) c dir (first :: others)) as H.
    assert (registry (set_mallocs S s) c l) as Hreg' by (by eapply registry_same).
    specialize (H (λ name l s, scan_entry_win32_outcome c dir name l s Hplat) l _ Hreg').
    destruct (foldM _ _ _ _) as [[last|e] s1|]; [| |done].
    2: { by destruct H as (?&?&_). }
    destruct H as (new & [= ->] & Hreg1 & Hnew & Hm1). simpl in Hnew, Hm1.
    destruct (no_more_files w _); munfold; simpl.
    all: exists new; split_and!; [done | by eapply registry_same | done | done].
Qed.

End Outcome.

Section Discovery.

Variable w : world.

Lemma sail_codecs_path_requests s r s' :
  sail_codecs_path w s = Done r s' → mallocs s' = mallocs s + path_requests w s.
Proof.
  unfold sail_codecs_path, path_requests. munfold.
  destruct (codecs_path_called (sail_codecs_path_static s)); simpl.
  { intros [= _ <-]. lia. }
  destruct (platform w); simpl.
  - destruct (environ s !! "SAIL_CODECS_PATH"); simpl; intros [= _ <-]; simpl; lia.
  - destruct (environ s !! "SAIL_CODECS_PATH"); simpl.
    { intros [= _ <-]. simpl. lia. }
    destruct (GetModuleFileName w) as [| |path]; simpl; try (intros [= _ <-]; simpl; lia).
    destruct (strrchr path "\"); simpl; [|intros [= _ <-]; simpl; lia].
    destruct (malloc_ok w (mallocs s)); simpl; [|done].
    intros [= _ <-]. simpl. lia.
Qed.

Lemma client_codecs_path_requests s r s' :
  client_codecs_path s = Done r s' → mallocs s' = mallocs s.
Proof.
  unfold client_codecs_path. munfold.
  destruct (codecs_path_called (client_codecs_path_static s)); simpl.
  { by intros [= _ <-]. }
  destruct (environ s !! "SAIL_MY_CODECS_PATH"); simpl; by intros [= _ <-].
Qed.

Lemma update_lib_path_requests p s s' :
  update_lib_path w (Some p) s = Done (Ok tt) s' →
  mallocs s' = mallocs s + lib_path_requests w p.
Proof.
  unfold update_lib_path, lib_path_requests, lib_directory. munfold.
  destruct (platform w); simpl; rewrite !append_nil_r.
  - destruct (malloc_ok w (mallocs s)); simpl; [|done].
    destruct (sail_is_dir w (p +:+ "/lib")); simpl; [|intros [= <-]; simpl; lia].
    destruct (environ s !! "LD_LIBRARY_PATH"); simpl;
      (destruct (malloc_ok w (S (mallocs s))); simpl; [|done]);
      (destruct (setenv_ok w _ _); simpl; [|done]); intros [= <-]; simpl; lia.
  - destruct (malloc_ok w (mallocs s)); simpl; [|done].
    destruct (sail_is_dir w (p +:+ "\lib")); simpl; [|intros [= <-]; simpl; lia].
    destruct (malloc_ok w (S (mallocs s))); simpl; [|done].
    destruct (AddDllDirectory w _); simpl; [|done]. intros [= <-]. simpl. lia.
Qed.

(** What a successful [init_context] on a new context has registered:
    the descriptors of the entries of the two memoized paths that the
    walk classified valid, the primary path first, each in the order of
    its listing. *)
Lemma init_context_discovery c flags s s' :
  contexts s !! c = Some fresh_context →
  init_context w (Some c) flags s = Done (Ok tt) s' →
  ∃ our l,
    env (sail_codecs_path_static s') = Some our ∧
    registry s' c l ∧
    l.*2 =
      descriptors (discovery w s our (env (client_codecs_path_static s'))).1 ++
      descriptors (discovery w s our (env (client_codecs_path_static s'))).2.
Proof.
  intros Hx Hrun.
  destruct (init_context_phases w c flags s _ _ Hx Hrun)
    as (our & s1 & r2 & s2 & H1 & _ & Hour & H2 & _ & Hp2 & R2).
  destruct r2 as [[]|e2]; [|by destruct R2].
  destruct R2 as (their & s3 & r4 & s4 & H3 & _ & Hst3 & Htheir & H4 & _ & Hp4 & Hreg4 & R4).
  destruct r4 as [[]|e4]; [|by destruct R4].
  destruct R4 as (r5 & s5 & H5 & Hp5 & R5).
  destruct r5 as [last|e5]; [|by destruct R5].
  destruct R5 as (_ & _ & l & Hreg5 & _ & _ & _ & _ & _ & Hreg' & Hp6).
  assert (sail_codecs_path_static s' = sail_codecs_path_static s1) as Hs.
  { destruct Hp2 as [E2 _], Hp4 as [E4 _], Hp5 as [E5 _], Hp6 as [E6 _]. congruence. }
  assert (client_codecs_path_static s' = client_codecs_path_static s3) as Hc.
  { destruct Hp4 as [_ E4], Hp5 as [_ E5], Hp6 as [_ E6]. congruence. }
  assert (mallocs s4 = requests_before_walk w s our their) as Hm4.
  { unfold requests_before_walk.
    apply sail_codecs_path_requests in H1. apply update_lib_path_requests in H2.
    apply client_codecs_path_requests in H3. simpl in H1.
    change (path_requests w (init_mark w c s)) with (path_requests w s) in H1.
    destruct their as [p|]; simpl.
    - apply update_lib_path_requests in H4. lia.
    - injection H4 as <-. lia. }
  exists our, l. rewrite Hs, Hc, Htheir. split_and!; [done..|].
  unfold discovery. cbv zeta. cbn [fst snd]. rewrite <- Hm4.
  cbn [foldM] in H5. unfold bind at 1 in H5.
  pose proof (scan_path_outcome w c (Some our) [] s4 Hreg4) as F1.
  change (last_slot []) with SlotHead in F1.
  destruct (scan_path w c (Some our) SlotHead s4) as [[last1|e1] s41|]; [|done..].
  destruct F1 as (new1 & [= ->] & Hreg41 & Hnew1 & Hm41). simpl in Hreg41.
  unfold bind at 1 in H5.
  pose proof (scan_path_outcome w c their new1 s41 Hreg41) as F2.
  destruct (scan_path w c their (last_slot new1) s41) as [[last2|e2] s42|]; [|done..].
  destruct F2 as (new2 & _ & Hreg42 & Hnew2 & _).
  injection H5 as _ <-.
  assert (l = new1 ++ new2) as ->.
  { destruct Hreg5 as (x & Hx1 & _ & Hch), Hreg42 as (x' & Hx' & _ & Hch').
    simplify_eq. by eapply chain_func. }
  by rewrite fmap_app, Hnew1, Hnew2, Hm41.
Qed.

Lemma build_outcome_descriptor full m :
  (∀ k, malloc_ok w k = true) →
  valid_descriptor (build_outcome w full m).1 = descriptor_of w full.
Proof.
  intros Hm. unfold build_outcome, descriptor_of, module_path_of.
  destruct (strstr full ".codec.info"); simpl; [|done].
  rewrite !Hm. simpl. by destruct (codec_read_info w full).
Qed.

Lemma walk_outcome_length dir names m :
  length (walk_outcome w dir names m).1 = length names.
Proof.
  revert m. induction names as [|name names IH]; intros m; simpl; [done|]. by rewrite IH.
Qed.

(** When no allocation fails the verdicts are those of the file system
    and of the parser. *)
Lemma walk_outcome_registered dir names m :
  (∀ k, malloc_ok w k = true) →
  descriptors (walk_outcome w dir names m).1 = omap (registered_descriptor w dir) names.
Proof.
  intros Hm. unfold descriptors. revert m.
  induction names as [|name names IH]; intros m; [done|].
  cbn [walk_outcome fst omap list_omap]. rewrite IH. clear IH.
  unfold entry_outcome, registered_descriptor. rewrite Hm. cbn [negb].
  destruct (platform w).
  - destruct (sail_is_file w (full_path_of w dir name)); [|done].
    by rewrite build_outcome_descriptor.
  - by rewrite build_outcome_descriptor.
Qed.

Lemma scan_outcome_length codecs_path m :
  length (scan_outcome w codecs_path m).1 = length (dir_entries w codecs_path).
Proof. destruct codecs_path; [apply walk_outcome_length | done]. Qed.

Lemma scan_outcome_registered codecs_path m :
  (∀ k, malloc_ok w k = true) →
  descriptors (scan_outcome w codecs_path m).1 =
  omap (registered_descriptor w (default "" codecs_path)) (dir_entries w codecs_path).
Proof.
  intros Hm. destruct codecs_path as [dir|]; [|done]. by apply walk_outcome_registered.
Qed.

(** C4. Partial-failure isolation. The walk of a search directory never
    stops at an entry: started on any registry, [scan_path] returns, and
    when it returns [SAIL_OK] the registry has grown, at its end and in
    order, by exactly the descriptors of the entries that
    [scan_outcome] classifies valid. The class of an entry (valid; or
    wrong suffix, not a regular file, unparsable metadata, failed path
    build, failed node allocation) is decided by the entry, by the world
    and by the allocation requests the entry itself makes, so a failure
    skips that entry only: N descriptors for N valid and M malformed
    entries. When no allocation fails the valid entries are those that
    are regular files, carry the suffix and parse. An error return is
    possible on Windows only and comes from the listing, with the
    registry as it was. After a successful [init_context] on a new
    context the registry holds exactly the descriptors of the valid
    entries of the two search paths. *)
Theorem partial_failure_isolation (c : addr) :
  (∀ dir l s,
     registry s c l →
     match scan_path w c (Some dir) (last_slot l) s with
     | Stuck => False
     | Done (Ok last) s' =>
         ∃ new,
           registry s' c (l ++ new) ∧
           last = last_slot (l ++ new) ∧
           new.*2 = descriptors (scan_outcome w (Some dir) (mallocs s)).1 ∧
           length (scan_outcome w (Some dir) (mallocs s)).1
             = length (dir_entries w (Some dir)) ∧
           length new +
           length (filter (λ cl, is_malformed cl = true)
                     (scan_outcome w (Some dir) (mallocs s)).1)
             = length (dir_entries w (Some dir)) ∧
           ((∀ k, malloc_ok w k = true) →
            new.*2 = omap (registered_descriptor w dir) (dir_entries w (Some dir)))
     | Done (Err e) s' => platform w = WIN32 ∧ registry s' c l
     end) ∧
  (∀ flags s s',
     contexts s !! c = Some fresh_context →
     init_context w (Some c) flags s = Done (Ok tt) s' →
     ∃ our l,
       env (sail_codecs_path_static s') = Some our ∧
       registry s' c l ∧
       l.*2 =
         descriptors (discovery w s our (env (client_codecs_path_static s'))).1 ++
         descriptors (discovery w s our (env (client_codecs_path_static s'))).2 ∧
       length l +
       length (filter (λ cl, is_malformed cl = true)
                 ((discovery w s our (env (client_codecs_path_static s'))).1 ++
                  (discovery w s our (env (client_codecs_path_static s'))).2))
         = length (dir_entries w (Some our)) +
           length (dir_entries w (env (client_codecs_path_static s')))).
Proof.
  split.
  - intros dir l s Hreg. pose proof (scan_path_outcome w c (Some dir) l s Hreg) as H.
    destruct (scan_path w c (Some dir) (last_slot l) s) as [[last|e] s'|]; [| |done].
    + destruct H as (new & [= ->] & Hreg' & Hnew & _).
      exists new. split_and!; [done | done | done | apply scan_outcome_length | |].
      * rewrite <- (length_fmap snd new), Hnew, descriptors_length.
        apply scan_outcome_length.
      * intros Hm. rewrite Hnew. by apply (scan_outcome_registered (Some dir)).
    + done.
  - intros flags s s' Hx Hrun.
    destruct (init_context_discovery c flags s s' Hx Hrun) as (our & l & Hour & Hreg & Hl).
    exists our, l. split_and!; [done..|].
    rewrite <- (length_fmap snd l), Hl, <- descriptors_app, descriptors_length.
    unfold discovery. cbv zeta. cbn [fst snd].
    by rewrite length_app, !scan_outcome_length.
Qed.

(** C6. Order preservation. After a successful initialization of a new
    context the registry is a chain of [next] pointers from the head that
    reaches NULL (singly linked), visits no node twice (acyclic), and
    lists exactly the descriptors of the valid entries of the primary
    path, in the order of its listing, followed by those of the valid
    entries of the secondary path, in its order; when no allocation
    fails these are all the entries that are regular files, carry the
    suffix and parse. The paths are the memoized ones. *)
Theorem registry_order_preserved (c : addr) (flags : Z) (s s' : state) :
  contexts s !! c = Some fresh_context →
  paths_ok s →
  init_context w (Some c) flags s = Done (Ok tt) s' →
  ∃ our l sel1 sel2,
    env (sail_codecs_path_static s') = Some our ∧
    registry s' c l ∧
    NoDup l.*1 ∧
    sel1 `sublist_of` dir_entries w (Some our) ∧
    sel2 `sublist_of` dir_entries w (env (client_codecs_path_static s')) ∧
    Some <$> l.*2 =
      ((λ n, descriptor_of w (full_path_of w our n)) <$> sel1) ++
      ((λ n, descriptor_of w
               (full_path_of w (default "" (env (client_codecs_path_static s'))) n)) <$> sel2) ∧
    l.*2 =
      descriptors (discovery w s our (env (client_codecs_path_static s'))).1 ++
      descriptors (discovery w s our (env (client_codecs_path_static s'))).2 ∧
    ((∀ k, malloc_ok w k = true) →
     l.*2 =
       omap (registered_descriptor w our) (dir_entries w (Some our)) ++
       omap (registered_descriptor w (default "" (env (client_codecs_path_static s'))))
            (dir_entries w (env (client_codecs_path_static s')))).
Proof.
  intros Hx Hok Hrun. pose proof (init_context_spec w c flags s Hx Hok) as H.
  rewrite Hrun in H.
  destruct H as (_ & _ & _ & our & Hour & _ & cls1 & cls2 & l & Hreg & Hcls1 & Hcls2 & Hl).
  destruct (classified_sublist w _ _ _ Hcls1) as (sel1 & Hsub1 & Hsel1).
  destruct (classified_sublist w _ _ _ Hcls2) as (sel2 & Hsub2 & Hsel2).
  destruct (init_context_discovery c flags s s' Hx Hrun) as (our' & l' & Hour' & Hreg' & Hl').
  assert (our' = our) as -> by congruence.
  assert (l' = l) as ->.
  { destruct Hreg as (x & Hx1 & _ & Hch), Hreg' as (x' & Hx' & _ & Hch').
    simplify_eq. by eapply chain_func. }
  exists our, l, sel1, sel2. split_and!; [done | done | | done | done | | done |].
  - destruct Hreg as (x & _ & _ & Hch). by eapply chain_NoDup.
  - by rewrite Hl, fmap_app, Hsel1, Hsel2.
  - intros Hm. rewrite Hl'. unfold discovery. cbv zeta. cbn [fst snd].
    rewrite (scan_outcome_registered (Some our)), scan_outcome_registered by done. done.
Qed.

End Discovery.

(** ** The registry on the example installations *)

Lemma posix_flaky_initialized_run :
  init_context posix_flaky_world (Some 0) 0 (ready_state ∅)
  = Done (Ok tt) posix_flaky_initialized.
Proof. vm_compute. reflexivity. Qed.

Lemma partial_failure_isolation_witness :
  registry marked_state 0 [] ∧
  (scan_outcome posix_flaky_world (Some "/x") (mallocs marked_state)).1 =
    [NotRegularFile; NotRegularFile; PathBuildFailed; NotRegularFile; WrongSuffix;
     ParseFailed (SAIL_ERROR_OTHER 7);
     Valid (set_ci_path (Some "/x/jpeg.so") (example_info "/x/jpeg.codec.info.bak"))] ∧
  match scan_path posix_flaky_world 0 (Some "/x") SlotHead marked_state with
  | Stuck => False
  | Done (Ok last) s' =>
      ∃ new,
        registry s' 0 new ∧
        last = last_slot new ∧
        new.*2 = [set_ci_path (Some "/x/jpeg.so") (example_info "/x/jpeg.codec.info.bak")] ∧
        length (scan_outcome posix_flaky_world (Some "/x") (mallocs marked_state)).1 = 7 ∧
        length new +
        length (filter (λ cl, is_malformed cl = true)
                  (scan_outcome posix_flaky_world (Some "/x") (mallocs marked_state)).1) = 7 ∧
        ((∀ k, malloc_ok posix_flaky_world k = true) →
         new.*2 =
           [set_ci_path (Some "/x/jpeg.so") (example_info "/x/jpeg.codec.info");
            set_ci_path (Some "/x/jpeg.so") (example_info "/x/jpeg.codec.info.bak")])
  | Done (Err e) s' => platform posix_flaky_world = WIN32 ∧ registry s' 0 []
  end ∧
  contexts (ready_state ∅) !! 0 = Some fresh_context ∧
  init_context posix_flaky_world (Some 0) 0 (ready_state ∅)
    = Done (Ok tt) posix_flaky_initialized ∧
  ∃ our l,
    env (sail_codecs_path_static posix_flaky_initialized) = Some our ∧
    registry posix_flaky_initialized 0 l ∧
    l.*2 =
      descriptors
        (discovery posix_flaky_world (ready_state ∅) our
           (env (client_codecs_path_static posix_flaky_initialized))).1 ++
      descriptors
        (discovery posix_flaky_world (ready_state ∅) our
           (env (client_codecs_path_static posix_flaky_initialized))).2 ∧
    length l +
    length (filter (λ cl, is_malformed cl = true)
              ((discovery posix_flaky_world (ready_state ∅) our
                  (env (client_codecs_path_static posix_flaky_initialized))).1 ++
               (discovery posix_flaky_world (ready_state ∅) our
                  (env (client_codecs_path_static posix_flaky_initialized))).2))
      = length (dir_entries posix_flaky_world (Some our)) +
        length (dir_entries posix_flaky_world
                  (env (client_codecs_path_static posix_flaky_initialized))).
Proof.
  split; [exact marked_state_registry|]. split; [vm_compute; reflexivity|].
  split.
  { exact (proj1 (partial_failure_isolation posix_flaky_world 0) "/x" [] marked_state
             marked_state_registry). }
  split; [reflexivity|]. split; [exact posix_flaky_initialized_run|].
  exact (proj2 (partial_failure_isolation posix_flaky_world 0) 0%Z (ready_state ∅)
           posix_flaky_initialized eq_refl posix_flaky_initialized_run).
Defined.

Lemma registry_order_preserved_witness :
  contexts (ready_state ∅) !! 0 = Some fresh_context ∧
  paths_ok (ready_state ∅) ∧
  init_context posix_world (Some 0) 1 (ready_state ∅) = Done (Ok tt) posix_initialized ∧
  ∃ our l sel1 sel2,
    env (sail_codecs_path_static posix_initialized) = Some our ∧
    registry posix_initialized 0 l ∧
    NoDup l.*1 ∧
    sel1 `sublist_of` dir_entries posix_world (Some our) ∧
    sel2 `sublist_of`
      dir_entries posix_world (env (client_codecs_path_static posix_initialized)) ∧
    Some <$> l.*2 =
      ((λ n, descriptor_of posix_world (full_path_of posix_world our n)) <$> sel1) ++
      ((λ n, descriptor_of posix_world
               (full_path_of posix_world
                  (default "" (env (client_codecs_path_static posix_initialized))) n))
         <$> sel2) ∧
    l.*2 =
      descriptors
        (discovery posix_world (ready_state ∅) our
           (env (client_codecs_path_static posix_initialized))).1 ++
      descriptors
        (discovery posix_world (ready_state ∅) our
           (env (client_codecs_path_static posix_initialized))).2 ∧
    ((∀ k, malloc_ok posix_world k = true) →
     l.*2 =
       omap (registered_descriptor posix_world our) (dir_entries posix_world (Some our)) ++
       omap (registered_descriptor posix_world
               (default "" (env (client_codecs_path_static posix_initialized))))
            (dir_entries posix_world (env (client_codecs_path_static posix_initialized)))).
Proof.
  split_and!; [reflexivity | apply ready_state_paths_ok | exact posix_initialized_run |].
  exact (registry_order_preserved posix_world 0 1 (ready_state ∅) posix_initialized
           eq_refl (ready_state_paths_ok ∅) posix_initialized_run).
Defined.
